(** * LangSplat, eval/3d_iou_loc.py: open-vocabulary query evaluation

    A shallow embedding of the evaluation script and the properties of its
    numeric post-processing: mask thresholding, Gaussian exclusion,
    per-head arg-max selection, bounding-box scoring and the organisation
    of the ground-truth annotations.

    Modelling conventions.
    - A tensor (torch or numpy) is a shape together with its row-major
      data, as both libraries store a contiguous array.
    - Scalars are exact rationals: every finite float is one.  The literal
      thresholds are the rationals 65/100 and 58/100; not-a-number values
      are outside the model.
    - Text is held as its UTF-8 bytes.
    - A Python exception is [None] in an error monad; objects that the
      script mutates (the Gaussian models) live in an explicit heap.
    - Calls into the external libraries (colormap, CLIP relevance,
      autoencoder, OpenCV filter, polygon rasteriser) are section
      variables; writes to disk are recorded as events in a log. *)

From Stdlib Require Import QArith Qminmax ZArith List String Ascii DecimalString DecimalNat.
From stdpp Require Import base option list strings gmap.

Local Open Scope nat_scope.
Local Open Scope string_scope.

(** ** Tensors *)

Record tensor (A : Type) : Type := Tensor { shape : list nat; data : list A }.
Arguments Tensor {A} _ _.
Arguments shape {A} _.
Arguments data {A} _.

Definition numel (s : list nat) : nat := foldr Nat.mul 1 s.

(** A tensor is well formed when its data fills its shape. *)
Definition wf_tensor {A} (t : tensor A) : Prop :=
  length (data t) = numel (shape t).

Definition count_true (m : list bool) : nat := length (filter (fun b => b = true) m).

(** [x > c] on scalars, as the comparison of a tensor with a literal. *)
Definition Qgtb (x c : Q) : bool := negb (Qle_bool x c).

(** [t > c]: element-wise comparison, same shape. *)
Definition tensor_gt (t : tensor Q) (c : Q) : tensor bool :=
  Tensor (shape t) (map (fun x => Qgtb x c) (data t)).

(** [mask.float()] *)
Definition tensor_float (m : tensor bool) : tensor Q :=
  Tensor (shape m) (map (fun b : bool => if b then 1%Q else 0%Q) (data m)).

(** [t.squeeze()]: every dimension of size one is removed. *)
Definition squeeze {A} (t : tensor A) : tensor A :=
  Tensor (filter (fun n => n <> 1) (shape t)) (data t).

(** [t.unsqueeze(-1)] *)
Definition unsqueeze_last {A} (t : tensor A) : tensor A :=
  Tensor (shape t ++ [1]) (data t).

(** [t[i]] for a non-negative integer [i]: the [i]-th block along the first
    dimension; an [IndexError] when [t] has no dimension or [i] is out of
    range. *)
Definition select0 {A} (t : tensor A) (i : nat) : option (tensor A) :=
  match shape t with
  | [] => None
  | n :: s =>
      if decide (i < n)
      then Some (Tensor s (take (numel s) (drop (i * numel s) (data t))))
      else None
  end.

(** The blocks of [c] consecutive elements of [d] whose mask bit is set. *)
Fixpoint select_chunks {A} (c : nat) (mask : list bool) (d : list A) : list A :=
  match mask with
  | [] => []
  | b :: m => (if b then take c d else []) ++ select_chunks c m (drop c d)
  end.

(** [t[mask]] for a boolean mask: the mask's shape must equal the leading
    dimensions of [t] (an [IndexError] otherwise); the result has one row
    per set bit, each row keeping the remaining dimensions of [t]. *)
Definition index_mask {A} (t : tensor A) (mask : tensor bool) : option (tensor A) :=
  let m := length (shape mask) in
  if decide (take m (shape t) = shape mask)
  then Some (Tensor (count_true (data mask) :: drop m (shape t))
                    (select_chunks (numel (drop m (shape t))) (data mask) (data t)))
  else None.

(** [a.reshape(a.shape[0], 3)] of numpy: the number of elements must be
    [3 * a.shape[0]]. *)
Definition reshape_rows3 {A} (t : tensor A) : option (tensor A) :=
  match shape t with
  | [] => None
  | n :: _ =>
      if decide (numel (shape t) = n * 3)
      then Some (Tensor [n; 3] (data t))
      else None
  end.

(** The first dimension of a tensor, [t.shape[0]]. *)
Definition dim0 {A} (t : tensor A) : option nat := head (shape t).

(** ** Strings and paths *)

(** [str(n)] for a non-negative integer. *)
Definition str_nat (n : nat) : string := NilZero.string_of_uint (Nat.to_uint n).

(** [str(z)] for an integer. *)
Definition str_Z (z : Z) : string :=
  match z with
  | Zneg p => "-" ++ str_nat (Pos.to_nat p)
  | _ => str_nat (Z.to_nat z)
  end.

(** [s.split(c)] for a one-character separator: never empty. *)
Fixpoint split_char (c : ascii) (s : string) : list string :=
  match s with
  | EmptyString => [EmptyString]
  | String a r =>
      if Ascii.eqb a c then EmptyString :: split_char c r
      else match split_char c r with
           | [] => [String a EmptyString]
           | x :: xs => String a x :: xs
           end
  end.

(** [s.split(c)[-1]] *)
Definition last_segment (c : ascii) (s : string) : string :=
  List.last (split_char c s) EmptyString.

(** [s.split(sep)[0]] for a non-empty separator: the text before the first
    occurrence of [sep], all of [s] when there is none. *)
Fixpoint before_first (sep s : string) : string :=
  match s with
  | EmptyString => EmptyString
  | String a r => if String.prefix sep s then EmptyString else String a (before_first sep r)
  end.

Definition ends_with_slash (s : string) : bool :=
  match String.rev s with
  | String a _ => Ascii.eqb a "/"
  | EmptyString => false
  end.

(** [os.path.join(a, b)] of posixpath. *)
Definition path_join (a b : string) : string :=
  if String.prefix "/" b then b
  else if (String.eqb a "" || ends_with_slash a)%bool then a ++ b
  else a ++ "/" ++ b.

Definition path_join_list (a : string) (bs : list string) : string :=
  fold_left path_join bs a.

(** ** Gaussian models, the heap and the log of writes *)

(** The per-Gaussian attributes of [scene.gaussian_model.GaussianModel]
    that the script reads and assigns. *)
Record GaussianModel : Type := MkGaussianModel {
  _features_dc : tensor Q;
  _features_rest : tensor Q;
  _language_feature : tensor Q;
  _opacity : tensor Q;
  _rotation : tensor Q;
  _scaling : tensor Q;
  _xyz : tensor Q;
  max_radii2D : tensor Q
}.

Definition set_features_dc (v : tensor Q) (g : GaussianModel) : GaussianModel :=
  MkGaussianModel v (_features_rest g) (_language_feature g) (_opacity g)
                  (_rotation g) (_scaling g) (_xyz g) (max_radii2D g).
Definition set_features_rest (v : tensor Q) (g : GaussianModel) : GaussianModel :=
  MkGaussianModel (_features_dc g) v (_language_feature g) (_opacity g)
                  (_rotation g) (_scaling g) (_xyz g) (max_radii2D g).
Definition set_language_feature (v : tensor Q) (g : GaussianModel) : GaussianModel :=
  MkGaussianModel (_features_dc g) (_features_rest g) v (_opacity g)
                  (_rotation g) (_scaling g) (_xyz g) (max_radii2D g).
Definition set_opacity (v : tensor Q) (g : GaussianModel) : GaussianModel :=
  MkGaussianModel (_features_dc g) (_features_rest g) (_language_feature g) v
                  (_rotation g) (_scaling g) (_xyz g) (max_radii2D g).
Definition set_rotation (v : tensor Q) (g : GaussianModel) : GaussianModel :=
  MkGaussianModel (_features_dc g) (_features_rest g) (_language_feature g) (_opacity g)
                  v (_scaling g) (_xyz g) (max_radii2D g).
Definition set_scaling (v : tensor Q) (g : GaussianModel) : GaussianModel :=
  MkGaussianModel (_features_dc g) (_features_rest g) (_language_feature g) (_opacity g)
                  (_rotation g) v (_xyz g) (max_radii2D g).
Definition set_xyz (v : tensor Q) (g : GaussianModel) : GaussianModel :=
  MkGaussianModel (_features_dc g) (_features_rest g) (_language_feature g) (_opacity g)
                  (_rotation g) (_scaling g) v (max_radii2D g).
Definition set_max_radii2D (v : tensor Q) (g : GaussianModel) : GaussianModel :=
  MkGaussianModel (_features_dc g) (_features_rest g) (_language_feature g) (_opacity g)
                  (_rotation g) (_scaling g) (_xyz g) v.

(** Object references. *)
Definition loc : Type := nat.

(** What the script writes or reports. *)
Inductive event : Type :=
| SavePly (path : string) (g : GaussianModel)
| WritePointCloud (path : string) (points colors : tensor Q)
| SaveImage (path : string) (img : tensor Q)
| VisMaskSave (mask : tensor bool) (path : string)
| ShowResult (img : tensor Q) (coords : list (list nat)) (bboxes : tensor Q) (path : string)
| LogInfo (msg : string).

Record state : Type := MkState {
  heap : gmap loc GaussianModel;
  dirs : gset string;
  log : list event
}.

(** ** The state and error monad *)

Definition M (A : Type) : Type := state -> option (A * state).

Definition ret {A} (a : A) : M A := fun s => Some (a, s).
Definition bind {A B} (m : M A) (k : A -> M B) : M B :=
  fun s => match m s with
           | Some (a, s') => k a s'
           | None => None
           end.
Definition raise {A} : M A := fun _ => None.
Definition lift {A} (o : option A) : M A :=
  fun s => match o with Some a => Some (a, s) | None => None end.

Declare Scope m_scope.
Delimit Scope m_scope with m.
Notation "'let*' x ':=' m 'in' k" := (bind m (fun x => k))
  (at level 10, x name, m at level 100, k at level 200) : m_scope.
Notation "m1 ';;' m2" := (bind m1 (fun _ => m2))
  (at level 100, m2 at level 200, right associativity) : m_scope.
Local Open Scope m_scope.

(** [for x in l: body(x)] *)
Fixpoint for_each {A} (l : list A) (body : A -> M unit) : M unit :=
  match l with
  | [] => ret tt
  | x :: r => body x ;; for_each r body
  end.

Definition emit (e : event) : M unit :=
  fun s => Some (tt, MkState (heap s) (dirs s) (log s ++ [e])).

(** Reading an object through its reference. *)
Definition deref (l : loc) : M GaussianModel := fun s => lift (heap s !! l) s.

(** [copy.deepcopy(g)]: a fresh object with the same contents. *)
Definition deepcopy (l : loc) : M loc :=
  let* g := deref l in
  fun s => let l' := fresh (dom (heap s)) in
           Some (l', MkState (<[l' := g]> (heap s)) (dirs s) (log s)).

(** [obj.attr = f(obj.attr)] where [f] may raise. *)
Definition assign (l : loc) (upd : GaussianModel -> option GaussianModel) : M unit :=
  let* g := deref l in
  let* g' := lift (upd g) in
  fun s => Some (tt, MkState (<[l := g']> (heap s)) (dirs s) (log s)).

(** [if not os.path.exists(d): os.makedirs(d)] *)
Definition ensure_dir (d : string) : M unit :=
  fun s => if decide (d ∈ dirs s) then Some (tt, s)
           else Some (tt, MkState (heap s) ({[ d ]} ∪ dirs s) (log s)).

(** ** activate_stream *)

Record ColormapOptions : Type := MkColormapOptions {
  colormap : string;
  normalize : bool;
  colormap_min : Q;
  colormap_max : Q
}.

(** The part of [OpenCLIPNetwork] the script uses: the positive prompts. *)
Record ClipModel : Type := MkClipModel { positives : list string }.

Section ActivateStream.

  (** [utils_eval.colormap_saving(image, options, None)]: the coloured
      relevance map, returned as an array. *)
Variable colormap_saving : tensor Q -> option ColormapOptions -> tensor Q.

  (** [clip_model.get_max_across(sem_map)]: the relevance of every pixel
      or point for every head and prompt. *)
Variable get_max_across : ClipModel -> tensor Q -> tensor Q.

  (** [n_head, n_prompt, h, w = valid_map.shape] *)
Definition unpack4 (s : list nat) : option (nat * nat * nat * nat) :=
    match s with
    | [a; b; c; d] => Some (a, b, c, d)
    | _ => None
    end.

  (** [valid_map[i][k]] *)
Definition relevance (valid_map : tensor Q) (i k : nat) : option (tensor Q) :=
    t ← select0 valid_map i; select0 t k.

Definition exclusion_mask (rel : tensor Q) : tensor bool :=
    squeeze (tensor_gt rel (65 # 100)).

Definition pixel_mask (rel : tensor Q) : tensor bool :=
    tensor_gt rel (58 # 100).

  (** The eight assignments [gaussians_temp.attr = gaussians_temp.attr[mask]]. *)
Definition mask_attributes (tmp : loc) (mask : tensor bool) : M unit :=
    assign tmp (fun g => v ← index_mask (_features_dc g) mask; Some (set_features_dc v g)) ;;
    assign tmp (fun g => v ← index_mask (_features_rest g) mask; Some (set_features_rest v g)) ;;
    assign tmp (fun g => v ← index_mask (_language_feature g) mask; Some (set_language_feature v g)) ;;
    assign tmp (fun g => v ← index_mask (_opacity g) mask; Some (set_opacity v g)) ;;
    assign tmp (fun g => v ← index_mask (_rotation g) mask; Some (set_rotation v g)) ;;
    assign tmp (fun g => v ← index_mask (_scaling g) mask; Some (set_scaling v g)) ;;
    assign tmp (fun g => v ← index_mask (_xyz g) mask; Some (set_xyz v g)) ;;
    assign tmp (fun g => v ← index_mask (max_radii2D g) mask; Some (set_max_radii2D v g)).

Definition ply_path (output_path positive : string) (i : nat) : string :=
    output_path ++ "/point_cloud/" ++ "exclude_" ++ positive ++ "_" ++ str_nat i ++ ".ply".

Definition heatmap_path (output_path positive : string) (i : nat) : string :=
    path_join (path_join output_path "heatmap")
              (last_segment "/" output_path ++ "exclude_" ++ positive ++ "_" ++ str_nat i ++ ".ply").

Definition mask_path (output_path positive : string) (i index : nat) : string :=
    path_join_list output_path ["masks"; positive; str_nat i; str_nat index ++ ".png"].

  (** The body of the loop over heads, for prompt [k] and head [i]. *)
Definition stream_body (valid_map : tensor Q) (clip_model : ClipModel)
      (point_xyz : tensor Q) (output_path : string) (generate_mask : bool)
      (index : nat) (gaussians_list : option (list loc)) (thresh : Q)
      (colormap_options : option ColormapOptions) (k i : nat) : M unit :=
    let* rel := lift (relevance valid_map i k) in
    let rgb_language := colormap_saving (unsqueeze_last rel) colormap_options in
    match gaussians_list with
    | Some gl =>
        let* gaussians := lift (gl !! i) in
        let mask := exclusion_mask rel in
        let* rgb_language := lift (index_mask rgb_language mask) in
        let* gaussians_temp := deepcopy gaussians in
        mask_attributes gaussians_temp mask ;;
        let* positive := lift (positives clip_model !! k) in
        let* g := deref gaussians_temp in
        emit (SavePly (ply_path output_path positive i) g) ;;
        let* points := lift (index_mask point_xyz mask) in
        let* colors := lift (reshape_rows3 rgb_language) in
        emit (WritePointCloud (heatmap_path output_path positive i) points colors)
    | None =>
        if generate_mask then
          let mask := pixel_mask rel in
          let* positive := lift (positives clip_model !! k) in
          emit (SaveImage (mask_path output_path positive i index) (tensor_float mask))
        else
          let* colors := lift (reshape_rows3 rgb_language) in
          let* positive := lift (positives clip_model !! k) in
          emit (WritePointCloud (heatmap_path output_path positive i) point_xyz colors)
    end.

Definition activate_stream (sem_map : tensor Q) (clip_model : ClipModel)
      (point_xyz : tensor Q) (output_path : string) (generate_mask : bool)
      (index : nat) (gaussians_list : option (list loc)) (thresh : Q)
      (colormap_options : option ColormapOptions) : M unit :=
    let valid_map := get_max_across clip_model sem_map in
    let* dims := lift (unpack4 (shape valid_map)) in
    let '(n_head, n_prompt, h, w) := dims in
    for_each (seq 0 n_prompt) (fun k =>
      ensure_dir (path_join output_path "heatmap") ;;
      for_each (seq 0 n_head) (fun i =>
        stream_body valid_map clip_model point_xyz output_path generate_mask
                    index gaussians_list thresh colormap_options k i)).

End ActivateStream.

(** ** evaluate *)

(** [t[:, j, ...]]: the [j]-th block along the second dimension, for
    every index of the first. *)
Definition select1 {A} (t : tensor A) (j : nat) : option (tensor A) :=
  match shape t with
  | a :: b :: s =>
      if decide (j < b)
      then Some (Tensor (a :: s)
                   (flat_map (fun l => take (numel s) (drop ((l * b + j) * numel s) (data t)))
                             (seq 0 a)))
      else None
  | _ => None
  end.

(** [t.flatten(0, 2)] *)
Definition flatten_0_2 {A} (t : tensor A) : option (tensor A) :=
  match shape t with
  | a :: b :: c :: s => Some (Tensor (a * b * c :: s) (data t))
  | _ => None
  end.

(** [t.view(lvl, h, w, -1)]: the last dimension is inferred; torch raises
    when the given dimensions do not divide the number of elements, or
    when their product is zero (the inferred dimension is ambiguous). *)
Definition view_infer_last {A} (t : tensor A) (lvl h w : nat) : option (tensor A) :=
  let p := lvl * h * w in
  let n := numel (shape t) in
  if decide (p = 0) then None
  else if decide (n mod p = 0) then Some (Tensor [lvl; h; w; n / p] (data t))
  else None.

(** The prompts that [evaluate] sets as positives. *)
Definition img_ann_prompts : list string :=
  ["stuffed bear"; "coffee mug"; "bag of cookies"; "sheep"; "apple"; "paper napkin";
   "plate"; "tea in a glass"; "bear nose"; "three cookies"; "coffee"; "dall-e brand";
   "yellow pouf"; "hooves"].

(** [os.makedirs(d, exist_ok=True)] *)
Definition makedirs_exist_ok (d : string) : M unit :=
  fun s => Some (tt, MkState (heap s) ({[ d ]} ∪ dirs s) (log s)).

Section Evaluate.

Variable colormap_saving : tensor Q -> option ColormapOptions -> tensor Q.
Variable get_max_across : ClipModel -> tensor Q -> tensor Q.

  (** [model.decode] of the autoencoder built from the hidden dimensions
      and loaded from the checkpoint; it raises on an input whose last
      dimension is not the latent width. *)
Variable decode : string -> list nat -> list nat -> tensor Q -> option (tensor Q).

  (** The contents of the array of rendered features after the loading
      loops over [feat_dir], [None] when a load or an assignment raises. *)
Variable load_features : list string -> option (list Q).

  (** Lines 291-293: flatten the leading dimensions, decode, view back. *)
Definition restore_feat (decoder : tensor Q -> option (tensor Q)) (sem_feat : tensor Q)
    : option (tensor Q) :=
    dims ← unpack4 (shape sem_feat);
    let '(lvl, h, w, _) := dims in
    flat ← flatten_0_2 sem_feat;
    restored_feat ← decoder flat;
    view_infer_last restored_feat lvl h w.

Definition evaluate (feat_dir : list string) (output_path ae_ckpt_path : string)
      (generate_mask : bool) (mask_thresh : Q)
      (encoder_hidden_dims decoder_hidden_dims : list nat)
      (compressed_sem_feats point_xyz : tensor Q)
      (gaussians_list : option (list loc)) : M unit :=
    let colormap_options := MkColormapOptions "turbo" true (-1) 1 in
    let* compressed_sem_feats :=
      match gaussians_list, generate_mask with
      | None, true =>
          let* d := lift (load_features feat_dir) in
          ret (Tensor [length feat_dir; 177; 730; 988; 3] d)
      | _, _ => ret compressed_sem_feats
      end in
    let* n_frames := lift (shape compressed_sem_feats !! 1) in
    for_each (seq 0 n_frames) (fun j =>
      let* sem_feat := lift (select1 compressed_sem_feats j) in
      let* restored_feat :=
        lift (restore_feat (decode ae_ckpt_path encoder_hidden_dims decoder_hidden_dims) sem_feat) in
      let img_ann := img_ann_prompts in
      (if generate_mask then
         for_each img_ann (fun folder_name =>
           for_each (seq 0 (length feat_dir)) (fun i =>
             makedirs_exist_ok (path_join_list output_path ["masks"; folder_name; str_nat i])))
       else ret tt) ;;
      let clip_model := MkClipModel img_ann in
      activate_stream colormap_saving get_max_across restored_feat clip_model point_xyz
                      output_path generate_mask j gaussians_list mask_thresh
                      (Some colormap_options)).

End Evaluate.

(** ** Python dictionaries, in insertion order *)

Fixpoint dict_get {V} (d : list (string * V)) (k : string) : option V :=
  match d with
  | [] => None
  | (k', v) :: r => if String.eqb k' k then Some v else dict_get r k
  end.

(** [d[k] = v]: an existing key keeps its place, a new one goes last. *)
Fixpoint dict_set {V} (d : list (string * V)) (k : string) (v : V) : list (string * V) :=
  match d with
  | [] => [(k, v)]
  | (k', v') :: r => if String.eqb k' k then (k', v) :: r else (k', v') :: dict_set r k v
  end.

Definition dict_keys {V} (d : list (string * V)) : list string := map fst d.

(** The annotation of one label in one frame. *)
Record ann : Type := MkAnn { bboxes : tensor Q; mask : tensor bool }.

(** ** lerf_localization *)

(** [a.transpose(1, 2, 0)] of a three-dimensional array. *)
Definition transpose_120 {A} (t : tensor A) : option (tensor A) :=
  match shape t with
  | [n; h; w] =>
      Some (Tensor [h; w; n]
              (flat_map (fun p => flat_map (fun i => take 1 (drop (i * (h * w) + p) (data t)))
                                           (seq 0 n))
                        (seq 0 (h * w))))
  | _ => None
  end.

(** [a[..., i]] *)
Definition select_last {A} (t : tensor A) (i : nat) : option (tensor A) :=
  match rev (shape t) with
  | [] => None
  | c :: rs =>
      if decide (i < c)
      then Some (Tensor (rev rs)
                   (flat_map (fun p => take 1 (drop (p * c + i) (data t))) (seq 0 (numel rs))))
      else None
  end.

Definition qmax (a b : Q) : Q := if Qle_bool a b then b else a.

(** [a.max()]: a [ValueError] on an empty array. *)
Definition tensor_max (t : tensor Q) : option Q :=
  match data t with
  | [] => None
  | x :: r => Some (fold_left qmax r x)
  end.

(** The flat positions, from [p] on, of the elements equal to [score]. *)
Fixpoint positions_eq (score : Q) (p : nat) (d : list Q) : list nat :=
  match d with
  | [] => []
  | x :: r => if Qeq_bool x score then p :: positions_eq score (S p) r
              else positions_eq score (S p) r
  end.

(** The multi-index of flat position [p] in an array of shape [s]. *)
Fixpoint unravel (s : list nat) (p : nat) : list nat :=
  match s with
  | [] => []
  | _ :: r => p / numel r :: unravel r (p mod numel r)
  end.

(** [np.asarray(np.nonzero(a == score)).transpose(1, 0)[..., ::-1]]: the
    multi-indices of the elements equal to [score], axes reversed. *)
Definition coords_of_max (a : tensor Q) (score : Q) : option (list (list nat)) :=
  match shape a with
  | [] => None
  | _ => Some (map (fun p => rev (unravel (shape a) p)) (positions_eq score 0 (data a)))
  end.

Fixpoint argmax_from (best_i : nat) (best : Q) (i : nat) (l : list Q) : nat :=
  match l with
  | [] => best_i
  | x :: r => if Qgtb x best then argmax_from i x (S i) r
              else argmax_from best_i best (S i) r
  end.

(** [np.argmax(l)]: the first index of the maximum; a [ValueError] on an
    empty array. *)
Definition argmax (l : list Q) : option nat :=
  match l with
  | [] => None
  | x :: r => Some (argmax_from 0 x 1 r)
  end.

(** [np.ones((scale, scale)) / (scale ** 2)] *)
Definition uniform_kernel (scale : nat) : tensor Q :=
  Tensor [scale; scale]
         (map (fun x : Q => (x / inject_Z (Z.of_nat (scale ^ 2)))%Q) (repeat 1%Q (scale * scale))).

(** [a.reshape(-1, 4)] followed by the iteration over its rows. *)
Fixpoint rows4 (d : list Q) : list (Q * Q * Q * Q) :=
  match d with
  | x1 :: y1 :: x2 :: y2 :: r => (x1, y1, x2, y2) :: rows4 r
  | _ => []
  end.

Definition reshape_rows4 (t : tensor Q) : option (list (Q * Q * Q * Q)) :=
  if decide (numel (shape t) mod 4 = 0) then Some (rows4 (data t)) else None.

(** The builtins [min(a, b)] and [max(a, b)]. *)
Definition py_min (a b : Q) : Q := if Qgtb a b then b else a.
Definition py_max (a b : Q) : Q := if Qgtb b a then b else a.

Definition Qnat (n : nat) : Q := inject_Z (Z.of_nat n).

(** The test of lines 236-237, with the short-circuit of [and]. *)
Definition in_box (x_min x_max y_min y_max : Q) (cord_list : list nat) : option bool :=
  c0 ← cord_list !! 0;
  if (Qle_bool x_min (Qnat c0) && Qle_bool (Qnat c0) x_max)%bool
  then c1 ← cord_list !! 1;
       Some (Qle_bool y_min (Qnat c1) && Qle_bool (Qnat c1) y_max)%bool
  else Some false.

(** The loop over the candidate coordinates: the counter and the flag. *)
Fixpoint scan_coords (x_min x_max y_min y_max : Q) (coord_final : list (list nat))
    (acc_num : nat) : option (nat * bool) :=
  match coord_final with
  | [] => Some (acc_num, false)
  | cord_list :: r =>
      match in_box x_min x_max y_min y_max cord_list with
      | Some true => Some (acc_num + 1, true)
      | Some false => scan_coords x_min x_max y_min y_max r acc_num
      | None => None
      end
  end.

(** The loop over the boxes of one label, left at the first hit. *)
Fixpoint scan_boxes (boxes : list (Q * Q * Q * Q)) (coord_final : list (list nat))
    (acc_num : nat) : option nat :=
  match boxes with
  | [] => Some acc_num
  | (x1, y1, x2, y2) :: r =>
      let x_min := py_min x1 x2 in
      let x_max := py_max x1 x2 in
      let y_min := py_min y1 y2 in
      let y_max := py_max y1 y2 in
      match scan_coords x_min x_max y_min y_max coord_final acc_num with
      | Some (acc_num, flag) =>
          if flag then Some acc_num else scan_boxes r coord_final acc_num
      | None => None
      end
  end.

Section Localization.

Variable get_max_across : ClipModel -> tensor Q -> tensor Q.

  (** [cv2.filter2D(src, -1, kernel)] *)
Variable filter2D : tensor Q -> tensor Q -> tensor Q.

  (** Lines 245-250: the blend of the smoothed and the raw relevance of
      the selected head, coloured and laid over the darkened image. *)
Variable compose_overlay : tensor Q -> tensor Q -> tensor Q -> option (tensor Q).

  (** Lines 214-217: the smoothed relevance maps of prompt [k], one
      channel per head. *)
Definition smoothed (valid_map : tensor Q) (k : nat) : option (tensor Q) :=
    select_output ← select1 valid_map k;
    let scale := 30 in
    let kernel := uniform_kernel scale in
    np_relev ← transpose_120 select_output;
    Some (filter2D np_relev kernel).

  (** The body of the loop over heads: score and coordinates of head [i]. *)
Definition head_score (avg_filtered : tensor Q) (i : nat) : option (Q * list (list nat)) :=
    a ← select_last avg_filtered i;
    score ← tensor_max a;
    coord ← coords_of_max a score;
    Some (score, coord).

  (** Lines 219-228 *)
Definition select_head (avg_filtered : tensor Q) (n_head : nat)
    : option (nat * list (list nat)) :=
    lvl ← mapM (head_score avg_filtered) (seq 0 n_head);
    selec_head ← argmax (lvl.*1);
    coord_final ← (lvl.*2) !! selec_head;
    Some (selec_head, coord_final).

  (** The body of the loop over prompts. *)
Definition localize_prompt (valid_map image : tensor Q) (image_name : string)
      (img_ann : list (string * ann)) (n_head : nat) (positives : list string)
      (k : nat) (acc_num : nat) : M nat :=
    let* avg_filtered := lift (smoothed valid_map k) in
    let* sel := lift (select_head avg_filtered n_head) in
    let '(selec_head, coord_final) := sel in
    let* positive := lift (positives !! k) in
    let* a := lift (dict_get img_ann positive) in
    let* boxes := lift (reshape_rows4 (bboxes a)) in
    let* acc_num := lift (scan_boxes boxes coord_final acc_num) in
    let* avg_sel := lift (select_last avg_filtered selec_head) in
    let* raw := lift (select1 valid_map k) in
    let* raw_sel := lift (select0 raw selec_head) in
    let* valid_composited := lift (compose_overlay avg_sel raw_sel image) in
    let save_path := path_join (path_join image_name "localization") (positive ++ ".png") in
    emit (ShowResult valid_composited coord_final (bboxes a) save_path) ;;
    ret acc_num.

Fixpoint localize_loop (body : nat -> nat -> M nat) (ks : list nat) (acc_num : nat) : M nat :=
    match ks with
    | [] => ret acc_num
    | k :: r => let* acc_num := body k acc_num in localize_loop body r acc_num
    end.

Definition lerf_localization (sem_map image : tensor Q) (clip_model : ClipModel)
      (image_name : string) (img_ann : list (string * ann)) : M nat :=
    makedirs_exist_ok (path_join image_name "localization") ;;
    let valid_map := get_max_across clip_model sem_map in
    let* dims := lift (unpack4 (shape valid_map)) in
    let '(n_head, n_prompt, h, w) := dims in
    let acc_num := 0 in
    let positives := dict_keys img_ann in
    localize_loop (localize_prompt valid_map image image_name img_ann n_head positives)
                  (seq 0 (length positives)) acc_num.

End Localization.

(** ** eval_gt_lerfdata *)

(** Python text is held as its UTF-8 bytes (a lone surrogate as the three
    bytes that [surrogatepass] gives it): splitting at an ASCII separator
    is the same on the bytes as on the characters. *)

(** The payload of a continuation byte [10xxxxxx]. *)
Definition continuation (b : ascii) : option N :=
  let n := N_of_ascii b in
  if ((128 <=? n) && (n <? 192))%N then Some (n - 128)%N else None.

(** The code points of a text; [None] on bytes that encode no text. *)
Fixpoint utf8_decode (s : string) : option (list N) :=
  match s with
  | EmptyString => Some []
  | String b0 r0 =>
      let n0 := N_of_ascii b0 in
      if (n0 <? 128)%N then cons n0 <$> utf8_decode r0
      else if (n0 <? 194)%N then None
      else
        match r0 with
        | EmptyString => None
        | String b1 r1 =>
            c1 ← continuation b1;
            if (n0 <? 224)%N then cons ((n0 - 192) * 64 + c1)%N <$> utf8_decode r1
            else
              match r1 with
              | EmptyString => None
              | String b2 r2 =>
                  c2 ← continuation b2;
                  if (n0 <? 240)%N then
                    let cp := (((n0 - 224) * 64 + c1) * 64 + c2)%N in
                    if (2048 <=? cp)%N then cons cp <$> utf8_decode r2 else None
                  else
                    match r2 with
                    | EmptyString => None
                    | String b3 r3 =>
                        c3 ← continuation b3;
                        let cp := ((((n0 - 240) * 64 + c1) * 64 + c2) * 64 + c3)%N in
                        if ((65536 <=? cp) && (cp <? 1114112))%N
                        then cons cp <$> utf8_decode r3 else None
                    end
              end
        end
  end.

(** [Py_UNICODE_ISSPACE] above ASCII: the characters of bidirectional type
    WS, B or S, or of category Zs. *)
Definition unicode_space (cp : N) : bool :=
  (existsb (N.eqb cp) [133; 160; 5760; 8232; 8233; 8239; 8287; 12288]%N
   || (8192 <=? cp)%N && (cp <=? 8202)%N)%bool.

(** The character zero of every run of ten decimal digits above ASCII
    (Unicode 14.0, the database of CPython 3.11): Arabic-Indic, Devanagari,
    full width and so on. *)
Definition decimal_zeros : list N :=
  [1632; 1776; 1984; 2406; 2534; 2662; 2790; 2918; 3046; 3174; 3302; 3430; 3558;
   3664; 3792; 3872; 4160; 4240; 6112; 6160; 6470; 6608; 6784; 6800; 6992; 7088;
   7232; 7248; 42528; 43216; 43264; 43472; 43504; 43600; 44016; 65296; 66720;
   68912; 69734; 69872; 69942; 70096; 70384; 70736; 70864; 71248; 71360; 71472;
   71904; 72016; 72784; 73040; 73120; 92768; 92864; 93008; 120782; 120792;
   120802; 120812; 120822; 123200; 123632; 125264; 130032]%N.

(** [Py_UNICODE_TODECIMAL] above ASCII. *)
Definition unicode_decimal (cp : N) : option N :=
  (fun zero => (cp - zero)%N)
    <$> find (fun zero => ((zero <=? cp) && (cp <? zero + 10))%N) decimal_zeros.

(** One character of [_PyUnicode_TransformDecimalAndSpaceToASCII]: an ASCII
    character stays, white space becomes a blank, a decimal digit becomes
    its ASCII digit; any other character ends the number with an error. *)
Definition ascii_of_char (cp : N) : option ascii :=
  if (cp <? 127)%N then Some (ascii_of_N cp)
  else if unicode_space cp then Some " "%char
  else d ← unicode_decimal cp; Some (ascii_of_N (48 + d)).

Definition to_ascii (s : string) : option string :=
  cps ← utf8_decode s;
  chars ← mapM ascii_of_char cps;
  Some (string_of_list_ascii chars).

(** [Py_ISSPACE]: the ASCII white space that [PyLong_FromString] skips
    before and after the number. *)
Definition is_space (a : ascii) : bool :=
  let n := nat_of_ascii a in
  (Nat.leb 9 n && Nat.leb n 13 || Nat.eqb n 32)%bool.

Fixpoint lstrip (s : string) : string :=
  match s with
  | String a r => if is_space a then lstrip r else s
  | EmptyString => EmptyString
  end.

Definition strip (s : string) : string :=
  String.rev (lstrip (String.rev (lstrip s))).

Definition digit_of (a : ascii) : option Z :=
  let n := nat_of_ascii a in
  if (Nat.leb 48 n && Nat.leb n 57)%bool then Some (Z.of_nat (n - 48)) else None.

(** The digits after the first: an underscore may stand between two
    digits. *)
Fixpoint parse_digits (s : string) (acc : Z) : option Z :=
  match s with
  | EmptyString => Some acc
  | String a r =>
      match digit_of a with
      | Some d => parse_digits r (acc * 10 + d)
      | None =>
          if Ascii.eqb a "_" then
            match r with
            | String b r' =>
                match digit_of b with
                | Some d => parse_digits r' (acc * 10 + d)
                | None => None
                end
            | EmptyString => None
            end
          else None
      end
  end.

(** A number starts with a digit. *)
Definition parse_number (s : string) : option Z :=
  match s with
  | EmptyString => None
  | String a _ =>
      match digit_of a with
      | Some _ => parse_digits s 0
      | None => None
      end
  end.

(** [int(s)] for a text [s]: Unicode white space and decimal digits are
    brought to ASCII, then come optional white space, an optional sign,
    the decimal digits, and optional white space; a [ValueError]
    otherwise.  The limit on the number of digits that CPython 3.11 sets
    by default ([sys.set_int_max_str_digits]) is not modelled. *)
Definition py_int (s : string) : option Z :=
  t ← to_ascii s;
  match strip t with
  | String "+"%char r => parse_number r
  | String "-"%char r => Z.opp <$> parse_number r
  | u => parse_number u
  end.

(** One entry of the ["objects"] list of a labelme file. *)
Record prompt_data : Type := MkPromptData {
  category : string;
  bbox : tensor Q;
  segmentation : list (list Q)
}.

(** The fields of a ground-truth file that the script reads. *)
Record gt_data : Type := MkGtData {
  info_height : nat;
  info_width : nat;
  info_name : string;
  objects : list prompt_data
}.

(** [a.reshape(-1)] *)
Definition reshape_flat {A} (t : tensor A) : tensor A :=
  Tensor [numel (shape t)] (data t).

(** [a.reshape(-1, 4)] *)
Definition reshape_m1_4 {A} (t : tensor A) : option (tensor A) :=
  let n := numel (shape t) in
  if decide (n mod 4 = 0) then Some (Tensor [n / 4; 4] (data t)) else None.

(** [np.concatenate([a, b], axis=0)] of two arrays of rows: the trailing
    dimensions must agree. *)
Definition concatenate0 {A} (a b : tensor A) : option (tensor A) :=
  match shape a, shape b with
  | na :: sa, nb :: sb =>
      if decide (sa = sb) then Some (Tensor (na + nb :: sa) (data a ++ data b)) else None
  | _, _ => None
  end.

(** The key [f'{idx}'] of a frame. *)
Definition frame_key (name : string) : option string :=
  n ← py_int (before_first ".jpg" (last_segment "_" name));
  Some (str_Z (n - 1)).

Section GroundTruth.

  (** [utils_eval.polygon_to_mask] and [utils_eval.stack_mask] *)
Variable polygon_to_mask : nat * nat -> list (list Q) -> tensor bool.
Variable stack_mask : tensor bool -> tensor bool -> tensor bool.

  (** The body of the loop over the objects of one file. *)
Definition add_object (h w : nat) (name ouput_path : string)
      (img_ann : list (string * ann)) (p : prompt_data) : M (list (string * ann)) :=
    let label := category p in
    let box := reshape_flat (bbox p) in
    let mask0 := polygon_to_mask (h, w) (segmentation p) in
    let* entry :=
      match dict_get img_ann label with
      | Some a =>
          let mask1 := stack_mask (mask a) mask0 in
          let* prev := lift (reshape_m1_4 (bboxes a)) in
          let* cur := lift (reshape_m1_4 box) in
          let* both := lift (concatenate0 prev cur) in
          ret (MkAnn both mask1)
      | None => ret (MkAnn box mask0)
      end in
    let img_ann := dict_set img_ann label entry in
    let parent := path_join_list ouput_path ["gt"; before_first ".jpg" name] in
    makedirs_exist_ok parent ;;
    emit (VisMaskSave (mask entry) (path_join parent (label ++ ".jpg"))) ;;
    ret img_ann.

Fixpoint add_objects (h w : nat) (name ouput_path : string)
      (img_ann : list (string * ann)) (ps : list prompt_data) : M (list (string * ann)) :=
    match ps with
    | [] => ret img_ann
    | p :: r =>
        let* img_ann := add_object h w name ouput_path img_ann p in
        add_objects h w name ouput_path img_ann r
    end.

  (** The loop over the files: the dictionary built so far and the
      last-assigned [(h, w)], unbound before the first file. *)
Fixpoint gt_loop (ouput_path : string) (files : list gt_data)
      (gt_ann : list (string * list (string * ann))) (hw : option (nat * nat))
    : M (list (string * list (string * ann)) * option (nat * nat)) :=
    match files with
    | [] => ret (gt_ann, hw)
    | gt :: r =>
        let h := info_height gt in
        let w := info_width gt in
        let* key := lift (frame_key (info_name gt)) in
        let* img_ann := add_objects h w (info_name gt) ouput_path [] (objects gt) in
        gt_loop ouput_path r (dict_set gt_ann key img_ann) (Some (h, w))
    end.

  (** [gt_json] holds the parsed [frame_*.json] files in the sorted order
      of their paths, [img_paths] the sorted [frame_*.jpg] paths. *)
Definition eval_gt_lerfdata (gt_json : list gt_data) (img_paths : list string)
      (ouput_path : string)
    : M (list (string * list (string * ann)) * (nat * nat) * list string) :=
    let* res := gt_loop ouput_path gt_json [] None in
    let '(gt_ann, hw) := res in
    let* hw := lift hw in
    ret (gt_ann, hw, img_paths).

End GroundTruth.

(** ** Notions used to state the properties *)

(** The model [g] with every per-Gaussian attribute indexed by [m]. *)
Definition masked_model (g : GaussianModel) (m : tensor bool) : option GaussianModel :=
  a1 ← index_mask (_features_dc g) m;
  a2 ← index_mask (_features_rest g) m;
  a3 ← index_mask (_language_feature g) m;
  a4 ← index_mask (_opacity g) m;
  a5 ← index_mask (_rotation g) m;
  a6 ← index_mask (_scaling g) m;
  a7 ← index_mask (_xyz g) m;
  a8 ← index_mask (max_radii2D g) m;
  Some (MkGaussianModel a1 a2 a3 a4 a5 a6 a7 a8).

(** The per-Gaussian attribute tensors of a model. *)
Definition attributes (g : GaussianModel) : list (tensor Q) :=
  [_features_dc g; _features_rest g; _language_feature g; _opacity g;
   _rotation g; _scaling g; _xyz g; max_radii2D g].

(** The events of a loop nest over prompts and heads: one group of
    events for every prompt and every head, the prompts outermost, both
    in increasing order, and nothing else. *)
Definition per_prompt_and_head (P : nat -> nat -> list event -> Prop)
    (n_prompt n_head : nat) (es : list event) : Prop :=
  exists groups : list (list (list event)),
    es = concat (map (@concat event) groups) /\
    Forall2 (fun k row => Forall2 (P k) (seq 0 n_head) row) (seq 0 n_prompt) groups.

(** What the pass of [activate_stream] for prompt [k] and head [i] writes
    in frame [index]: with a list of Gaussians a masked model and the
    masked points, in mask mode the thresholded relevance as an image,
    and otherwise all the points. *)
Definition pass_writes (colormap_saving : tensor Q -> option ColormapOptions -> tensor Q)
    (valid_map : tensor Q) (positives : list string) (point_xyz : tensor Q)
    (output_path : string) (generate_mask : bool) (index : nat)
    (gaussians_list : option (list loc)) (colormap_options : option ColormapOptions)
    (k i : nat) (es : list event) : Prop :=
  exists rel positive,
    relevance valid_map i k = Some rel /\
    positives !! k = Some positive /\
    match gaussians_list with
    | Some gl =>
        exists g g' rgb points colors,
          masked_model g (exclusion_mask rel) = Some g' /\
          index_mask (colormap_saving (unsqueeze_last rel) colormap_options)
                     (exclusion_mask rel) = Some rgb /\
          reshape_rows3 rgb = Some colors /\
          index_mask point_xyz (exclusion_mask rel) = Some points /\
          es = [SavePly (ply_path output_path positive i) g';
                WritePointCloud (heatmap_path output_path positive i) points colors]
    | None =>
        if generate_mask
        then es = [SaveImage (mask_path output_path positive i index)
                             (tensor_float (pixel_mask rel))]
        else exists colors,
               reshape_rows3 (colormap_saving (unsqueeze_last rel) colormap_options)
                 = Some colors /\
               es = [WritePointCloud (heatmap_path output_path positive i)
                                     point_xyz colors]
    end.

(** What [evaluate] writes for frame [j] of the features [feats]: the
    frame is decoded and queried with the fixed prompts, and every prompt
    and head of the relevance map gets its pass. *)
Definition frame_writes (colormap_saving : tensor Q -> option ColormapOptions -> tensor Q)
    (get_max_across : ClipModel -> tensor Q -> tensor Q)
    (decoder : tensor Q -> option (tensor Q)) (feats point_xyz : tensor Q)
    (output_path : string) (generate_mask : bool) (gaussians_list : option (list loc))
    (j : nat) (es : list event) : Prop :=
  exists sem_feat restored n_head n_prompt h w,
    select1 feats j = Some sem_feat /\
    restore_feat decoder sem_feat = Some restored /\
    shape (get_max_across (MkClipModel img_ann_prompts) restored)
      = [n_head; n_prompt; h; w] /\
    per_prompt_and_head
      (pass_writes colormap_saving (get_max_across (MkClipModel img_ann_prompts) restored)
         img_ann_prompts point_xyz output_path generate_mask j gaussians_list
         (Some (MkColormapOptions "turbo" true (-1) 1)))
      n_prompt n_head es.

(** An image of zeros and ones written to a file. *)
Definition binary_image (e : event) : Prop :=
  exists path img, e = SaveImage path img /\
    Forall (fun v : Q => v = 1%Q \/ v = 0%Q) (data img).

(** ** Sample inputs

    Small stand-ins for the external libraries and a small scene, on which
    the properties below are run. *)

(** A colour map from [(…, 1)] to [(…, 3)]. *)
Definition sample_colormap (t : tensor Q) (_ : option ColormapOptions) : tensor Q :=
  Tensor (removelast (shape t) ++ [3])
         (flat_map (fun x : Q => [x; (1 - x)%Q; 0%Q]) (data t)).

(** A relevance model that reads the relevance off the features: prompt
    [k] looks at component [k mod d] of a feature of width [d]. *)
Definition sample_get_max_across (clip_model : ClipModel) (t : tensor Q) : tensor Q :=
  match shape t with
  | [lvl; h; w; d] =>
      let n := length (positives clip_model) in
      Tensor [lvl; n; h; w]
        (flat_map (fun l =>
           flat_map (fun k =>
             flat_map (fun p => take 1 (drop ((l * (h * w) + p) * d + k mod d) (data t)))
                      (seq 0 (h * w)))
             (seq 0 n))
           (seq 0 lvl))
  | _ => t
  end.

(** A relevance model whose input already is the relevance map. *)
Definition sample_relevance_given (_ : ClipModel) (t : tensor Q) : tensor Q := t.

(** Three Gaussians. *)
Definition sample_gaussians : GaussianModel :=
  MkGaussianModel
    (Tensor [3; 1; 3] [1; 2; 3; 4; 5; 6; 7; 8; 9]%Q)
    (Tensor [3; 0; 3] [])
    (Tensor [3; 3] [1; 0; 0; 0; 1; 0; 0; 0; 1]%Q)
    (Tensor [3; 1] [1 # 2; 1 # 3; 1 # 4]%Q)
    (Tensor [3; 4] [1; 0; 0; 0; 1; 0; 0; 0; 1; 0; 0; 0]%Q)
    (Tensor [3; 3] [1; 1; 1; 2; 2; 2; 3; 3; 3]%Q)
    (Tensor [3; 3] [0; 0; 0; 1; 1; 1; 2; 2; 2]%Q)
    (Tensor [3] [0; 0; 0]%Q).

Definition sample_point_xyz : tensor Q := _xyz sample_gaussians.

(** One head, one prompt, three points of relevance 0.9, 0.3 and 0.7. *)
Definition sample_valid_map : tensor Q :=
  Tensor [1; 1; 3; 1] [9 # 10; 3 # 10; 7 # 10]%Q.

Definition sample_clip : ClipModel := MkClipModel ["apple"].

Definition sample_state : state := MkState {[ 0 := sample_gaussians ]} ∅ [].

(** The state a run ends in; the start state if it raises. *)
Definition final_state (m : M unit) (s : state) : state :=
  match m s with
  | Some (_, s') => s'
  | None => s
  end.

Definition sample_run (generate_mask : bool) (gaussians_list : option (list loc)) : M unit :=
  activate_stream sample_colormap sample_relevance_given sample_valid_map sample_clip
                  sample_point_xyz "out/scene" generate_mask 0 gaussians_list (1 # 2) None.

(** A decoder from latent width 3 to width 2. *)
Fixpoint sample_decode_rows (d : list Q) : list Q :=
  match d with
  | a :: b :: c :: r => a :: (b + c)%Q :: sample_decode_rows r
  | _ => []
  end.

Definition sample_decode (t : tensor Q) : option (tensor Q) :=
  match shape t with
  | [b; 3] => Some (Tensor [b; 2] (sample_decode_rows (data t)))
  | _ => None
  end.

Definition sample_autoencoder (_ : string) (_ _ : list nat) : tensor Q -> option (tensor Q) :=
  sample_decode.

(** The compressed features of three Gaussians, one level, one frame. *)
Definition sample_compressed : tensor Q :=
  Tensor [1; 1; 3; 1; 3] [9 # 10; 0; 1 # 10; 3 # 10; 1 # 10; 1 # 10; 7 # 10; 1 # 10; 0]%Q.

Definition sample_evaluate (mask_thresh : Q) : M unit :=
  evaluate sample_colormap sample_get_max_across sample_autoencoder (fun _ => None)
           ["feat/scene_1"] "out/scene" "ckpt/best_ckpt.pth" true mask_thresh
           [256; 128; 64; 32; 3] [16; 32; 64; 128; 256; 256; 512]
           sample_compressed sample_point_xyz (Some [0]).

(** Feature folders without files: the array of [evaluate] stays as
    [np.zeros] made it. *)
Definition sample_features (feat_dir : list string) : option (list Q) :=
  Some (repeat 0%Q (length feat_dir * 177 * 730 * 988 * 3)).

(** The messages that a run has logged. *)
Definition reported (l : list event) : list string :=
  omap (fun e => match e with LogInfo msg => Some msg | _ => None end) l.

(** Intersection over union of two masks, as the glossary defines it: the
    number of pixels set in both over the number set in either. *)
Definition iou (pred gt : tensor bool) : Q :=
  (Qnat (count_true (zip_with andb (data pred) (data gt)))
   / Qnat (count_true (zip_with orb (data pred) (data gt))))%Q.

(** The events that are files written to disk. *)
Definition is_file_write (e : event) : Prop :=
  match e with
  | SavePly _ _ | WritePointCloud _ _ _ | SaveImage _ _ => True
  | _ => False
  end.

(** The point [(x, y)] lies in the box spanned by two opposite corners,
    whichever corners they are. *)
Definition box_contains (box : Q * Q * Q * Q) (x y : nat) : Prop :=
  let '(x1, y1, x2, y2) := box in
  (Qmin x1 x2 <= Qnat x)%Q /\ (Qnat x <= Qmax x1 x2)%Q /\
  (Qmin y1 y2 <= Qnat y)%Q /\ (Qnat y <= Qmax y1 y2)%Q.

(** Some candidate coordinate lies in some box of the label. *)
Definition label_hit (boxes : list (Q * Q * Q * Q)) (coord_final : list (list nat)) : Prop :=
  exists box cord x y,
    box ∈ boxes /\ cord ∈ coord_final /\
    cord !! 0 = Some x /\ cord !! 1 = Some y /\ box_contains box x y.


(** The border rule of OpenCV's default, [BORDER_REFLECT_101]: positions
    outside [0, len) are mirrored about the first and the last pixel. *)
Definition reflect_101 (len : nat) (p : Z) : nat :=
  if Nat.leb len 1 then 0
  else let period := (2 * (Z.of_nat len - 1))%Z in
       let q := (p mod period)%Z in
       Z.to_nat (if (q <? Z.of_nat len)%Z then q else (period - q)%Z).

(** A correlation filter on an image of shape [(h, w, n)], channel by
    channel, anchored at the centre of the kernel. *)
Definition sample_filter2D (src kernel : tensor Q) : tensor Q :=
  match shape src, shape kernel with
  | [h; w; n], [kh; kw] =>
      Tensor [h; w; n]
        (flat_map (fun y =>
           flat_map (fun x =>
             map (fun ch =>
               fold_left (fun acc i =>
                 fold_left (fun acc j =>
                   let ry := reflect_101 h (Z.of_nat y + Z.of_nat i - Z.of_nat (kh / 2)) in
                   let rx := reflect_101 w (Z.of_nat x + Z.of_nat j - Z.of_nat (kw / 2)) in
                   Qred (acc + nth (i * kw + j) (data kernel) 0
                               * nth ((ry * w + rx) * n + ch) (data src) 0)%Q)
                   (seq 0 kw) acc)
                 (seq 0 kh) 0%Q)
               (seq 0 n))
             (seq 0 w))
           (seq 0 h))
  | _, _ => src
  end.

(** An overlay that keeps the smoothed map. *)
Definition sample_overlay (avg raw image : tensor Q) : option (tensor Q) := Some avg.

(** Two heads, two prompts, images of two rows and three columns. *)
Definition sample_relevance_2d : tensor Q :=
  Tensor [2; 2; 2; 3]
    [ 1 # 10; 2 # 10; 1 # 10;   1 # 10; 1 # 10; 1 # 10;
      0; 0; 0;                  0; 0; 9 # 10;
      3 # 10; 3 # 10; 3 # 10;   3 # 10; 3 # 10; 3 # 10;
      0; 0; 0;                  0; 2 # 10; 0 ]%Q.

Definition sample_image : tensor Q := Tensor [2; 3; 3] (repeat 1%Q 18).

(** The annotations of one frame: one box around pixel (1, 1) for the
    second label, corners given in reverse order; a box away from every
    pixel for the first. *)
Definition sample_img_ann : list (string * ann) :=
  [("mug", MkAnn (Tensor [4] [10; 10; 20; 20]%Q) (Tensor [2; 3] (repeat false 6)));
   ("bear", MkAnn (Tensor [4] [3 # 2; 3 # 2; 1 # 2; 1 # 2]%Q) (Tensor [2; 3] (repeat false 6)))].

Definition sample_localization : M nat :=
  lerf_localization sample_relevance_given sample_filter2D sample_overlay
                    sample_relevance_2d sample_image (MkClipModel ["mug"; "bear"])
                    "out/frame_00001" sample_img_ann.

(** What the pass of [lerf_localization] for prompt [k] looks at, and
    whether it counts: the [k]-th label, its boxes, and the coordinates
    of the head selected on the smoothed relevance of prompt [k]. *)
Definition label_outcome (filter2D : tensor Q -> tensor Q -> tensor Q)
    (valid_map : tensor Q) (img_ann : list (string * ann)) (n_head : nat)
    (k : nat) (hit : bool) : Prop :=
  exists label a avg_filtered sel coord_final boxes,
    dict_keys img_ann !! k = Some label /\
    dict_get img_ann label = Some a /\
    smoothed filter2D valid_map k = Some avg_filtered /\
    select_head avg_filtered n_head = Some (sel, coord_final) /\
    reshape_rows4 (bboxes a) = Some boxes /\
    (hit = true <-> label_hit boxes coord_final).

(** The value and the state a run ends with; the default and the start
    state if it raises. *)
Definition result_of {A} (m : M A) (s : state) (d : A) : A * state :=
  match m s with
  | Some r => r
  | None => (d, s)
  end.

(** ** The annotation of one label, step by step *)

Section LabelEntries.

Variable polygon_to_mask : nat * nat -> list (list Q) -> tensor bool.
Variable stack_mask : tensor bool -> tensor bool -> tensor bool.
Variables h w : nat.

(** The entry of a label after one more object of that label: what
    [add_object] stores, given the entry [e] it finds. *)
Definition entry_step (e : option ann) (p : prompt_data) : option ann :=
  let box := reshape_flat (bbox p) in
  let mask0 := polygon_to_mask (h, w) (segmentation p) in
  match e with
  | Some a =>
      prev ← reshape_m1_4 (bboxes a);
      cur ← reshape_m1_4 box;
      both ← concatenate0 prev cur;
      Some (MkAnn both (stack_mask (mask a) mask0))
  | None => Some (MkAnn box mask0)
  end.

(** The entry after the objects [ps], all of one label; the outer [None]
    is an exception. *)
Fixpoint entry_fold (e : option ann) (ps : list prompt_data) : option (option ann) :=
  match ps with
  | [] => Some e
  | p :: r => e' ← entry_step e p; entry_fold (Some e') r
  end.

End LabelEntries.

(** The objects of a file that carry a label, in order. *)
Definition occurrences (label : string) (ps : list prompt_data) : list prompt_data :=
  filter (fun p => category p = label) ps.

(** A frame file with two boxes for one label and one for another. *)
Definition sample_polygon_to_mask (hw : nat * nat) (poly : list (list Q)) : tensor bool :=
  Tensor [hw.1; hw.2] (map (fun p => existsb (Qeq_bool (Qnat p)) (concat poly)) (seq 0 (hw.1 * hw.2))).

Definition sample_stack_mask (a b : tensor bool) : tensor bool :=
  Tensor (shape a) (zip_with orb (data a) (data b)).

Definition sample_gt : gt_data :=
  MkGtData 2 3 "frame_00042.jpg"
    [MkPromptData "mug" (Tensor [4] [0; 0; 1; 1]%Q) [[0; 1]%Q];
     MkPromptData "bear" (Tensor [2; 2] [1; 0; 2; 1]%Q) [[5]%Q];
     MkPromptData "mug" (Tensor [4] [2; 0; 2; 1]%Q) [[2]%Q]].

Definition sample_gt_run : M (list (string * list (string * ann)) * (nat * nat) * list string) :=
  eval_gt_lerfdata sample_polygon_to_mask sample_stack_mask
                   [sample_gt] ["gt/frame_00042.jpg"] "out".

(** Every character of a string satisfies a test. *)
Fixpoint all_chars (test : ascii -> bool) (s : string) : bool :=
  match s with
  | EmptyString => true
  | String a r => test a && all_chars test r
  end.

Definition is_digit (a : ascii) : bool :=
  match digit_of a with Some _ => true | None => false end.

(** The text with the given UTF-8 bytes. *)
Definition text_of_bytes (l : list nat) : string :=
  string_of_list_ascii (map ascii_of_nat l).

(** The rows whose mask bit is set, in order. *)
Fixpoint keep_rows {A} (m : list bool) (rows : list (list A)) : list (list A) :=
  match m, rows with
  | b :: m', r :: rows' => if b then r :: keep_rows m' rows' else keep_rows m' rows'
  | _, _ => []
  end.

(** A box given by its other pair of opposite corners. *)
Definition swap_corners (box : Q * Q * Q * Q) : Q * Q * Q * Q :=
  let '(x1, y1, x2, y2) := box in (x2, y2, x1, y1).

(** The directory that [evaluate] makes for the masks of a prompt and a
    level. *)
Definition mask_dir (output_path prompt : string) (i : nat) : string :=
  path_join_list output_path ["masks"; prompt; str_nat i].

(** * Properties *)

Local Open Scope list_scope.

(** ** Reasoning in the monad *)

Lemma bind_Some {A B} (m : M A) (k : A -> M B) s b s' :
  bind m k s = Some (b, s') <->
  exists a s1, m s = Some (a, s1) /\ k a s1 = Some (b, s').
Proof.
  unfold bind. split.
  - destruct (m s) as [[a s1]|] eqn:E; [|discriminate]. eauto.
  - intros (a & s1 & -> & H). exact H.
Qed.

Lemma lift_Some {A} (o : option A) s a s' :
  lift o s = Some (a, s') <-> o = Some a /\ s' = s.
Proof.
  unfold lift. destruct o; split; intros H; try discriminate.
  - injection H as -> ->. auto.
  - destruct H as [[= ->] ->]. reflexivity.
  - destruct H as [[=] _].
Qed.

Lemma ret_Some {A} (x : A) s a s' :
  ret x s = Some (a, s') <-> a = x /\ s' = s.
Proof. unfold ret. split; [intros [= -> ->]|intros [-> ->]]; auto. Qed.

Lemma emit_Some e s u s' :
  emit e s = Some (u, s') <-> s' = MkState (heap s) (dirs s) (log s ++ [e]).
Proof. unfold emit. destruct u. split; [intros [= <-]|intros ->]; auto. Qed.

Lemma deref_Some l s g s' :
  deref l s = Some (g, s') <-> heap s !! l = Some g /\ s' = s.
Proof. unfold deref. apply lift_Some. Qed.

(** Break a successful monadic run into its steps. *)
Ltac inv_run :=
  repeat match goal with
  | H : bind _ _ _ = Some _ |- _ =>
      apply bind_Some in H; destruct H as (? & ? & ? & H)
  | H : lift _ _ = Some _ |- _ => apply lift_Some in H; destruct H as [H ?]; subst
  | H : ret _ _ = Some _ |- _ => apply ret_Some in H; destruct H as [? ?]; subst
  | H : emit _ _ = Some _ |- _ => apply emit_Some in H; subst
  | H : deref _ _ = Some _ |- _ => apply deref_Some in H; destruct H as [H ?]; subst
  end.

(** A loop that runs to its end has run its body on every element, in
    order; [I] is an invariant of the state and [P x es] describes the
    events [es] that the body adds for [x]. *)
Lemma for_each_run {A} (I : state -> Prop) (P : A -> list event -> Prop)
    (body : A -> M unit) (l : list A) s s' :
  (forall x s1 s2, x ∈ l -> I s1 -> body x s1 = Some (tt, s2) ->
     I s2 /\ exists es, log s2 = log s1 ++ es /\ P x es) ->
  I s -> for_each l body s = Some (tt, s') ->
  I s' /\ exists ess, log s' = log s ++ concat ess /\ Forall2 P l ess.
Proof.
  revert s. induction l as [|x r IH]; intros s Hbody HI Hrun; simpl in Hrun.
  - apply ret_Some in Hrun as [_ ->]. split; [assumption|].
    exists []. simpl. rewrite app_nil_r. split; [reflexivity|constructor].
  - apply bind_Some in Hrun as ([] & s1 & Hx & Hr).
    destruct (Hbody x s s1) as (HI1 & es & Hlog & HP); [left|assumption..|].
    destruct (IH s1) as (HI' & ess & Hlog' & HF); [|assumption..|].
    { intros y t1 t2 Hy. apply Hbody. right. exact Hy. }
    split; [assumption|]. exists (es :: ess). simpl.
    rewrite Hlog', Hlog, <- app_assoc. split; [reflexivity|].
    constructor; assumption.
Qed.

(** A loop whose body succeeds from every state of the invariant runs to
    its end. *)
Lemma for_each_total {A} (I : state -> Prop) (body : A -> M unit) (l : list A) s :
  (forall x s1, x ∈ l -> I s1 -> exists s2, body x s1 = Some (tt, s2) /\ I s2) ->
  I s -> exists s', for_each l body s = Some (tt, s') /\ I s'.
Proof.
  revert s. induction l as [|x r IH]; intros s Hbody HI; simpl.
  - exists s. split; [reflexivity|assumption].
  - destruct (Hbody x s) as (s1 & Hx & HI1); [left|assumption|].
    destruct (IH s1) as (s' & Hr & HI'); [|assumption|].
    { intros y t1 Hy. apply Hbody. right. exact Hy. }
    exists s'. split; [|assumption].
    unfold bind. rewrite Hx. exact Hr.
Qed.

(** Reading the events of a nested loop back by index. *)
Lemma Forall2_seq_lookup {B} (P : nat -> B -> Prop) (n : nat) (l : list B) :
  Forall2 P (seq 0 n) l -> forall i, i < n -> exists b, l !! i = Some b /\ P i b.
Proof.
  intros HF i Hi.
  assert (Hs : seq 0 n !! i = Some i) by (apply lookup_seq; lia).
  destruct (Forall2_lookup_l _ _ _ _ _ HF Hs) as (b & Hb & HP). eauto.
Qed.

Lemma elem_of_concat_lookup {B} (ess : list (list B)) i es e :
  ess !! i = Some es -> e ∈ es -> e ∈ concat ess.
Proof.
  intros Hi He. apply list_elem_of_In, in_concat. exists es. split.
  - apply list_elem_of_In. eapply list_elem_of_lookup_2. exact Hi.
  - apply list_elem_of_In. exact He.
Qed.

(** ** Tensors and masks *)

Lemma Qgtb_spec (x c : Q) : Qgtb x c = true <-> (c < x)%Q.
Proof.
  unfold Qgtb. rewrite negb_true_iff, <- not_true_iff_false, Qle_bool_iff.
  split; [apply Qnot_le_lt|apply Qlt_not_le].
Qed.

Lemma Qgtb_false (x c : Q) : Qgtb x c = false <-> (x <= c)%Q.
Proof.
  unfold Qgtb. rewrite negb_false_iff. apply Qle_bool_iff.
Qed.

Lemma index_mask_Some {A} (t t' : tensor A) (m : tensor bool) :
  index_mask t m = Some t' ->
  take (length (shape m)) (shape t) = shape m /\
  shape t' = count_true (data m) :: drop (length (shape m)) (shape t) /\
  data t' = select_chunks (numel (drop (length (shape m)) (shape t))) (data m) (data t).
Proof.
  unfold index_mask. destruct (decide _) as [E|]; [|discriminate].
  intros [= <-]. auto.
Qed.


(** The bit of the mask at a position is set exactly when the relevance
    there exceeds the threshold. *)
Lemma tensor_gt_lookup (t : tensor Q) (c : Q) (p : nat) (x : Q) :
  data t !! p = Some x ->
  data (tensor_gt t c) !! p = Some (Qgtb x c).
Proof.
  intros H. simpl. rewrite list_lookup_fmap, H. reflexivity.
Qed.

Lemma select_chunks_length {A} (c : nat) (m : list bool) (d : list A) :
  length m * c <= length d ->
  length (select_chunks c m d) = count_true m * c.
Proof.
  revert d. induction m as [|b m IH]; intros d Hlen; simpl in *; [reflexivity|].
  rewrite length_app, IH by (rewrite length_drop; lia).
  destruct b; unfold count_true.
  - rewrite filter_cons_True by reflexivity. simpl. rewrite length_take. lia.
  - rewrite filter_cons_False by discriminate. simpl. lia.
Qed.

Lemma numel_app (a b : list nat) : numel (a ++ b) = numel a * numel b.
Proof.
  induction a as [|x a IH]; simpl; [lia|]. rewrite IH. lia.
Qed.

(** X3. Indexing by a mask keeps a tensor well formed. *)
Lemma index_mask_wf {A} (t t' : tensor A) (m : tensor bool) :
  wf_tensor t -> wf_tensor m -> index_mask t m = Some t' -> wf_tensor t'.
Proof.
  unfold wf_tensor. intros Ht Hm H.
  apply index_mask_Some in H as (Hp & Hs & Hd).
  rewrite Hs, Hd. simpl.
  assert (Hn : numel (shape t) =
               numel (shape m) * numel (drop (length (shape m)) (shape t))).
  { rewrite <- Hp at 1. rewrite <- numel_app, take_drop. reflexivity. }
  apply select_chunks_length. rewrite Hm, Ht, Hn. lia.
Qed.

(** ** The heap *)

Lemma assign_Some l upd s u s' :
  assign l upd s = Some (u, s') <->
  exists g g', heap s !! l = Some g /\ upd g = Some g' /\
               s' = MkState (<[l := g']> (heap s)) (dirs s) (log s).
Proof.
  unfold assign. destruct u. split.
  - intros H. inv_run. injection H as <-. eauto.
  - intros (g & g' & Hg & Hu & ->).
    apply bind_Some. exists g, s. split; [apply deref_Some; auto|].
    apply bind_Some. exists g', s. split; [apply lift_Some; auto|reflexivity].
Qed.

Lemma deepcopy_Some l s l' s' :
  deepcopy l s = Some (l', s') <->
  exists g, heap s !! l = Some g /\ l' = fresh (dom (heap s)) /\
            s' = MkState (<[l' := g]> (heap s)) (dirs s) (log s).
Proof.
  unfold deepcopy. split.
  - intros H. inv_run. injection H as <- <-. eauto.
  - intros (g & Hg & -> & ->).
    apply bind_Some. exists g, s. split; [apply deref_Some; auto|reflexivity].
Qed.

Lemma fresh_not_allocated (h : gmap loc GaussianModel) : h !! fresh (dom h) = None.
Proof. apply not_elem_of_dom, is_fresh. Qed.

(** The eight assignments replace the object at [tmp] by its masked
    version and touch nothing else. *)
Lemma mask_attributes_Some tmp m s s' g :
  heap s !! tmp = Some g ->
  mask_attributes tmp m s = Some (tt, s') ->
  exists g', masked_model g m = Some g' /\
             s' = MkState (<[tmp := g']> (heap s)) (dirs s) (log s).
Proof.
  intros Hg H. unfold mask_attributes in H.
  repeat match goal with
  | H : bind (assign _ _) _ _ = Some _ |- _ =>
      apply bind_Some in H; destruct H as ([] & ? & ?Ha & H)
  end.
  repeat match goal with
  | Ha : assign _ _ _ = Some _ |- _ =>
      apply assign_Some in Ha; destruct Ha as (? & ? & ?Hl & ?Hu & ->); simpl in *
  end.
  repeat match goal with
  | Hl : <[tmp := _]> _ !! tmp = Some _ |- _ =>
      rewrite lookup_insert_eq in Hl; injection Hl as <-
  end.
  match goal with
  | Hl : heap s !! tmp = Some ?x, Hu : context [?x] |- _ =>
      rewrite Hg in Hl; injection Hl as <-
  end.
  unfold masked_model.
  repeat match goal with
  | Hu : (index_mask ?t m ≫= _) = Some _ |- _ =>
      destruct (index_mask t m) eqn:?; simpl in Hu; [injection Hu as <-|discriminate Hu];
      simpl in *
  end.
  repeat match goal with
  | E : index_mask _ _ = Some _ |- _ => rewrite E; clear E; simpl
  end.
  eexists. split; [reflexivity|].
  rewrite !insert_insert_eq. reflexivity.
Qed.

(** ** activate_stream: one pass of the loop body *)

Section ActivateStreamFacts.

Variable colormap_saving : tensor Q -> option ColormapOptions -> tensor Q.
Variable get_max_across : ClipModel -> tensor Q -> tensor Q.

Variables (valid_map : tensor Q) (clip_model : ClipModel) (point_xyz : tensor Q).
Variables (output_path : string) (index : nat) (thresh : Q).
Variable colormap_options : option ColormapOptions.

Let body := fun generate_mask gaussians_list =>
    stream_body colormap_saving valid_map clip_model point_xyz output_path
                generate_mask index gaussians_list thresh colormap_options.

  (** The exclusion branch: a copy is allocated, masked and saved, and the
      masked points are written. *)
Lemma stream_body_exclusion generate_mask gl k i s s' :
    body generate_mask (Some gl) k i s = Some (tt, s') ->
    exists rel l g g' positive rgb points colors,
      relevance valid_map i k = Some rel /\
      gl !! i = Some l /\ heap s !! l = Some g /\
      masked_model g (exclusion_mask rel) = Some g' /\
      positives clip_model !! k = Some positive /\
      index_mask (colormap_saving (unsqueeze_last rel) colormap_options)
                 (exclusion_mask rel) = Some rgb /\
      reshape_rows3 rgb = Some colors /\
      index_mask point_xyz (exclusion_mask rel) = Some points /\
      s' = MkState (<[fresh (dom (heap s)) := g']> (heap s)) (dirs s)
             (log s ++ [SavePly (ply_path output_path positive i) g';
                        WritePointCloud (heatmap_path output_path positive i) points colors]).
  Proof.
    unfold body, stream_body. intros H. inv_run.
    repeat match goal with u : unit |- _ => destruct u end.
    match goal with
    | Hd : deepcopy _ _ = Some _ |- _ =>
        apply deepcopy_Some in Hd; destruct Hd as (g & Hg & -> & ->)
    end.
    match goal with
    | Hm : mask_attributes _ _ _ = Some _ |- _ =>
        eapply mask_attributes_Some in Hm as (g' & Hg' & ->);
          [|simpl; apply lookup_insert_eq]
    end.
    simpl in *.
    match goal with
    | Hl : <[_ := _]> _ !! _ = Some _ |- _ =>
        rewrite lookup_insert_eq in Hl; injection Hl as <-
    end.
    do 8 eexists. repeat (split; [eassumption|]).
    rewrite insert_insert_eq, <- app_assoc. reflexivity.
  Qed.

  (** The mask branch: one image, the thresholded relevance. *)
Lemma stream_body_mask k i s s' :
    body true None k i s = Some (tt, s') ->
    exists rel positive,
      relevance valid_map i k = Some rel /\
      positives clip_model !! k = Some positive /\
      s' = MkState (heap s) (dirs s)
             (log s ++ [SaveImage (mask_path output_path positive i index)
                                  (tensor_float (pixel_mask rel))]).
  Proof.
    unfold body, stream_body. intros H. inv_run. eauto.
  Qed.

  (** The remaining branch: every point, coloured by relevance. *)
Lemma stream_body_full k i s s' :
    body false None k i s = Some (tt, s') ->
    exists rel positive colors,
      relevance valid_map i k = Some rel /\
      positives clip_model !! k = Some positive /\
      reshape_rows3 (colormap_saving (unsqueeze_last rel) colormap_options) = Some colors /\
      s' = MkState (heap s) (dirs s)
             (log s ++ [WritePointCloud (heatmap_path output_path positive i)
                                        point_xyz colors]).
  Proof.
    unfold body, stream_body. intros H. inv_run. eauto 10.
  Qed.

End ActivateStreamFacts.

(** ** activate_stream: the whole run *)

Section ActivateStreamRun.

Variable colormap_saving : tensor Q -> option ColormapOptions -> tensor Q.
Variable get_max_across : ClipModel -> tensor Q -> tensor Q.

Variables (sem_map : tensor Q) (clip_model : ClipModel) (point_xyz : tensor Q).
Variables (output_path : string) (generate_mask : bool) (index : nat).
Variables (gaussians_list : option (list loc)) (thresh : Q).
Variable colormap_options : option ColormapOptions.

Let valid_map := get_max_across clip_model sem_map.
Let body :=
    stream_body colormap_saving valid_map clip_model point_xyz output_path
                generate_mask index gaussians_list thresh colormap_options.
Let run :=
    activate_stream colormap_saving get_max_across sem_map clip_model point_xyz
                    output_path generate_mask index gaussians_list thresh colormap_options.

  (** A run that returns has executed the body once for every prompt and
      head; the events it has added are those of the bodies, and nothing
      else. *)
Lemma activate_stream_events (I : state -> Prop) (P : nat -> nat -> list event -> Prop)
      n_head n_prompt h w s s' :
    shape valid_map = [n_head; n_prompt; h; w] ->
    (forall s1 d, I s1 -> I (MkState (heap s1) d (log s1))) ->
    (forall k i s1 s2, k < n_prompt -> i < n_head -> I s1 ->
       body k i s1 = Some (tt, s2) ->
       I s2 /\ exists es, log s2 = log s1 ++ es /\ P k i es) ->
    I s -> run s = Some (tt, s') ->
    I s' /\ exists new, log s' = log s ++ new /\
      (forall k i, k < n_prompt -> i < n_head ->
         exists es, P k i es /\ forall e, e ∈ es -> e ∈ new) /\
      (forall e, e ∈ new ->
         exists k i es, k < n_prompt /\ i < n_head /\ P k i es /\ e ∈ es).
  Proof.
    intros Hshape Hdirs Hbody HI Hrun.
    unfold run, activate_stream in Hrun. fold valid_map in Hrun.
    rewrite Hshape in Hrun. simpl in Hrun.
    apply bind_Some in Hrun as (dims & s0 & Hd & Hrun).
    apply lift_Some in Hd as [[= <-] ->].
    pose (PK := fun k (es : list event) =>
                  exists ess, es = concat ess /\ Forall2 (P k) (seq 0 n_head) ess).
    eapply (for_each_run I PK) in Hrun as (HI' & esss & Hlog & HF); [| |exact HI].
    - split; [exact HI'|]. exists (concat esss). split; [exact Hlog|]. split.
      + intros k i Hk Hi.
        destruct (Forall2_seq_lookup _ _ _ HF k Hk) as (es & Hes & ess & -> & HFi).
        destruct (Forall2_seq_lookup _ _ _ HFi i Hi) as (e1 & He1 & HP).
        exists e1. split; [exact HP|]. intros e He.
        eapply elem_of_concat_lookup; [exact Hes|].
        eapply elem_of_concat_lookup; [exact He1|exact He].
      + intros e He. apply list_elem_of_In, in_concat in He as (es & Hes & He).
        apply list_elem_of_In, list_elem_of_lookup in Hes as (k & Hk).
        destruct (Forall2_lookup_r _ _ _ _ _ HF Hk) as (k' & Hk' & ess & -> & HFi).
        apply lookup_seq in Hk' as [-> Hklt]. simpl in Hklt.
        apply in_concat in He as (e1 & He1 & He).
        apply list_elem_of_In, list_elem_of_lookup in He1 as (i & Hi).
        destruct (Forall2_lookup_r _ _ _ _ _ HFi Hi) as (i' & Hi' & HP).
        apply lookup_seq in Hi' as [-> Hilt]. simpl in Hilt.
        exists k, i, e1. repeat split; try assumption.
        apply list_elem_of_In. exact He.
    - intros k s1 s2 Hk HI1 Hstep.
      apply elem_of_seq in Hk as [_ Hk]. simpl in Hk.
      apply bind_Some in Hstep as ([] & s1' & Hdir & Hstep).
      assert (Hs1 : I s1' /\ log s1' = log s1).
      { unfold ensure_dir in Hdir. destruct (decide _).
        - injection Hdir as <-. auto.
        - injection Hdir as <-. simpl. split; [apply Hdirs; exact HI1|reflexivity]. }
      destruct Hs1 as [HI1' Hl1].
      eapply (for_each_run I (P k)) in Hstep as (HI2 & ess & Hlog & HF); [| |exact HI1'].
      + split; [exact HI2|]. exists (concat ess). rewrite Hlog, Hl1.
        split; [reflexivity|]. exists ess. auto.
      + intros i t1 t2 Hi Ht1 Hb.
        apply elem_of_seq in Hi as [_ Hi]. simpl in Hi.
        apply (Hbody k i t1 t2); assumption.
  Qed.

  (** A run returns when every pass of the body does. *)
Lemma activate_stream_total (I : state -> Prop) n_head n_prompt h w s :
    shape valid_map = [n_head; n_prompt; h; w] ->
    (forall s1 d, I s1 -> I (MkState (heap s1) d (log s1))) ->
    (forall k i s1, k < n_prompt -> i < n_head -> I s1 ->
       exists s2, body k i s1 = Some (tt, s2) /\ I s2) ->
    I s -> exists s', run s = Some (tt, s').
  Proof.
    intros Hshape Hdirs Hbody HI.
    unfold run, activate_stream. fold valid_map. rewrite Hshape. simpl.
    destruct (for_each_total I
      (fun k => bind (ensure_dir (path_join output_path "heatmap")) (fun _ =>
         for_each (seq 0 n_head) (fun i => body k i)))
      (seq 0 n_prompt) s) as (s' & Hrun & _); [|exact HI|].
    - intros k s1 Hk HI1. apply elem_of_seq in Hk as [_ Hk]. simpl in Hk.
      assert (Hd : exists s1', ensure_dir (path_join output_path "heatmap") s1
                               = Some (tt, s1') /\ I s1').
      { unfold ensure_dir. destruct (decide _); eauto. }
      destruct Hd as (s1' & Hd & HI1').
      destruct (for_each_total I (fun i => body k i) (seq 0 n_head) s1')
        as (s2 & Hin & HI2); [|exact HI1'|].
      + intros i t1 Hi Ht1. apply elem_of_seq in Hi as [_ Hi]. simpl in Hi.
        apply Hbody; assumption.
      + exists s2. split; [|exact HI2]. unfold bind. rewrite Hd. exact Hin.
    - exists s'. exact Hrun.
  Qed.

End ActivateStreamRun.

Lemma unpack4_Some (s : list nat) a b c d :
  unpack4 s = Some (a, b, c, d) <-> s = [a; b; c; d].
Proof.
  split.
  - destruct s as [|? [|? [|? [|? [|? ?]]]]]; simpl; try discriminate.
    intros [= -> -> -> ->]. reflexivity.
  - intros ->. reflexivity.
Qed.

Lemma relevance_Some (valid_map : tensor Q) n_head n_prompt h w i k :
  shape valid_map = [n_head; n_prompt; h; w] -> i < n_head -> k < n_prompt ->
  exists rel, relevance valid_map i k = Some rel /\ shape rel = [h; w].
Proof.
  intros Hs Hi Hk. unfold relevance, select0. rewrite Hs.
  rewrite decide_True by assumption. simpl.
  rewrite decide_True by assumption. eexists. split; reflexivity.
Qed.

Section ActivateStreamClaims.

Variable colormap_saving : tensor Q -> option ColormapOptions -> tensor Q.
Variable get_max_across : ClipModel -> tensor Q -> tensor Q.

  (** A run that returns had a four-dimensional relevance map. *)
Lemma activate_stream_shape sem_map clip_model point_xyz output_path generate_mask
      index gaussians_list thresh colormap_options s s' :
    activate_stream colormap_saving get_max_across sem_map clip_model point_xyz
      output_path generate_mask index gaussians_list thresh colormap_options s
      = Some (tt, s') ->
    exists n_head n_prompt h w,
      shape (get_max_across clip_model sem_map) = [n_head; n_prompt; h; w].
  Proof.
    unfold activate_stream. intros H.
    apply bind_Some in H as ([[[a b] c] d] & s0 & Hd & _).
    apply lift_Some in Hd as [Hd _]. apply unpack4_Some in Hd. eauto.
  Qed.

  (** One pass of the body only adds objects to the heap. *)
Lemma stream_body_heap valid_map clip_model point_xyz output_path generate_mask
      index gaussians_list thresh colormap_options k i s s' :
    stream_body colormap_saving valid_map clip_model point_xyz output_path
      generate_mask index gaussians_list thresh colormap_options k i s = Some (tt, s') ->
    heap s ⊆ heap s' /\ exists es, log s' = log s ++ es.
  Proof.
    intros H. destruct gaussians_list as [gl|]; [|destruct generate_mask].
    - apply stream_body_exclusion in H
        as (rel & l & g & g' & pos & rgb & pts & cols & _ & _ & _ & _ & _ & _ & _ & _ & ->).
      simpl. split; [|eauto].
      apply insert_subseteq, fresh_not_allocated.
    - apply stream_body_mask in H as (rel & pos & _ & _ & ->). simpl. eauto.
    - apply stream_body_full in H as (rel & pos & cols & _ & _ & _ & ->). simpl. eauto.
  Qed.

  (** C9. In the exclusion branch the masking works on a deep copy: when
      [activate_stream] returns, every model of [gaussians_list] is in the
      heap as it was before the call, with every attribute tensor (its
      contents and so its first dimension) unchanged. *)
Theorem exclusion_preserves_models sem_map clip_model point_xyz output_path
      generate_mask index gl thresh colormap_options s s' :
    activate_stream colormap_saving get_max_across sem_map clip_model point_xyz
      output_path generate_mask index (Some gl) thresh colormap_options s
      = Some (tt, s') ->
    forall i l g, gl !! i = Some l -> heap s !! l = Some g ->
      heap s' !! l = Some g /\
      (forall g', heap s' !! l = Some g' -> attributes g' = attributes g).
  Proof.
    intros Hrun i l g Hi Hl.
    destruct (activate_stream_shape _ _ _ _ _ _ _ _ _ _ _ Hrun)
      as (n_head & n_prompt & h & w & Hshape).
    eapply (activate_stream_events _ _ _ _ _ _ _ _ _ _ _
              (fun s1 => heap s ⊆ heap s1) (fun _ _ _ => True))
      in Hrun as [Hsub _]; [|exact Hshape|auto| |reflexivity].
    - assert (Hl' : heap s' !! l = Some g)
        by (eapply lookup_weaken; [exact Hl|exact Hsub]).
      split; [exact Hl'|]. intros g' Hg'. rewrite Hl' in Hg'.
      injection Hg' as <-. reflexivity.
    - intros k j s1 s2 _ _ Hs1 Hb. apply stream_body_heap in Hb as [Hh [es Hes]].
      split; [etrans; eassumption|]. exists es. auto.
  Qed.

End ActivateStreamClaims.

Lemma exclusion_preserves_models_witness :
  sample_run true (Some [0]) sample_state
    = Some (tt, final_state (sample_run true (Some [0])) sample_state) /\
  [0] !! 0 = Some 0 /\
  heap sample_state !! 0 = Some sample_gaussians /\
  heap (final_state (sample_run true (Some [0])) sample_state) !! 0 = Some sample_gaussians.
Proof.
  assert (Hrun : sample_run true (Some [0]) sample_state
                 = Some (tt, final_state (sample_run true (Some [0])) sample_state))
    by (vm_compute; reflexivity).
  assert (Hl : heap sample_state !! 0 = Some sample_gaussians) by reflexivity.
  split; [exact Hrun|]. split; [reflexivity|]. split; [exact Hl|].
  exact (proj1 (exclusion_preserves_models _ _ _ _ _ _ _ _ _ _ _ _ _ Hrun
                  0 0 sample_gaussians eq_refl Hl)).
Defined.

(** ** The two-dimensional masks *)

Lemma tensor_float_binary (m : tensor bool) :
  Forall (fun v : Q => v = 1%Q \/ v = 0%Q) (data (tensor_float m)).
Proof.
  simpl. apply Forall_fmap, Forall_forall. intros [] _; simpl; auto.
Qed.

Lemma pixel_mask_lookup (rel : tensor Q) (p : nat) (x : Q) :
  data rel !! p = Some x ->
  ((58 # 100 < x)%Q -> data (tensor_float (pixel_mask rel)) !! p = Some 1%Q) /\
  ((x <= 58 # 100)%Q -> data (tensor_float (pixel_mask rel)) !! p = Some 0%Q).
Proof.
  intros Hx. simpl. rewrite !list_lookup_fmap, Hx. simpl. split; intros H.
  - apply Qgtb_spec in H. rewrite H. reflexivity.
  - apply Qgtb_false in H. rewrite H. reflexivity.
Qed.

Section MaskMode.

Variable colormap_saving : tensor Q -> option ColormapOptions -> tensor Q.
Variable get_max_across : ClipModel -> tensor Q -> tensor Q.

Variables (sem_map : tensor Q) (clip_model : ClipModel) (point_xyz : tensor Q).
Variables (output_path : string) (index : nat) (thresh : Q).
Variable colormap_options : option ColormapOptions.

Let valid_map := get_max_across clip_model sem_map.

  (** In mask mode the run returns as soon as the relevance map has four
      dimensions and every prompt has a name. *)
Lemma activate_stream_mask_total n_head n_prompt h w s :
    shape valid_map = [n_head; n_prompt; h; w] ->
    n_prompt <= length (positives clip_model) ->
    exists s',
      activate_stream colormap_saving get_max_across sem_map clip_model point_xyz
        output_path true index None thresh colormap_options s = Some (tt, s').
  Proof.
    intros Hshape Hpos.
    apply (activate_stream_total _ _ _ _ _ _ _ _ _ _ _ (fun _ => True)
             n_head n_prompt h w); [exact Hshape|auto| |exact Logic.I].
    intros k i s1 Hk Hi _.
    destruct (relevance_Some _ _ _ _ _ _ _ Hshape Hi Hk) as (rel & Hrel & _).
    destruct (lookup_lt_is_Some_2 (positives clip_model) k) as [pos Hp]; [lia|].
    eexists. split; [|exact Logic.I].
    unfold stream_body. fold valid_map. unfold bind, lift. rewrite Hrel, Hp. reflexivity.
  Qed.

  (** C2. In mask mode (no list of Gaussians, [generate_mask] set) the
      run returns, and for every head, prompt and pixel the image passed
      to [save_image] is 1 where the relevance exceeds 0.58 and 0
      elsewhere; the run saves nothing but these binary images. *)
Theorem mask_mode_saves_binary_masks n_head n_prompt h w s :
    shape valid_map = [n_head; n_prompt; h; w] ->
    n_prompt <= length (positives clip_model) ->
    exists s' new,
      activate_stream colormap_saving get_max_across sem_map clip_model point_xyz
        output_path true index None thresh colormap_options s = Some (tt, s') /\
      log s' = log s ++ new /\
      (forall k i, k < n_prompt -> i < n_head ->
         exists rel positive img,
           relevance valid_map i k = Some rel /\
           positives clip_model !! k = Some positive /\
           SaveImage (mask_path output_path positive i index) img ∈ new /\
           shape img = shape rel /\
           length (data img) = length (data rel) /\
           forall p x, data rel !! p = Some x ->
             ((58 # 100 < x)%Q -> data img !! p = Some 1%Q) /\
             ((x <= 58 # 100)%Q -> data img !! p = Some 0%Q)) /\
      (forall e, e ∈ new ->
         exists path img, e = SaveImage path img /\
           Forall (fun v : Q => v = 1%Q \/ v = 0%Q) (data img)).
  Proof.
    intros Hshape Hpos.
    destruct (activate_stream_mask_total _ _ _ _ s Hshape Hpos) as (s' & Hrun).
    exists s'.
    pose (P := fun k i (es : list event) =>
      exists rel positive,
        relevance valid_map i k = Some rel /\
        positives clip_model !! k = Some positive /\
        es = [SaveImage (mask_path output_path positive i index)
                        (tensor_float (pixel_mask rel))]).
    pose proof Hrun as Hev.
    eapply (activate_stream_events _ _ _ _ _ _ _ _ _ _ _ (fun _ => True) P)
      in Hev as (_ & new & Hlog & Hall & Honly);
      [|exact Hshape|auto| |exact Logic.I].
    - exists new. split; [exact Hrun|]. split; [exact Hlog|]. split.
      + intros k i Hk Hi.
        destruct (Hall k i Hk Hi) as (es & (rel & pos & Hrel & Hp & ->) & Hin).
        exists rel, pos, (tensor_float (pixel_mask rel)).
        repeat split; try assumption.
        * apply Hin. left.
        * simpl. rewrite !length_map. reflexivity.
        * apply pixel_mask_lookup. assumption.
        * apply pixel_mask_lookup. assumption.
      + intros e He.
        destruct (Honly e He) as (k & i & es & _ & _ & (rel & pos & _ & _ & ->) & Hin).
        apply list_elem_of_singleton in Hin as ->.
        do 2 eexists. split; [reflexivity|]. apply tensor_float_binary.
    - intros k i s1 s2 _ _ _ Hb.
      apply stream_body_mask in Hb as (rel & pos & Hrel & Hp & ->). simpl.
      split; [exact Logic.I|]. eexists. split; [reflexivity|].
      exists rel, pos. auto.
  Qed.

End MaskMode.

Lemma mask_mode_saves_binary_masks_witness :
  shape (sample_relevance_given sample_clip sample_valid_map) = [1; 1; 3; 1] /\
  1 <= length (positives sample_clip) /\
  exists s' new,
    sample_run true None sample_state = Some (tt, s') /\
    log s' = log sample_state ++ new /\
    SaveImage "out/scene/masks/apple/0/0.png" (Tensor [3; 1] [1; 0; 1]%Q) ∈ new.
Proof.
  split; [reflexivity|]. split; [simpl; lia|].
  destruct (mask_mode_saves_binary_masks sample_colormap sample_relevance_given
              sample_valid_map sample_clip sample_point_xyz "out/scene" 0 (1 # 2) None
              1 1 3 1 sample_state eq_refl (le_n 1))
    as (s' & new & Hrun & Hlog & Hall & _).
  exists s', new. split; [exact Hrun|]. split; [exact Hlog|].
  destruct (Hall 0 0 (le_n 1) (le_n 1))
    as (rel & pos & img & Hrel & Hp & Hin & Hs & Hlen & Hpix).
  injection Hrel as <-. injection Hp as <-.
  assert (Himg : img = Tensor [3; 1] [1; 0; 1]%Q).
  { destruct img as [sh d]. simpl in *. subst sh. f_equal.
    pose proof (proj1 (Hpix 0 (9 # 10)%Q eq_refl) eq_refl) as H0.
    pose proof (proj2 (Hpix 1 (3 # 10)%Q eq_refl)) as H1.
    pose proof (proj1 (Hpix 2 (7 # 10)%Q eq_refl) eq_refl) as H2.
    destruct d as [|a [|b [|c [|? ?]]]]; try discriminate Hlen.
    injection H0 as ->. injection (H1 ltac:(discriminate)) as ->.
    injection H2 as ->. reflexivity. }
  rewrite <- Himg. exact Hin.
Defined.

(** ** The exclusion of Gaussians *)


Lemma exclusion_mask_shape (rel : tensor Q) (h : nat) :
  shape rel = [h; 1] -> h <> 1 -> shape (exclusion_mask rel) = [h].
Proof.
  intros Hs Hh. simpl. rewrite Hs.
  rewrite filter_cons_True by assumption.
  rewrite filter_cons_False by (intros H; apply H; reflexivity).
  reflexivity.
Qed.


(** Masking a model indexes each of its attributes by the mask. *)
Lemma masked_model_attributes (g g' : GaussianModel) (m : tensor bool) :
  masked_model g m = Some g' <->
  Forall2 (fun t t' => index_mask t m = Some t') (attributes g) (attributes g').
Proof.
  unfold masked_model, attributes. split.
  - intros H.
    repeat match type of H with
    | (index_mask ?t m ≫= _) = Some _ =>
        destruct (index_mask t m) eqn:?; simpl in H; [|discriminate H]
    end.
    injection H as <-. simpl. repeat constructor; assumption.
  - intros H.
    repeat match goal with
    | H : Forall2 _ (_ :: _) (_ :: _) |- _ =>
        apply Forall2_cons_1 in H; destruct H as [?E H]
    end.
    repeat match goal with
    | E : index_mask _ m = Some _ |- _ => rewrite E; clear E; simpl
    end.
    destruct g'. reflexivity.
Qed.




Section ExclusionMode.

Variable colormap_saving : tensor Q -> option ColormapOptions -> tensor Q.
Variable get_max_across : ClipModel -> tensor Q -> tensor Q.

Variables (sem_map : tensor Q) (clip_model : ClipModel) (point_xyz : tensor Q).
Variables (output_path : string) (generate_mask : bool) (index : nat).
Variables (gl : list loc) (thresh : Q).
Variable colormap_options : option ColormapOptions.

Let valid_map := get_max_across clip_model sem_map.
Let run :=
    activate_stream colormap_saving get_max_across sem_map clip_model point_xyz
      output_path generate_mask index (Some gl) thresh colormap_options.

  (** What one pass of the exclusion branch, for prompt [k] and head [i],
      adds to the log when the models are those of heap [h0]. *)
Let pass (h0 : gmap loc GaussianModel) (k i : nat) (es : list event) : Prop :=
    exists rel l g g' positive rgb points colors,
      relevance valid_map i k = Some rel /\
      gl !! i = Some l /\ (forall g0, h0 !! l = Some g0 -> g0 = g) /\
      masked_model g (exclusion_mask rel) = Some g' /\
      positives clip_model !! k = Some positive /\
      index_mask (colormap_saving (unsqueeze_last rel) colormap_options)
                 (exclusion_mask rel) = Some rgb /\
      reshape_rows3 rgb = Some colors /\
      index_mask point_xyz (exclusion_mask rel) = Some points /\
      es = [SavePly (ply_path output_path positive i) g';
            WritePointCloud (heatmap_path output_path positive i) points colors].




End ExclusionMode.

Lemma sample_colormap_shape (t : tensor Q) (o : option ColormapOptions) (sh : list nat) :
  shape t = sh ++ [1] -> shape (sample_colormap t o) = sh ++ [3].
Proof.
  intros H. simpl. rewrite H, removelast_last. reflexivity.
Qed.


(** ** The unused threshold and the choice of branch *)

Section Branches.

Variable colormap_saving : tensor Q -> option ColormapOptions -> tensor Q.
Variable get_max_across : ClipModel -> tensor Q -> tensor Q.
Variable decode : string -> list nat -> list nat -> tensor Q -> option (tensor Q).
Variable load_features : list string -> option (list Q).

  (** C6. The threshold has no effect: [activate_stream] behaves the same
      for any two values of [thresh], and so does [evaluate] for any two
      values of [mask_thresh], which it only forwards as [thresh]. *)
Theorem thresh_has_no_effect (thresh1 thresh2 : Q) :
    (forall sem_map clip_model point_xyz output_path generate_mask index
            gaussians_list colormap_options,
       activate_stream colormap_saving get_max_across sem_map clip_model point_xyz
         output_path generate_mask index gaussians_list thresh1 colormap_options
       = activate_stream colormap_saving get_max_across sem_map clip_model point_xyz
           output_path generate_mask index gaussians_list thresh2 colormap_options) /\
    (forall feat_dir output_path ae_ckpt_path generate_mask encoder_hidden_dims
            decoder_hidden_dims compressed_sem_feats point_xyz gaussians_list,
       evaluate colormap_saving get_max_across decode load_features feat_dir output_path
         ae_ckpt_path generate_mask thresh1 encoder_hidden_dims decoder_hidden_dims
         compressed_sem_feats point_xyz gaussians_list
       = evaluate colormap_saving get_max_across decode load_features feat_dir output_path
           ae_ckpt_path generate_mask thresh2 encoder_hidden_dims decoder_hidden_dims
           compressed_sem_feats point_xyz gaussians_list).
  Proof.
    split; intros; reflexivity.
  Qed.

Variables (sem_map : tensor Q) (clip_model : ClipModel) (point_xyz : tensor Q).
Variables (output_path : string) (index : nat) (thresh : Q).
Variable colormap_options : option ColormapOptions.

Let valid_map := get_max_across clip_model sem_map.

  (** C7. Each pass for a prompt and a head takes exactly one branch.  With
      a list of Gaussians it is the exclusion branch, whatever
      [generate_mask] is: a masked model and the masked points are
      written.  Without a list, [generate_mask] selects between the binary
      mask image and the cloud of all the points of [point_xyz].  A run
      that returns has made one such pass for every prompt and head and
      has written nothing else. *)
Theorem activate_stream_takes_one_branch generate_mask gaussians_list
      n_head n_prompt h w s s' :
    shape valid_map = [n_head; n_prompt; h; w] ->
    activate_stream colormap_saving get_max_across sem_map clip_model point_xyz
      output_path generate_mask index gaussians_list thresh colormap_options s
      = Some (tt, s') ->
    let pass := fun k i (es : list event) =>
      exists rel positive, relevance valid_map i k = Some rel /\
        positives clip_model !! k = Some positive /\
        match gaussians_list with
        | Some gl =>
            exists g' points colors,
              index_mask point_xyz (exclusion_mask rel) = Some points /\
              es = [SavePly (ply_path output_path positive i) g';
                    WritePointCloud (heatmap_path output_path positive i) points colors]
        | None =>
            if generate_mask
            then es = [SaveImage (mask_path output_path positive i index)
                                 (tensor_float (pixel_mask rel))]
            else exists colors,
                   es = [WritePointCloud (heatmap_path output_path positive i)
                                         point_xyz colors]
        end in
    exists new, log s' = log s ++ new /\
      (forall k i, k < n_prompt -> i < n_head ->
         exists es, pass k i es /\ forall e, e ∈ es -> e ∈ new) /\
      (forall e, e ∈ new ->
         exists k i es, k < n_prompt /\ i < n_head /\ pass k i es /\ e ∈ es).
  Proof.
    intros Hshape Hrun pass.
    eapply (activate_stream_events _ _ _ _ _ _ _ _ _ _ _ (fun _ => True) pass)
      in Hrun as (_ & Hnew); [exact Hnew|exact Hshape|auto| |exact Logic.I].
    intros k i s1 s2 _ _ _ Hb. split; [exact Logic.I|].
    unfold pass. fold valid_map in Hb.
    destruct gaussians_list as [gl|]; [|destruct generate_mask].
    - apply stream_body_exclusion in Hb
        as (rel & l & g & g' & pos & rgb & pts & cols & H1 & _ & _ & _ & H5 & _ & _ & H8 & ->).
      simpl. eexists. split; [reflexivity|]. exists rel, pos. eauto 10.
    - apply stream_body_mask in Hb as (rel & pos & H1 & H2 & ->).
      simpl. eexists. split; [reflexivity|]. exists rel, pos. auto.
    - apply stream_body_full in Hb as (rel & pos & cols & H1 & H2 & _ & ->).
      simpl. eexists. split; [reflexivity|]. exists rel, pos. eauto.
  Qed.

End Branches.

Lemma activate_stream_takes_one_branch_witness :
  exists new,
    log (final_state (sample_run false None) sample_state) = log sample_state ++ new /\
    exists colors,
      WritePointCloud "out/scene/heatmap/sceneexclude_apple_0.ply" sample_point_xyz colors
        ∈ new.
Proof.
  assert (Hrun : sample_run false None sample_state
                 = Some (tt, final_state (sample_run false None) sample_state))
    by (vm_compute; reflexivity).
  destruct (activate_stream_takes_one_branch sample_colormap sample_relevance_given
              sample_valid_map sample_clip sample_point_xyz "out/scene" 0 (1 # 2) None
              false None 1 1 3 1 sample_state _ eq_refl Hrun)
    as (new & Hlog & Hall & _).
  exists new. split; [exact Hlog|].
  destruct (Hall 0 0 (le_n 1) (le_n 1)) as (es & (rel & pos & _ & Hp & cols & ->) & Hin).
  injection Hp as <-. exists cols. apply Hin. left.
Defined.

(** ** The events of a run, branch by branch *)

Section BranchEvents.

Variable colormap_saving : tensor Q -> option ColormapOptions -> tensor Q.
Variable get_max_across : ClipModel -> tensor Q -> tensor Q.

Variables (sem_map : tensor Q) (clip_model : ClipModel) (point_xyz : tensor Q).
Variables (output_path : string) (index : nat) (thresh : Q).
Variable colormap_options : option ColormapOptions.

Let valid_map := get_max_across clip_model sem_map.

Lemma activate_stream_branch_events generate_mask gaussians_list
    n_head n_prompt h w s s' :
  shape valid_map = [n_head; n_prompt; h; w] ->
  activate_stream colormap_saving get_max_across sem_map clip_model point_xyz
    output_path generate_mask index gaussians_list thresh colormap_options s
    = Some (tt, s') ->
  let pass := fun k i (es : list event) =>
    exists rel positive, relevance valid_map i k = Some rel /\
      positives clip_model !! k = Some positive /\
      match gaussians_list with
      | Some gl =>
          exists g' points colors,
            index_mask point_xyz (exclusion_mask rel) = Some points /\
            es = [SavePly (ply_path output_path positive i) g';
                  WritePointCloud (heatmap_path output_path positive i) points colors]
      | None =>
          if generate_mask
          then es = [SaveImage (mask_path output_path positive i index)
                               (tensor_float (pixel_mask rel))]
          else exists colors,
                 reshape_rows3 (colormap_saving (unsqueeze_last rel) colormap_options)
                   = Some colors /\
                 es = [WritePointCloud (heatmap_path output_path positive i)
                                       point_xyz colors]
      end in
  (forall l g, heap s !! l = Some g -> heap s' !! l = Some g) /\
  (gaussians_list = None -> heap s' = heap s) /\
  exists new, log s' = log s ++ new /\
    (forall k i, k < n_prompt -> i < n_head ->
       exists es, pass k i es /\ forall e, e ∈ es -> e ∈ new) /\
    (forall e, e ∈ new ->
       exists k i es, k < n_prompt /\ i < n_head /\ pass k i es /\ e ∈ es).
Proof.
  intros Hshape Hrun pass.
  eapply (activate_stream_events _ _ _ _ _ _ _ _ _ _ _
            (fun s1 => heap s ⊆ heap s1 /\ (gaussians_list = None -> heap s1 = heap s))
            pass)
    in Hrun as ([Hsub Hsame] & Hnew);
    [|exact Hshape|auto| |split; [reflexivity|auto]].
  - split; [|split; [exact Hsame|exact Hnew]].
    intros l g Hl. eapply lookup_weaken; eassumption.
  - intros k i s1 s2 _ _ [Hsub Hsame] Hb.
    fold valid_map in Hb. unfold pass.
    destruct gaussians_list as [gl|]; [|destruct generate_mask].
    + pose proof Hb as Hb'. apply stream_body_heap in Hb' as [Hh _].
      apply stream_body_exclusion in Hb
        as (rel & l & g & g' & pos & rgb & pts & cols & H1 & _ & _ & _ & H5 & _ & _ & H8 & ->).
      split; [split; [etrans; eassumption|discriminate]|].
      simpl. eexists. split; [reflexivity|]. exists rel, pos. eauto 10.
    + apply stream_body_mask in Hb as (rel & pos & H1 & H2 & ->).
      split; [split; [exact Hsub|exact Hsame]|].
      simpl. eexists. split; [reflexivity|]. exists rel, pos. auto.
    + apply stream_body_full in Hb as (rel & pos & cols & H1 & H2 & H3 & ->).
      split; [split; [exact Hsub|exact Hsame]|].
      simpl. eexists. split; [reflexivity|]. exists rel, pos. eauto.
Qed.

End BranchEvents.

(** ** evaluate: decoding the features *)

Lemma select1_Some {A} (t : tensor A) a b s j :
  shape t = a :: b :: s -> j < b ->
  exists t', select1 t j = Some t' /\ shape t' = a :: s.
Proof.
  intros Hs Hj. unfold select1. rewrite Hs, decide_True by assumption.
  eexists. split; reflexivity.
Qed.

(** X6. A feature tensor without elements cannot be viewed back: the inferred
    dimension is ambiguous and torch raises. *)
Lemma restore_feat_empty (decoder : tensor Q -> option (tensor Q)) sem_feat lvl h w c :
  shape sem_feat = [lvl; h; w; c] -> lvl * h * w = 0 ->
  restore_feat decoder sem_feat = None.
Proof.
  intros Hs H0. unfold restore_feat, flatten_0_2. rewrite Hs. simpl.
  destruct (decoder _); simpl; [|reflexivity].
  unfold view_infer_last. rewrite decide_True by assumption. reflexivity.
Qed.

(** C8. For every frame [j] of the compressed features of shape
    [(lvl, n, h, w, c)], the frame has shape [(lvl, h, w, c)]; it is
    flattened to [(lvl*h*w, c)], decoded, and viewed back, so that the
    restored features have shape [(lvl, h, w, d)] with [d] the output
    width of the decoder, and hold the decoder's output. *)
Theorem decoding_preserves_leading_shape (decoder : tensor Q -> option (tensor Q))
    (compressed_sem_feats : tensor Q) (lvl n h w c d j : nat) :
  shape compressed_sem_feats = [lvl; n; h; w; c] -> j < n -> lvl * h * w <> 0 ->
  (forall t b, shape t = [b; c] -> exists out, decoder t = Some out /\ shape out = [b; d]) ->
  exists sem_feat flat out restored_feat,
    select1 compressed_sem_feats j = Some sem_feat /\
    shape sem_feat = [lvl; h; w; c] /\
    flatten_0_2 sem_feat = Some flat /\
    shape flat = [lvl * h * w; c] /\ data flat = data sem_feat /\
    decoder flat = Some out /\
    restore_feat decoder sem_feat = Some restored_feat /\
    shape restored_feat = [lvl; h; w; d] /\
    data restored_feat = data out /\
    (wf_tensor out -> wf_tensor restored_feat).
Proof.
  intros Hs Hj Hne Hdec.
  destruct (select1_Some compressed_sem_feats _ _ _ j Hs Hj) as (sem_feat & Hsel & Hss).
  destruct (Hdec (Tensor [lvl * h * w; c] (data sem_feat)) (lvl * h * w) eq_refl)
    as (out & Hout & Hos).
  assert (Hn : numel (shape out) = d * (lvl * h * w)) by (rewrite Hos; simpl; lia).
  exists sem_feat, (Tensor [lvl * h * w; c] (data sem_feat)), out,
         (Tensor [lvl; h; w; d] (data out)).
  split; [exact Hsel|]. split; [exact Hss|].
  assert (Hflat : flatten_0_2 sem_feat = Some (Tensor [lvl * h * w; c] (data sem_feat)))
    by (unfold flatten_0_2; rewrite Hss; reflexivity).
  split; [exact Hflat|]. split; [reflexivity|]. split; [reflexivity|].
  split; [exact Hout|]. split.
  - unfold restore_feat. rewrite Hss. simpl. rewrite Hflat. simpl. rewrite Hout. simpl.
    unfold view_infer_last. rewrite decide_False by assumption.
    rewrite Hn, Nat.Div0.mod_mul, decide_True by reflexivity.
    rewrite Nat.div_mul by assumption. reflexivity.
  - split; [reflexivity|]. split; [reflexivity|].
    unfold wf_tensor. simpl. rewrite Hn. intros ->. lia.
Qed.

Lemma sample_decode_shape (t : tensor Q) (b : nat) :
  shape t = [b; 3] -> exists out, sample_decode t = Some out /\ shape out = [b; 2].
Proof.
  intros H. unfold sample_decode. rewrite H. eexists. split; reflexivity.
Qed.

Lemma decoding_preserves_leading_shape_witness :
  exists sem_feat restored_feat,
    select1 sample_compressed 0 = Some sem_feat /\
    restore_feat sample_decode sem_feat = Some restored_feat /\
    shape restored_feat = [1; 3; 1; 2].
Proof.
  destruct (decoding_preserves_leading_shape sample_decode sample_compressed
              1 1 3 1 3 2 0 eq_refl (le_n 1) ltac:(discriminate) sample_decode_shape)
    as (sem_feat & flat & out & restored & H1 & _ & _ & _ & _ & _ & H2 & H3 & _).
  exists sem_feat, restored. auto.
Defined.

(** ** evaluate: what is written *)

Lemma concat_all_nil {A B} (l : list A) (ess : list (list B)) :
  Forall2 (fun _ es => es = []) l ess -> concat ess = [].
Proof.
  induction 1 as [|x es r ess' -> _ IH]; simpl; auto.
Qed.

Lemma makedirs_loop_log {A B} (l : list A) (l2 : list B) (f : A -> B -> string) s s' :
  for_each l (fun x => for_each l2 (fun i => makedirs_exist_ok (f x i))) s = Some (tt, s') ->
  log s' = log s /\ heap s' = heap s.
Proof.
  intros H.
  eapply (for_each_run (fun s1 => heap s1 = heap s) (fun _ es => es = [])) in H
    as (Hh & ess & Hlog & HF); [| |reflexivity].
  - split; [|exact Hh]. rewrite Hlog.
    rewrite (concat_all_nil _ _ HF). apply app_nil_r.
  - intros x s1 s2 _ Hs1 Hin.
    eapply (for_each_run (fun t => heap t = heap s) (fun _ es => es = [])) in Hin
      as (Hh & ess & Hlog & HF); [| |exact Hs1].
    + split; [exact Hh|]. exists []. split; [|reflexivity].
      rewrite Hlog. f_equal. apply (concat_all_nil _ _ HF).
    + intros i t1 t2 _ Ht1 Hm. unfold makedirs_exist_ok in Hm. injection Hm as <-.
      simpl. split; [exact Ht1|]. exists []. rewrite app_nil_r. auto.
Qed.

Lemma reported_app (a b : list event) : reported (a ++ b) = reported a ++ reported b.
Proof. apply omap_app. Qed.

Lemma reported_file_writes (l : list event) :
  Forall is_file_write l -> reported l = [].
Proof.
  induction 1 as [|e l He _ IH]; [reflexivity|].
  unfold reported in *. destruct e; simpl in *; try contradiction; exact IH.
Qed.

Lemma Forall2_concat_Forall {A B} (Q : B -> Prop) (P : A -> list B -> Prop)
    (l : list A) (ess : list (list B)) :
  (forall x es, x ∈ l -> P x es -> Forall Q es) ->
  Forall2 P l ess -> Forall Q (concat ess).
Proof.
  intros HP HF. induction HF as [|x es r ess' Hx _ IH]; simpl; [constructor|].
  apply Forall_app. split.
  - apply (HP x es); [left|exact Hx].
  - apply IH. intros y es' Hy. apply HP. right. exact Hy.
Qed.

Lemma Forall2_concat_length {A B} (c : nat) (P : A -> list B -> Prop)
    (l : list A) (ess : list (list B)) :
  (forall x es, x ∈ l -> P x es -> length es = c) ->
  Forall2 P l ess -> length (concat ess) = length l * c.
Proof.
  intros HP HF. induction HF as [|x es r ess' Hx _ IH]; simpl; [reflexivity|].
  rewrite length_app, (HP x es); [|left|exact Hx].
  rewrite IH; [reflexivity|]. intros y es' Hy. apply HP. right. exact Hy.
Qed.

(** What holds of the events of every pass holds of all the events. *)
Lemma per_prompt_and_head_Forall (Q : event -> Prop) (P : nat -> nat -> list event -> Prop)
    n_prompt n_head es :
  (forall k i es1, k < n_prompt -> i < n_head -> P k i es1 -> Forall Q es1) ->
  per_prompt_and_head P n_prompt n_head es -> Forall Q es.
Proof.
  intros HP (groups & -> & HF).
  eapply (Forall2_concat_Forall Q
            (fun k es => exists row, es = concat row /\
                           Forall2 (P k) (seq 0 n_head) row)
            (seq 0 n_prompt)).
  - intros k es Hk (row & -> & Hrow).
    apply elem_of_seq in Hk as [_ Hk]. simpl in Hk.
    eapply Forall2_concat_Forall; [|exact Hrow].
    intros i es1 Hi Hp. apply elem_of_seq in Hi as [_ Hi]. simpl in Hi.
    exact (HP k i es1 Hk Hi Hp).
  - apply Forall2_fmap_r. eapply Forall2_impl; [exact HF|].
    intros k row Hrow. exists row. auto.
Qed.

(** When every pass writes [c] events there are [n_prompt * n_head * c]
    of them. *)
Lemma per_prompt_and_head_length (c : nat) (P : nat -> nat -> list event -> Prop)
    n_prompt n_head es :
  (forall k i es1, P k i es1 -> length es1 = c) ->
  per_prompt_and_head P n_prompt n_head es -> length es = n_prompt * (n_head * c).
Proof.
  intros HP (groups & -> & HF).
  rewrite (Forall2_concat_length (n_head * c)
             (fun (_ : nat) es => length es = n_head * c)
             (seq 0 n_prompt) (map (@concat event) groups)).
  - rewrite length_seq. reflexivity.
  - auto.
  - apply Forall2_fmap_r. eapply Forall2_impl; [exact HF|].
    intros k row Hrow.
    pose proof (Forall2_concat_length c (P k) (seq 0 n_head) row) as H.
    rewrite length_seq in H. apply H; [eauto|exact Hrow].
Qed.

Section EvaluateFacts.

Variable colormap_saving : tensor Q -> option ColormapOptions -> tensor Q.
Variable get_max_across : ClipModel -> tensor Q -> tensor Q.
Variable decode : string -> list nat -> list nat -> tensor Q -> option (tensor Q).
Variable load_features : list string -> option (list Q).

(** The events of a run of [activate_stream], pass by pass. *)
Lemma activate_stream_passes sem_map clip_model point_xyz output_path generate_mask
    index gaussians_list thresh colormap_options n_head n_prompt h w s s' :
  shape (get_max_across clip_model sem_map) = [n_head; n_prompt; h; w] ->
  activate_stream colormap_saving get_max_across sem_map clip_model point_xyz
    output_path generate_mask index gaussians_list thresh colormap_options s
    = Some (tt, s') ->
  exists new, log s' = log s ++ new /\
    per_prompt_and_head
      (pass_writes colormap_saving (get_max_across clip_model sem_map)
         (positives clip_model) point_xyz output_path generate_mask index
         gaussians_list colormap_options)
      n_prompt n_head new.
Proof.
  intros Hshape Hrun. unfold activate_stream in Hrun.
  rewrite Hshape in Hrun. simpl in Hrun.
  apply bind_Some in Hrun as (dims & s0 & Hd & Hrun).
  apply lift_Some in Hd as [[= <-] ->].
  set (P := pass_writes colormap_saving (get_max_across clip_model sem_map)
              (positives clip_model) point_xyz output_path generate_mask index
              gaussians_list colormap_options).
  eapply (for_each_run (fun _ => True)
            (fun k es => exists row, es = concat row /\
                           Forall2 (P k) (seq 0 n_head) row)) in Hrun
    as (_ & esk & Hlog & HF); [| |exact Logic.I].
  - exists (concat esk). split; [exact Hlog|].
    unfold per_prompt_and_head. clear Hlog.
    revert HF. generalize (seq 0 n_prompt). intros l HF.
    induction HF as [|k es r esk' (row & -> & Hrow) _ (groups & Hg & HG)].
    + exists []. split; [reflexivity|constructor].
    + exists (row :: groups). split; [simpl; rewrite Hg; reflexivity|].
      constructor; assumption.
  - intros k s1 s2 _ _ Hstep. split; [exact Logic.I|].
    apply bind_Some in Hstep as ([] & s1' & Hdir & Hstep).
    assert (Hl1 : log s1' = log s1).
    { unfold ensure_dir in Hdir. destruct (decide _); injection Hdir as <-; reflexivity. }
    eapply (for_each_run (fun _ => True) (P k)) in Hstep
      as (_ & row & Hlog & HF); [| |exact Logic.I].
    + exists (concat row). rewrite Hlog, Hl1. split; [reflexivity|]. exists row. auto.
    + intros i t1 t2 _ _ Hb. split; [exact Logic.I|]. unfold P, pass_writes.
      destruct gaussians_list as [gl|]; [|destruct generate_mask].
      * apply stream_body_exclusion in Hb
          as (rel & l & g & g' & pos & rgb & pts & cols
              & Hrel & _ & _ & Hg' & Hpos & Hrgb & Hcols & Hpts & ->).
        eexists. split; [reflexivity|]. exists rel, pos.
        split; [exact Hrel|]. split; [exact Hpos|].
        exists g, g', rgb, pts, cols. auto.
      * apply stream_body_mask in Hb as (rel & pos & Hrel & Hpos & ->).
        eexists. split; [reflexivity|]. exists rel, pos. auto.
      * apply stream_body_full in Hb as (rel & pos & cols & Hrel & Hpos & Hcols & ->).
        eexists. split; [reflexivity|]. exists rel, pos.
        split; [exact Hrel|]. split; [exact Hpos|]. exists cols. auto.
Qed.

(** Every pass writes files only, and in mask mode one binary image. *)
Lemma pass_writes_files valid_map positives point_xyz output_path generate_mask index
    gaussians_list colormap_options k i es :
  pass_writes colormap_saving valid_map positives point_xyz output_path generate_mask
    index gaussians_list colormap_options k i es ->
  Forall is_file_write es /\
  (gaussians_list = None -> generate_mask = true ->
   length es = 1 /\ Forall binary_image es).
Proof.
  intros (rel & pos & _ & _ & H).
  destruct gaussians_list as [gl|]; [|destruct generate_mask].
  - destruct H as (g & g' & rgb & pts & cols & _ & _ & _ & _ & ->).
    split; [repeat constructor|discriminate].
  - subst es. split; [repeat constructor|]. intros _ _. split; [reflexivity|].
    repeat constructor. do 2 eexists. split; [reflexivity|]. apply tensor_float_binary.
  - destruct H as (cols & _ & ->). split; [repeat constructor|discriminate].
Qed.

(** The events of a run of [evaluate], frame by frame. *)
Lemma evaluate_frames feat_dir output_path ae_ckpt_path generate_mask
    mask_thresh encoder_hidden_dims decoder_hidden_dims compressed_sem_feats
    point_xyz gaussians_list s s' :
  evaluate colormap_saving get_max_across decode load_features feat_dir output_path
    ae_ckpt_path generate_mask mask_thresh encoder_hidden_dims decoder_hidden_dims
    compressed_sem_feats point_xyz gaussians_list s = Some (tt, s') ->
  exists feats n_frames frames,
    match gaussians_list, generate_mask with
    | None, true =>
        exists d, load_features feat_dir = Some d /\
                  feats = Tensor [length feat_dir; 177; 730; 988; 3] d
    | _, _ => feats = compressed_sem_feats
    end /\
    shape feats !! 1 = Some n_frames /\
    log s' = log s ++ concat frames /\
    Forall2 (frame_writes colormap_saving get_max_across
               (decode ae_ckpt_path encoder_hidden_dims decoder_hidden_dims)
               feats point_xyz output_path generate_mask gaussians_list)
            (seq 0 n_frames) frames.
Proof.
  intros Hrun. unfold evaluate in Hrun.
  apply bind_Some in Hrun as (feats & s0 & Hfeats & Hrun).
  assert (Hs0 : s0 = s /\
                match gaussians_list, generate_mask with
                | None, true =>
                    exists d, load_features feat_dir = Some d /\
                              feats = Tensor [length feat_dir; 177; 730; 988; 3] d
                | _, _ => feats = compressed_sem_feats
                end).
  { destruct gaussians_list; [|destruct generate_mask]; inv_run; eauto. }
  destruct Hs0 as [-> Hfeats']. clear Hfeats.
  apply bind_Some in Hrun as (n_frames & s0 & Hn & Hrun).
  apply lift_Some in Hn as [Hn ->].
  exists feats, n_frames.
  eapply (for_each_run (fun _ => True)
            (frame_writes colormap_saving get_max_across
               (decode ae_ckpt_path encoder_hidden_dims decoder_hidden_dims)
               feats point_xyz output_path generate_mask gaussians_list)) in Hrun
    as (_ & frames & Hlog & HF); [| |exact Logic.I].
  - exists frames. auto.
  - intros j s1 s2 _ _ Hb. split; [exact Logic.I|].
    apply bind_Some in Hb as (sem_feat & t1 & Hsel & Hb).
    apply lift_Some in Hsel as [Hsel ->].
    apply bind_Some in Hb as (restored & t1 & Hres & Hb).
    apply lift_Some in Hres as [Hres ->].
    apply bind_Some in Hb as ([] & t1 & Hdirs & Hb).
    assert (Ht1 : log t1 = log s1).
    { destruct generate_mask.
      - apply makedirs_loop_log in Hdirs as [H _]. exact H.
      - apply ret_Some in Hdirs as [_ ->]. reflexivity. }
    destruct (activate_stream_shape _ _ _ _ _ _ _ _ _ _ _ _ _ Hb)
      as (n_head & n_prompt & h & w & Hshape).
    destruct (activate_stream_passes _ _ _ _ _ _ _ _ _ _ _ _ _ _ _ Hshape Hb)
      as (new & Hlog & Hpasses).
    exists new. rewrite Hlog, Ht1. split; [reflexivity|].
    exists sem_feat, restored, n_head, n_prompt, h, w. auto.
Qed.

(** What holds of the events of every pass holds of all the events of
    the frames. *)
Lemma frames_Forall (Q : event -> Prop) decoder feats point_xyz output_path generate_mask
    gaussians_list (l : list nat) (frames : list (list event)) :
  (forall valid_map j k i es,
     pass_writes colormap_saving valid_map img_ann_prompts point_xyz output_path
       generate_mask j gaussians_list
       (Some (MkColormapOptions "turbo" true (-1) 1)) k i es ->
     Forall Q es) ->
  Forall2 (frame_writes colormap_saving get_max_across decoder feats point_xyz
             output_path generate_mask gaussians_list) l frames ->
  Forall Q (concat frames).
Proof.
  intros HQ HF. eapply Forall2_concat_Forall; [|exact HF].
  intros j es _ (sem_feat & restored & n_head & n_prompt & h & w & _ & _ & _ & Hp).
  eapply per_prompt_and_head_Forall; [|exact Hp].
  intros k i es1 _ _. apply HQ.
Qed.

(** C3, as the code has it.  [evaluate] computes and reports no
    intersection over union.  A run that returns has gone through the
    frames of the features in order (the 177 frames of the loaded
    features in mask mode) and, in every frame, through every prompt and
    head of the relevance map; every pass has written its files and
    nothing else: in mask mode one binary mask image, with a list of
    Gaussians a masked model and its point cloud, and otherwise the full
    point cloud.  Nothing is logged. *)
Theorem evaluate_only_writes_files feat_dir output_path ae_ckpt_path generate_mask
    mask_thresh encoder_hidden_dims decoder_hidden_dims compressed_sem_feats
    point_xyz gaussians_list s s' :
  evaluate colormap_saving get_max_across decode load_features feat_dir output_path
    ae_ckpt_path generate_mask mask_thresh encoder_hidden_dims decoder_hidden_dims
    compressed_sem_feats point_xyz gaussians_list s = Some (tt, s') ->
  exists feats n_frames frames,
    shape feats !! 1 = Some n_frames /\
    log s' = log s ++ concat frames /\
    Forall2 (frame_writes colormap_saving get_max_across
               (decode ae_ckpt_path encoder_hidden_dims decoder_hidden_dims)
               feats point_xyz output_path generate_mask gaussians_list)
            (seq 0 n_frames) frames /\
    Forall is_file_write (concat frames) /\
    reported (log s') = reported (log s) /\
    match gaussians_list, generate_mask with
    | None, true =>
        (exists d, load_features feat_dir = Some d /\
                   feats = Tensor [length feat_dir; 177; 730; 988; 3] d) /\
        n_frames = 177 /\
        Forall binary_image (concat frames)
    | _, _ => feats = compressed_sem_feats
    end.
Proof.
  intros Hrun.
  apply evaluate_frames in Hrun as (feats & n_frames & frames & Hfeats & Hn & Hlog & HF).
  exists feats, n_frames, frames.
  assert (Hall : forall (Q : event -> Prop),
            (forall valid_map j k i es,
               pass_writes colormap_saving valid_map img_ann_prompts point_xyz output_path
                 generate_mask j gaussians_list
                 (Some (MkColormapOptions "turbo" true (-1) 1)) k i es ->
               Forall Q es) ->
            Forall Q (concat frames))
    by (intros Q HQ; eapply frames_Forall; [exact HQ|exact HF]).
  assert (HA : Forall is_file_write (concat frames)).
  { apply Hall. intros valid_map j k i es Hp. apply pass_writes_files in Hp as [H _].
    exact H. }
  split; [exact Hn|]. split; [exact Hlog|]. split; [exact HF|]. split; [exact HA|].
  split.
  - rewrite Hlog, reported_app, (reported_file_writes _ HA). apply app_nil_r.
  - destruct gaussians_list as [gl|]; [exact Hfeats|].
    destruct generate_mask; [|exact Hfeats].
    split; [exact Hfeats|].
    destruct Hfeats as (d & _ & ->). simpl in Hn. injection Hn as <-.
    split; [reflexivity|].
    apply Hall. intros valid_map j k i es Hp.
    apply pass_writes_files in Hp as [_ H]. apply H; reflexivity.
Qed.

End EvaluateFacts.

(** ** evaluate: a run in mask mode *)

Lemma bind_returns {A B} (m : M A) (k : A -> M B) s a s1 :
  m s = Some (a, s1) -> (exists r, k a s1 = Some r) -> exists r, bind m k s = Some r.
Proof.
  intros Hm [r Hk]. exists r. unfold bind. rewrite Hm. exact Hk.
Qed.

Lemma returns_unit (m : M unit) s :
  (exists r, m s = Some r) -> exists s2, m s = Some (tt, s2) /\ True.
Proof.
  intros [[[] s2] H]. exists s2. auto.
Qed.

Lemma makedirs_loop_returns {A B} (l : list A) (l2 : list B) (f : A -> B -> string) s :
  exists s',
    for_each l (fun x => for_each l2 (fun i => makedirs_exist_ok (f x i))) s
    = Some (tt, s').
Proof.
  destruct (for_each_total (fun _ => True)
              (fun x => for_each l2 (fun i => makedirs_exist_ok (f x i))) l s)
    as (s' & Hrun & _); [|exact Logic.I|eauto].
  intros x s1 _ _.
  destruct (for_each_total (fun _ => True) (fun i => makedirs_exist_ok (f x i)) l2 s1)
    as (s2 & Hrun & _); [|exact Logic.I|eauto].
  intros i t1 _ _. eexists. split; [reflexivity|exact Logic.I].
Qed.

(** Decoding a frame with elements, by a decoder that keeps the rows. *)
Lemma restore_feat_Some (decoder : tensor Q -> option (tensor Q)) sem_feat lvl h w c
    out d :
  shape sem_feat = [lvl; h; w; c] -> lvl * h * w <> 0 ->
  decoder (Tensor [lvl * h * w; c] (data sem_feat)) = Some out ->
  shape out = [lvl * h * w; d] ->
  restore_feat decoder sem_feat = Some (Tensor [lvl; h; w; d] (data out)).
Proof.
  intros Hs Hne Hout Hos.
  assert (Hn : numel (shape out) = d * (lvl * h * w)).
  { rewrite Hos. unfold numel. cbn [fold_right]. lia. }
  unfold restore_feat, flatten_0_2. rewrite Hs. cbn [unpack4 mbind option_bind].
  rewrite Hout. cbn [mbind option_bind].
  unfold view_infer_last. rewrite decide_False by assumption.
  rewrite Hn, Nat.Div0.mod_mul, decide_True by reflexivity.
  rewrite Nat.div_mul by assumption. reflexivity.
Qed.

(** The restored features have the leading shape of the frame. *)
Lemma restore_feat_shape (decoder : tensor Q -> option (tensor Q)) sem_feat restored
    lvl h w c :
  shape sem_feat = [lvl; h; w; c] ->
  restore_feat decoder sem_feat = Some restored ->
  exists d, shape restored = [lvl; h; w; d].
Proof.
  intros Hs. unfold restore_feat, flatten_0_2. rewrite Hs.
  cbn [unpack4 mbind option_bind].
  destruct (decoder _) as [out|]; [|discriminate]. cbn [mbind option_bind].
  unfold view_infer_last.
  destruct (decide (lvl * h * w = 0)); [discriminate|].
  destruct (decide _); [|discriminate].
  intros [= <-]. eexists. reflexivity.
Qed.

Section EvaluateMaskMode.

Variable colormap_saving : tensor Q -> option ColormapOptions -> tensor Q.
Variable get_max_across : ClipModel -> tensor Q -> tensor Q.
Variable decode : string -> list nat -> list nat -> tensor Q -> option (tensor Q).
Variable load_features : list string -> option (list Q).

(** In mask mode [evaluate] returns when the features load, there is a
    level, the decoder keeps the rows and the relevance map has four
    dimensions and no more prompts than were set. *)
Lemma evaluate_mask_returns feat_dir output_path ae_ckpt_path mask_thresh
    encoder_hidden_dims decoder_hidden_dims compressed_sem_feats point_xyz s :
  is_Some (load_features feat_dir) ->
  feat_dir <> [] ->
  (forall t, shape t = [length feat_dir * 730 * 988; 3] ->
     exists out d,
       decode ae_ckpt_path encoder_hidden_dims decoder_hidden_dims t = Some out /\
       shape out = [length feat_dir * 730 * 988; d]) ->
  (forall restored d, shape restored = [length feat_dir; 730; 988; d] ->
     exists n_head n_prompt h w,
       shape (get_max_across (MkClipModel img_ann_prompts) restored)
         = [n_head; n_prompt; h; w] /\
       n_prompt <= length img_ann_prompts) ->
  exists s',
    evaluate colormap_saving get_max_across decode load_features feat_dir output_path
      ae_ckpt_path true mask_thresh encoder_hidden_dims decoder_hidden_dims
      compressed_sem_feats point_xyz None s = Some (tt, s').
Proof.
  intros [d Hd] Hne Hdec Hmax.
  assert (Hlen : length feat_dir * 730 * 988 <> 0).
  { destruct feat_dir; [contradiction|]. cbn [length]. lia. }
  cut (exists r,
         evaluate colormap_saving get_max_across decode load_features feat_dir output_path
           ae_ckpt_path true mask_thresh encoder_hidden_dims decoder_hidden_dims
           compressed_sem_feats point_xyz None s = Some r).
  { intros [[[] s'] H]. exists s'. exact H. }
  unfold evaluate.
  eapply bind_returns.
  { eapply bind_Some. exists d, s. split; [apply lift_Some; auto|reflexivity]. }
  eapply bind_returns; [apply lift_Some; split; reflexivity|].
  cbv beta.
  match goal with
  | |- exists r, for_each ?l ?b ?s0 = Some r =>
      destruct (for_each_total (fun _ : state => True) b l s0) as (s' & Hrun & _);
        [|exact Logic.I|exists (tt, s'); exact Hrun]
  end.
  intros j s1 Hj _. apply elem_of_seq in Hj as [_ Hj]. cbn [Nat.add] in Hj.
  apply returns_unit. cbv beta.
  destruct (select1_Some (Tensor [length feat_dir; 177; 730; 988; 3] d)
              (length feat_dir) 177 [730; 988; 3] j eq_refl Hj)
    as (sem_feat & Hsel & Hss).
  eapply bind_returns; [apply lift_Some; split; [exact Hsel|reflexivity]|].
  destruct (Hdec (Tensor [length feat_dir * 730 * 988; 3] (data sem_feat)) eq_refl)
    as (out & dd & Hout & Hos).
  eapply bind_returns.
  { apply lift_Some. split; [|reflexivity].
    exact (restore_feat_Some _ _ _ _ _ _ _ _ Hss Hlen Hout Hos). }
  destruct (makedirs_loop_returns img_ann_prompts (seq 0 (length feat_dir))
              (fun folder_name i =>
                 path_join_list output_path ["masks"; folder_name; str_nat i]) s1)
    as (t1 & Hdirs).
  eapply bind_returns; [exact Hdirs|].
  destruct (Hmax (Tensor [length feat_dir; 730; 988; dd] (data out)) dd eq_refl)
    as (n_head & n_prompt & h & w & Hshape & Hle).
  destruct (activate_stream_mask_total colormap_saving get_max_across
              (Tensor [length feat_dir; 730; 988; dd] (data out))
              (MkClipModel img_ann_prompts) point_xyz output_path j mask_thresh
              (Some (MkColormapOptions "turbo" true (-1) 1))
              n_head n_prompt h w t1 Hshape Hle) as (s2 & Hrun).
  eexists. exact Hrun.
Qed.

End EvaluateMaskMode.

Lemma sample_get_max_across_shape (clip_model : ClipModel) (t : tensor Q) lvl h w d :
  shape t = [lvl; h; w; d] ->
  shape (sample_get_max_across clip_model t)
  = [lvl; length (positives clip_model); h; w].
Proof.
  intros H. unfold sample_get_max_across. rewrite H. reflexivity.
Qed.

(** A run of the sample in mask mode: one level of features without
    files. *)
Lemma sample_mask_run :
  exists s',
    evaluate sample_colormap sample_get_max_across sample_autoencoder sample_features
      ["feat/scene_1"] "out/scene" "ckpt/best_ckpt.pth" true (4 # 10)
      [256; 128; 64; 32; 3] [16; 32; 64; 128; 256; 256; 512]
      sample_compressed sample_point_xyz None sample_state = Some (tt, s').
Proof.
  apply evaluate_mask_returns.
  - eexists. reflexivity.
  - discriminate.
  - intros t Ht. destruct (sample_decode_shape t _ Ht) as (out & Hout & Hs).
    exists out, 2. auto.
  - intros restored d Hs. exists (length ["feat/scene_1"]), 14, 730, 988.
    split; [|apply le_n].
    apply (sample_get_max_across_shape (MkClipModel img_ann_prompts) _ _ _ _ _ Hs).
Qed.

(** C3, as the claim states it, fails.  In mask mode, on one level of
    features, [evaluate] returns after 177 frames of fourteen prompts and
    one head: it has written 177 * 14 mask images and nothing else, and no
    score is reported. *)
Lemma evaluate_reports_no_iou :
  exists s',
    evaluate sample_colormap sample_get_max_across sample_autoencoder sample_features
      ["feat/scene_1"] "out/scene" "ckpt/best_ckpt.pth" true (4 # 10)
      [256; 128; 64; 32; 3] [16; 32; 64; 128; 256; 256; 512]
      sample_compressed sample_point_xyz None sample_state = Some (tt, s') /\
    length (log s') = 177 * 14 /\
    Forall binary_image (log s') /\
    ~ (exists msg, LogInfo msg ∈ log s').
Proof.
  destruct sample_mask_run as [s' Hrun]. exists s'. split; [exact Hrun|].
  apply evaluate_frames in Hrun
    as (feats & n_frames & frames & (d & _ & ->) & Hn & Hlog & HF).
  cbn [shape] in Hn. injection Hn as <-.
  change (log sample_state ++ concat frames) with (concat frames) in Hlog.
  rewrite Hlog.
  assert (Hbin : Forall binary_image (concat frames)).
  { eapply frames_Forall; [|exact HF].
    intros valid_map j k i es Hp.
    apply pass_writes_files in Hp as [_ H]. apply H; reflexivity. }
  split; [|split; [exact Hbin|]].
  - assert (HL : length (concat frames) = length (seq 0 177) * (14 * (1 * 1))).
    2: { rewrite HL, length_seq. reflexivity. }
    eapply Forall2_concat_length; [|exact HF].
    intros j es Hj (sem_feat & restored & n_head & n_prompt & h & w
                      & Hsel & Hres & Hshape & Hp).
    apply elem_of_seq in Hj as [_ Hj]. cbn [Nat.add] in Hj.
    destruct (select1_Some (Tensor [length ["feat/scene_1"]; 177; 730; 988; 3] d)
                _ _ _ j eq_refl Hj) as (t' & Ht' & Hss).
    rewrite Hsel in Ht'. injection Ht' as <-.
    destruct (restore_feat_shape _ _ _ _ _ _ _ Hss Hres) as (dd & Hrs).
    rewrite (sample_get_max_across_shape _ _ _ _ _ _ Hrs) in Hshape.
    injection Hshape as <- <- <- <-.
    eapply (per_prompt_and_head_length 1); [|exact Hp].
    intros k i es1 Hes1. apply pass_writes_files in Hes1 as [_ H].
    apply H; reflexivity.
  - intros [msg Hin]. rewrite Forall_forall in Hbin.
    destruct (Hbin _ Hin) as (path & img & Heq & _). discriminate Heq.
Qed.

Lemma evaluate_only_writes_files_witness :
  exists s' frames,
    evaluate sample_colormap sample_get_max_across sample_autoencoder sample_features
      ["feat/scene_1"] "out/scene" "ckpt/best_ckpt.pth" true (4 # 10)
      [256; 128; 64; 32; 3] [16; 32; 64; 128; 256; 256; 512]
      sample_compressed sample_point_xyz None sample_state = Some (tt, s') /\
    log s' = concat frames /\ length frames = 177 /\
    Forall binary_image (concat frames) /\
    reported (log s') = [].
Proof.
  destruct sample_mask_run as [s' Hrun].
  destruct (evaluate_only_writes_files
              sample_colormap sample_get_max_across sample_autoencoder sample_features
              ["feat/scene_1"] "out/scene" "ckpt/best_ckpt.pth" true (4 # 10)
              [256; 128; 64; 32; 3] [16; 32; 64; 128; 256; 256; 512]
              sample_compressed sample_point_xyz None sample_state s' Hrun)
    as (feats & n_frames & frames & _ & Hlog & HF & _ & Hrep & _ & Hn & Hbin).
  exists s', frames. split; [exact Hrun|]. split; [exact Hlog|]. split.
  - apply Forall2_length in HF. rewrite length_seq in HF. rewrite <- HF. exact Hn.
  - split; [exact Hbin|exact Hrep].
Defined.

(** ** lerf_localization: scoring against the boxes *)

Lemma py_min_le (a b v : Q) : (py_min a b <= v)%Q <-> (Qmin a b <= v)%Q.
Proof.
  rewrite Q.min_le_iff. unfold py_min.
  destruct (Qgtb a b) eqn:E.
  - apply Qgtb_spec in E. split; [auto|]. intros [H|H]; [|exact H].
    apply Qlt_le_weak. eapply Qlt_le_trans; eassumption.
  - apply Qgtb_false in E. split; [auto|]. intros [H|H]; [exact H|].
    eapply Qle_trans; eassumption.
Qed.

Lemma py_max_ge (a b v : Q) : (v <= py_max a b)%Q <-> (v <= Qmax a b)%Q.
Proof.
  rewrite Q.max_le_iff. unfold py_max.
  destruct (Qgtb b a) eqn:E.
  - apply Qgtb_spec in E. split; [auto|]. intros [H|H]; [|exact H].
    apply Qlt_le_weak. eapply Qle_lt_trans; eassumption.
  - apply Qgtb_false in E. split; [auto|]. intros [H|H]; [exact H|].
    eapply Qle_trans; eassumption.
Qed.

(** The test of one coordinate against one box. *)
Lemma in_box_true x1 y1 x2 y2 cord :
  in_box (py_min x1 x2) (py_max x1 x2) (py_min y1 y2) (py_max y1 y2) cord = Some true <->
  exists x y, cord !! 0 = Some x /\ cord !! 1 = Some y /\
              box_contains (x1, y1, x2, y2) x y.
Proof.
  unfold in_box, box_contains. split.
  - destruct (cord !! 0) as [x|] eqn:E0; simpl; [|discriminate].
    destruct (Qle_bool (py_min x1 x2) (Qnat x) && Qle_bool (Qnat x) (py_max x1 x2))%bool
      eqn:Ex; [|discriminate].
    destruct (cord !! 1) as [y|] eqn:E1; simpl; [|discriminate].
    intros [= Ey]. exists x, y.
    apply andb_true_iff in Ex as [A B]. apply andb_true_iff in Ey as [C D].
    rewrite Qle_bool_iff in A, B, C, D.
    rewrite py_min_le in A, C. rewrite py_max_ge in B, D. auto 10.
  - intros (x & y & -> & -> & A & B & C & D). simpl.
    rewrite <- py_min_le in A, C. rewrite <- py_max_ge in B, D.
    rewrite <- Qle_bool_iff in A, B, C, D. rewrite A, B, C, D. reflexivity.
Qed.

Lemma in_box_total x_min x_max y_min y_max cord :
  2 <= length cord -> exists b, in_box x_min x_max y_min y_max cord = Some b.
Proof.
  intros H. destruct cord as [|x [|y r]]; simpl in H; try lia.
  unfold in_box. simpl. destruct (_ && _)%bool; eauto.
Qed.

(** The loop over the coordinates: it stops at the first coordinate in
    the box and counts it once. *)
Lemma scan_coords_spec x1 y1 x2 y2 coord_final acc_num acc' flag :
  scan_coords (py_min x1 x2) (py_max x1 x2) (py_min y1 y2) (py_max y1 y2)
              coord_final acc_num = Some (acc', flag) ->
  (flag = true /\ acc' = acc_num + 1 /\
   exists cord x y, cord ∈ coord_final /\ cord !! 0 = Some x /\ cord !! 1 = Some y /\
                    box_contains (x1, y1, x2, y2) x y) \/
  (flag = false /\ acc' = acc_num /\
   forall cord x y, cord ∈ coord_final -> cord !! 0 = Some x -> cord !! 1 = Some y ->
                    ~ box_contains (x1, y1, x2, y2) x y).
Proof.
  induction coord_final as [|cord r IH]; simpl.
  - intros [= <- <-]. right. split; [reflexivity|]. split; [reflexivity|].
    intros cord x y Hin. inversion Hin.
  - destruct (in_box _ _ _ _ cord) as [[|]|] eqn:E; [| |discriminate].
    + intros [= <- <-]. left. split; [reflexivity|]. split; [reflexivity|].
      apply in_box_true in E as (x & y & H0 & H1 & Hc).
      exists cord, x, y. split; [left|auto].
    + intros H. destruct (IH H) as [(-> & -> & c & x & y & Hin & Hr)|(-> & -> & Hno)].
      * left. split; [reflexivity|]. split; [reflexivity|].
        exists c, x, y. split; [right; exact Hin|exact Hr].
      * right. split; [reflexivity|]. split; [reflexivity|].
        intros c x y Hin H0 H1 Hc.
        apply elem_of_cons in Hin as [->|Hin]; [|eapply Hno; eassumption].
        assert (in_box (py_min x1 x2) (py_max x1 x2) (py_min y1 y2) (py_max y1 y2) cord
                = Some true) by (apply in_box_true; eauto).
        congruence.
Qed.

(** The loop over the boxes of one label: the counter goes up by one when
    some candidate coordinate lies in some box, and stays otherwise. *)
Lemma scan_boxes_spec boxes coord_final acc_num acc' :
  scan_boxes boxes coord_final acc_num = Some acc' ->
  (label_hit boxes coord_final /\ acc' = acc_num + 1) \/
  (~ label_hit boxes coord_final /\ acc' = acc_num).
Proof.
  induction boxes as [|[[[x1 y1] x2] y2] r IH]; simpl.
  - intros [= <-]. right. split; [|reflexivity].
    intros (box & c & x & y & Hin & _). inversion Hin.
  - destruct (scan_coords _ _ _ _ coord_final acc_num) as [[a flag]|] eqn:E; [|discriminate].
    apply scan_coords_spec in E
      as [(-> & -> & c & x & y & Hin & H0 & H1 & Hc)|(-> & -> & Hno)].
    + intros [= <-]. left. split; [|reflexivity].
      exists (x1, y1, x2, y2), c, x, y. split; [left|auto].
    + intros H. destruct (IH H) as [[(box & c & x & y & Hb & Hr) ->]|[Hn ->]].
      * left. split; [|reflexivity]. exists box, c, x, y. split; [right; exact Hb|exact Hr].
      * right. split; [|reflexivity].
        intros (box & c & x & y & Hb & Hin & H0 & H1 & Hc).
        apply elem_of_cons in Hb as [->|Hb].
        -- eapply Hno; eassumption.
        -- apply Hn. exists box, c, x, y. auto.
Qed.

Lemma scan_coords_total x_min x_max y_min y_max coord_final acc_num :
  Forall (fun cord => 2 <= length cord) coord_final ->
  exists res, scan_coords x_min x_max y_min y_max coord_final acc_num = Some res.
Proof.
  induction 1 as [|cord r Hc _ IH]; simpl; [eauto|].
  destruct (in_box_total x_min x_max y_min y_max cord Hc) as [[|] ->]; eauto.
Qed.

Lemma scan_boxes_total boxes coord_final acc_num :
  Forall (fun cord => 2 <= length cord) coord_final ->
  exists acc', scan_boxes boxes coord_final acc_num = Some acc'.
Proof.
  intros Hc. revert acc_num.
  induction boxes as [|[[[x1 y1] x2] y2] r IH]; intros acc_num; simpl; [eauto|].
  destruct (scan_coords_total (py_min x1 x2) (py_max x1 x2) (py_min y1 y2) (py_max y1 y2)
              coord_final acc_num Hc) as [[a [|]] ->]; eauto.
Qed.

(** Containment does not depend on which corners span the box. *)
Lemma box_contains_corner_order x1 y1 x2 y2 x y :
  (box_contains (x1, y1, x2, y2) x y <-> box_contains (x2, y2, x1, y1) x y) /\
  (box_contains (x1, y1, x2, y2) x y <-> box_contains (x1, y2, x2, y1) x y).
Proof.
  unfold box_contains.
  rewrite !Q.min_le_iff, !Q.max_le_iff. tauto.
Qed.

(** ** lerf_localization: the maximum, its positions and the best head *)








(** ** Flat indexing *)










(** ** lerf_localization: the selected head and its coordinates *)


Section HeadSelection.

Variable avg_filtered : tensor Q.




End HeadSelection.

(** ** lerf_localization: the smoothing kernel *)




Section Smoothing.

Variable filter2D : tensor Q -> tensor Q -> tensor Q.

(** OpenCV: the output has the size and the channels of the source. *)
Hypothesis filter2D_same_size : forall src kernel,
  wf_tensor src ->
  shape (filter2D src kernel) = shape src /\ wf_tensor (filter2D src kernel).



End Smoothing.



(** ** lerf_localization: the whole run *)

Lemma count_true_cons (b : bool) (l : list bool) :
  count_true (b :: l) = (if b then 1 else 0) + count_true l.
Proof.
  unfold count_true. destruct b.
  - rewrite filter_cons_True by reflexivity. reflexivity.
  - rewrite filter_cons_False by discriminate. reflexivity.
Qed.

Lemma count_true_le (l : list bool) : count_true l <= length l.
Proof. apply length_filter. Qed.

Section LocalizationRun.

Variable get_max_across : ClipModel -> tensor Q -> tensor Q.
Variable filter2D : tensor Q -> tensor Q -> tensor Q.
Variable compose_overlay : tensor Q -> tensor Q -> tensor Q -> option (tensor Q).

Variables (valid_map image : tensor Q) (image_name : string).
Variable img_ann : list (string * ann).
Variable n_head : nat.

Let outcome := label_outcome filter2D valid_map img_ann n_head.

Lemma localize_prompt_Some k acc_num acc' s s' :
  localize_prompt filter2D compose_overlay valid_map image image_name img_ann n_head
                  (dict_keys img_ann) k acc_num s = Some (acc', s') ->
  exists hit : bool,
    outcome k hit /\ acc' = acc_num + (if hit then 1 else 0) /\
    heap s' = heap s /\ dirs s' = dirs s /\
    exists img coords bb path, log s' = log s ++ [ShowResult img coords bb path].
Proof.
  unfold localize_prompt. intros H.
  apply bind_Some in H as (avg & s0 & Havg & H). apply lift_Some in Havg as [Havg ->].
  apply bind_Some in H as ([sel coords] & s0 & Hsel & H).
  apply lift_Some in Hsel as [Hsel ->].
  inv_run.
  match goal with
  | Hscan : scan_boxes _ _ _ = Some _ |- _ =>
      destruct (scan_boxes_spec _ _ _ _ Hscan) as [[Hhit ->]|[Hno ->]]
  end.
  - exists true. split; [|split; [reflexivity|simpl; eauto 10]].
    unfold outcome, label_outcome. do 6 eexists. repeat (split; [eassumption|]). tauto.
  - exists false. split; [|split; [lia|simpl; eauto 10]].
    unfold outcome, label_outcome. do 6 eexists. repeat (split; [eassumption|]).
    split; [discriminate|]. intros Hh. contradiction.
Qed.

Lemma localize_loop_Some ks acc_num acc' s s' :
  localize_loop (localize_prompt filter2D compose_overlay valid_map image image_name
                   img_ann n_head (dict_keys img_ann)) ks acc_num s = Some (acc', s') ->
  heap s' = heap s /\
  exists hits, Forall2 outcome ks hits /\ acc' = acc_num + count_true hits /\
    length (log s') = length (log s) + length ks.
Proof.
  revert acc_num s. induction ks as [|k r IH]; intros acc_num s H; simpl in H.
  - apply ret_Some in H as [-> ->]. split; [reflexivity|].
    exists []. split; [constructor|]. unfold count_true. simpl. lia.
  - apply bind_Some in H as (acc1 & s1 & Hk & Hr).
    apply localize_prompt_Some in Hk
      as (hit & Hout & -> & Hh & _ & img & cs & bb & path & Hlog).
    apply IH in Hr as (Hh' & hits & HF & -> & Hlen).
    split; [congruence|].
    exists (hit :: hits). split; [constructor; assumption|].
    rewrite count_true_cons. split; [lia|].
    rewrite Hlen, Hlog, length_app. simpl. lia.
Qed.

(** X13. The counter that [lerf_localization] returns is the number of labels
    for which some coordinate of the selected head's maximum lies in one
    of the label's boxes; it never exceeds the number of labels.  The run
    shows one result per label and leaves the heap alone. *)
Theorem lerf_localization_counts_hit_labels sem_map clip_model acc_num s s' :
  valid_map = get_max_across clip_model sem_map ->
  (exists n_prompt h w, shape valid_map = [n_head; n_prompt; h; w]) ->
  lerf_localization get_max_across filter2D compose_overlay sem_map image clip_model
                    image_name img_ann s = Some (acc_num, s') ->
  acc_num <= length img_ann /\
  heap s' = heap s /\
  length (log s') = length (log s) + length img_ann /\
  exists hits,
    length hits = length img_ann /\ acc_num = count_true hits /\
    forall k hit, hits !! k = Some hit -> outcome k hit.
Proof.
  intros Hvm (n_prompt & h & w & Hs) H. unfold lerf_localization in H.
  rewrite <- Hvm, Hs in H. simpl in H.
  apply bind_Some in H as ([] & s0 & Hmk & H).
  unfold makedirs_exist_ok in Hmk. injection Hmk as <-.
  apply bind_Some in H as (dims & s1 & Hd & H).
  apply lift_Some in Hd as [[= <-] ->].
  apply localize_loop_Some in H as (Hh & hits & HF & -> & Hlen).
  rewrite length_seq in Hlen. unfold dict_keys in Hlen. rewrite length_map in Hlen.
  simpl in *.
  assert (Hl : length hits = length img_ann).
  { apply Forall2_length in HF. rewrite length_seq in HF.
    unfold dict_keys in HF. rewrite length_map in HF. lia. }
  split; [rewrite <- Hl; apply count_true_le|].
  split; [exact Hh|]. split; [exact Hlen|].
  exists hits. split; [exact Hl|]. split; [reflexivity|].
  intros k hit Hk.
  destruct (Forall2_lookup_r _ _ _ _ _ HF Hk) as (k' & Hk' & Hout).
  apply lookup_seq in Hk' as [-> _]. exact Hout.
Qed.

End LocalizationRun.

Lemma lerf_localization_counts_hit_labels_witness :
  (lerf_localization sample_relevance_given sample_filter2D sample_overlay
      sample_relevance_2d sample_image (MkClipModel ["mug"; "bear"])
      "out/frame_00001" sample_img_ann) sample_state
  = Some (result_of
       (lerf_localization sample_relevance_given sample_filter2D sample_overlay
      sample_relevance_2d sample_image (MkClipModel ["mug"; "bear"])
      "out/frame_00001" sample_img_ann)
       sample_state 0) /\
  (result_of
       (lerf_localization sample_relevance_given sample_filter2D sample_overlay
      sample_relevance_2d sample_image (MkClipModel ["mug"; "bear"])
      "out/frame_00001" sample_img_ann)
       sample_state 0).1 <= 2 /\
  heap (result_of
       (lerf_localization sample_relevance_given sample_filter2D sample_overlay
      sample_relevance_2d sample_image (MkClipModel ["mug"; "bear"])
      "out/frame_00001" sample_img_ann)
       sample_state 0).2 = heap sample_state.
Proof.
  set (run := (lerf_localization sample_relevance_given sample_filter2D sample_overlay
      sample_relevance_2d sample_image (MkClipModel ["mug"; "bear"])
      "out/frame_00001" sample_img_ann)).
  set (r := result_of run sample_state 0).
  assert (E : run sample_state = Some (r.1, r.2)) by (vm_compute; reflexivity).
  split; [vm_compute; reflexivity|].
  destruct (lerf_localization_counts_hit_labels sample_relevance_given sample_filter2D
              sample_overlay sample_relevance_2d sample_image "out/frame_00001"
              sample_img_ann 2 sample_relevance_2d (MkClipModel ["mug"; "bear"])
              r.1 sample_state r.2 eq_refl)
    as (H1 & H2 & H3 & _).
  - exists 2, 2, 3. reflexivity.
  - exact E.
  - auto.
Defined.

(** X11. The scoring of one label: on two-dimensional coordinates the loops
    over the boxes and the coordinates return; the counter goes up by
    exactly one when some coordinate lies in some box, whatever the order
    of the box's corners, and is unchanged otherwise. *)
Theorem box_scoring_counts_once boxes coord_final acc_num :
  Forall (fun cord => 2 <= length cord) coord_final ->
  exists acc',
    scan_boxes boxes coord_final acc_num = Some acc' /\
    ((label_hit boxes coord_final /\ acc' = acc_num + 1) \/
     (~ label_hit boxes coord_final /\ acc' = acc_num)).
Proof.
  intros Hc.
  destruct (scan_boxes_total boxes coord_final acc_num Hc) as [acc' H].
  exists acc'. split; [exact H|]. apply scan_boxes_spec. exact H.
Qed.

Lemma box_scoring_counts_once_witness :
  exists acc',
    scan_boxes [((3 # 2)%Q, (3 # 2)%Q, (1 # 2)%Q, (1 # 2)%Q)] [[0; 0]; [1; 1]] 4 = Some acc' /\
    ((label_hit [((3 # 2)%Q, (3 # 2)%Q, (1 # 2)%Q, (1 # 2)%Q)] [[0; 0]; [1; 1]]
      /\ acc' = 4 + 1) \/
     (~ label_hit [((3 # 2)%Q, (3 # 2)%Q, (1 # 2)%Q, (1 # 2)%Q)] [[0; 0]; [1; 1]]
      /\ acc' = 4)).
Proof.
  apply box_scoring_counts_once. repeat constructor.
Defined.

Section LocalizationEdges.

Variable get_max_across : ClipModel -> tensor Q -> tensor Q.
Variable filter2D : tensor Q -> tensor Q -> tensor Q.
Variable compose_overlay : tensor Q -> tensor Q -> tensor Q -> option (tensor Q).

Lemma select_head_no_heads (avg_filtered : tensor Q) :
  select_head avg_filtered 0 = None.
Proof. reflexivity. Qed.

(** X14. [lerf_localization] raises unless there is a head to select and a
    prompt in the relevance map for every label: with labels to score, a
    run that returns had at least one head and no more labels than
    prompts. *)
Theorem lerf_localization_needs_heads_and_prompts sem_map image clip_model image_name
    img_ann n_head n_prompt h w acc_num s s' :
  shape (get_max_across clip_model sem_map) = [n_head; n_prompt; h; w] ->
  img_ann <> [] ->
  lerf_localization get_max_across filter2D compose_overlay sem_map image clip_model
                    image_name img_ann s = Some (acc_num, s') ->
  0 < n_head /\ length img_ann <= n_prompt.
Proof.
  intros Hs Hne H. unfold lerf_localization in H. rewrite Hs in H. simpl in H.
  apply bind_Some in H as ([] & s0 & _ & H).
  apply bind_Some in H as (dims & s1 & Hd & H).
  apply lift_Some in Hd as [[= <-] ->].
  apply localize_loop_Some in H as (_ & hits & HF & _ & _).
  assert (Hl : length hits = length img_ann).
  { apply Forall2_length in HF. rewrite length_seq in HF.
    unfold dict_keys in HF. rewrite length_map in HF. lia. }
  assert (Hout : forall k hit, hits !! k = Some hit ->
            label_outcome filter2D (get_max_across clip_model sem_map) img_ann n_head k hit).
  { intros k hit Hk.
    destruct (Forall2_lookup_r _ _ _ _ _ HF Hk) as (k' & Hk' & Ho).
    apply lookup_seq in Hk' as [-> _]. exact Ho. }
  assert (Hk : forall k, k < length img_ann -> 0 < n_head /\ k < n_prompt).
  { intros k Hk.
    destruct (lookup_lt_is_Some_2 hits k) as [hit Hhit]; [lia|].
    destruct (Hout k hit Hhit) as (label & a & avg & sel & cs & boxes & _ & _ & Hsm & Hsel & _).
    split.
    - destruct n_head; [|lia]. rewrite select_head_no_heads in Hsel. discriminate.
    - unfold smoothed, select1 in Hsm. rewrite Hs in Hsm.
      destruct (decide (k < n_prompt)); [assumption|discriminate]. }
  destruct img_ann as [|e r]; [congruence|]. simpl in *.
  split; [apply (Hk 0); lia|].
  destruct (Hk (length r)); lia.
Qed.

End LocalizationEdges.

Lemma lerf_localization_needs_heads_and_prompts_witness :
  (lerf_localization sample_relevance_given sample_filter2D sample_overlay
      sample_relevance_2d sample_image (MkClipModel ["mug"; "bear"])
      "out/frame_00001" sample_img_ann) sample_state
  = Some (result_of
       (lerf_localization sample_relevance_given sample_filter2D sample_overlay
      sample_relevance_2d sample_image (MkClipModel ["mug"; "bear"])
      "out/frame_00001" sample_img_ann)
       sample_state 0) /\
  0 < 2 /\ length sample_img_ann <= 2.
Proof.
  set (run := (lerf_localization sample_relevance_given sample_filter2D sample_overlay
      sample_relevance_2d sample_image (MkClipModel ["mug"; "bear"])
      "out/frame_00001" sample_img_ann)).
  set (r := result_of run sample_state 0).
  assert (E : run sample_state = Some (r.1, r.2)) by (vm_compute; reflexivity).
  split; [vm_compute; reflexivity|].
  apply (lerf_localization_needs_heads_and_prompts sample_relevance_given
           sample_filter2D sample_overlay sample_relevance_2d sample_image
           (MkClipModel ["mug"; "bear"]) "out/frame_00001" sample_img_ann
           2 2 2 3 r.1 sample_state r.2 eq_refl ltac:(discriminate) E).
Defined.

(** ** Dictionaries *)

Lemma dict_get_set {V} (d : list (string * V)) (k k' : string) (v : V) :
  dict_get (dict_set d k v) k' = if String.eqb k k' then Some v else dict_get d k'.
Proof.
  induction d as [|[k0 v0] r IH]; simpl.
  - reflexivity.
  - destruct (String.eqb k0 k) eqn:E0; simpl.
    + apply String.eqb_eq in E0 as ->. destruct (String.eqb k k'); reflexivity.
    + rewrite IH. destruct (String.eqb k0 k') eqn:E1; [|reflexivity].
      apply String.eqb_eq in E1 as ->. rewrite String.eqb_sym, E0. reflexivity.
Qed.

Lemma dict_keys_set {V} (d : list (string * V)) (k : string) (v : V) (k' : string) :
  k' ∈ dict_keys (dict_set d k v) <-> k' = k \/ k' ∈ dict_keys d.
Proof.
  unfold dict_keys. induction d as [|[k0 v0] r IH]; simpl.
  - rewrite list_elem_of_singleton, elem_of_nil. tauto.
  - destruct (String.eqb k0 k) eqn:E0; simpl.
    + apply String.eqb_eq in E0 as ->. rewrite !elem_of_cons. tauto.
    + rewrite !elem_of_cons, IH. tauto.
Qed.

(** A key keeps its place when it is set again; a new key goes last. *)
Lemma dict_keys_set_order {V} (d : list (string * V)) (k : string) (v : V) :
  dict_keys (dict_set d k v)
  = if bool_decide (k ∈ dict_keys d) then dict_keys d else dict_keys d ++ [k].
Proof.
  unfold dict_keys. induction d as [|[k0 v0] r IH].
  - simpl. first [reflexivity | case_bool_decide as H; [inversion H|reflexivity]].
  - cbn [dict_set map fst]. destruct (String.eqb k0 k) eqn:E0.
    + apply String.eqb_eq in E0 as ->. cbn [map fst].
      rewrite (bool_decide_eq_true_2 (k ∈ k :: map fst r)) by left. reflexivity.
    + cbn [map fst]. rewrite IH. apply String.eqb_neq in E0.
      destruct (decide (k ∈ map fst r)) as [Hin|Hin].
      * rewrite (bool_decide_eq_true_2 _ Hin).
        rewrite (bool_decide_eq_true_2 (k ∈ k0 :: map fst r)) by (right; exact Hin).
        reflexivity.
      * rewrite (bool_decide_eq_false_2 _ Hin).
        rewrite (bool_decide_eq_false_2 (k ∈ k0 :: map fst r)); [reflexivity|].
        intros H. apply elem_of_cons in H as [->|H]; [congruence|contradiction].
Qed.

Lemma dict_get_keys {V} (d : list (string * V)) (k : string) :
  k ∈ dict_keys d <-> is_Some (dict_get d k).
Proof.
  unfold dict_keys. induction d as [|[k0 v0] r IH]; simpl.
  - rewrite elem_of_nil. split; [tauto|]. intros [? ?]. discriminate.
  - rewrite elem_of_cons, IH. destruct (String.eqb k0 k) eqn:E.
    + apply String.eqb_eq in E as ->. split; [eauto|auto].
    + apply String.eqb_neq in E. split; [intros [->|H]; [congruence|exact H]|auto].
Qed.

Lemma dict_keys_NoDup_set {V} (d : list (string * V)) (k : string) (v : V) :
  NoDup (dict_keys d) -> NoDup (dict_keys (dict_set d k v)).
Proof.
  intros H. rewrite dict_keys_set_order.
  destruct (bool_decide (k ∈ dict_keys d)) eqn:E; [exact H|].
  apply bool_decide_eq_false in E.
  apply NoDup_app. split; [exact H|]. split.
  - intros x Hx Hk. apply list_elem_of_singleton in Hk as ->. contradiction.
  - apply NoDup_singleton.
Qed.

(** ** eval_gt_lerfdata: the annotation of one frame *)

Local Arguments Nat.div : simpl never.
Local Arguments Nat.modulo : simpl never.

Section GroundTruthFacts.

Variable polygon_to_mask : nat * nat -> list (list Q) -> tensor bool.
Variable stack_mask : tensor bool -> tensor bool -> tensor bool.
Variables (h w : nat) (name ouput_path : string).

Let step := entry_step polygon_to_mask stack_mask h w.
Let fold := entry_fold polygon_to_mask stack_mask h w.
Let mask_of := fun p : prompt_data => polygon_to_mask (h, w) (segmentation p).
Let rows_of := fun p : prompt_data => numel (shape (bbox p)) / 4.
Let vis_path := fun label : string =>
  path_join (path_join_list ouput_path ["gt"; before_first ".jpg" name]) (label ++ ".jpg")%string.

(** One object: the entry of its label is replaced, the other labels are
    untouched, and the mask of the label is saved. *)
Lemma add_object_Some d p s d' s' :
  add_object polygon_to_mask stack_mask h w name ouput_path d p s = Some (d', s') <->
  exists entry,
    step (dict_get d (category p)) p = Some entry /\
    d' = dict_set d (category p) entry /\
    s' = MkState (heap s)
           ({[ path_join_list ouput_path ["gt"; before_first ".jpg" name] ]} ∪ dirs s)
           (log s ++ [VisMaskSave (mask entry) (vis_path (category p))]).
Proof.
  unfold add_object, step, entry_step, vis_path. split.
  - intros H. apply bind_Some in H as (entry & s0 & He & H).
    apply bind_Some in H as ([] & s1 & Hmk & H).
    unfold makedirs_exist_ok in Hmk. injection Hmk as <-.
    apply bind_Some in H as ([] & s2 & Hem & H).
    apply emit_Some in Hem. subst s2. apply ret_Some in H as [-> ->]. simpl.
    exists entry.
    destruct (dict_get d (category p)) as [a|].
    + inv_run. split; [|auto].
      repeat match goal with E : _ = Some _ |- _ => rewrite E; simpl end. reflexivity.
    + apply ret_Some in He as [-> ->]. auto.
  - intros (entry & He & -> & ->). unfold bind, lift, ret, emit, makedirs_exist_ok.
    destruct (dict_get d (category p)) as [a|].
    + destruct (reshape_m1_4 (bboxes a)) as [prev|]; simpl in *; [|discriminate].
      destruct (reshape_m1_4 (reshape_flat (bbox p))) as [cur|]; simpl in *; [|discriminate].
      destruct (concatenate0 prev cur) as [both|]; simpl in *; [|discriminate].
      injection He as <-. reflexivity.
    + injection He as <-. reflexivity.
Qed.

(** The objects of a file: every label's entry evolves through the
    objects of that label alone; one mask is saved per object. *)
Lemma add_objects_Some ps : forall d s d' s',
  add_objects polygon_to_mask stack_mask h w name ouput_path d ps s = Some (d', s') ->
  (forall label, fold (dict_get d label) (occurrences label ps) = Some (dict_get d' label)) /\
  heap s' = heap s /\
  length (log s') = length (log s) + length ps /\
  (NoDup (dict_keys d) -> NoDup (dict_keys d')).
Proof.
  induction ps as [|p r IH]; intros d s d' s' H; simpl in H.
  - apply ret_Some in H as [-> ->]. repeat split; auto.
  - apply bind_Some in H as (d1 & s1 & Hp & Hr).
    apply add_object_Some in Hp as (entry & He & -> & ->).
    apply IH in Hr as (Hf & Hh & Hl & Hn). simpl in *.
    split; [|split; [exact Hh|split]].
    + intros label. specialize (Hf label). rewrite dict_get_set in Hf.
      unfold occurrences. destruct (String.eqb (category p) label) eqn:E.
      * apply String.eqb_eq in E. rewrite filter_cons_True by exact E.
        simpl. subst label. fold step. rewrite He. simpl. exact Hf.
      * apply String.eqb_neq in E. rewrite filter_cons_False by exact E. exact Hf.
    + rewrite Hl, length_app. simpl. lia.
    + intros Hd. apply Hn, dict_keys_NoDup_set, Hd.
Qed.

(** From an existing entry on: the rows and the data of the boxes
    accumulate and the masks are stacked in order. *)
Lemma entry_fold_some rest : forall a e',
  fold (Some a) rest = Some e' ->
  exists a', e' = Some a' /\
    data (bboxes a') = data (bboxes a) ++ flat_map (fun q => data (bbox q)) rest /\
    mask a' = fold_left (fun m q => stack_mask m (mask_of q)) rest (mask a) /\
    match rest with
    | [] => a' = a
    | _ => shape (bboxes a')
           = [numel (shape (bboxes a)) / 4 + sum_list (map rows_of rest); 4]
    end.
Proof.
  unfold fold. induction rest as [|q r IH]; intros a e' H; simpl in H.
  - injection H as <-. exists a. rewrite app_nil_r. auto.
  - unfold entry_step, reshape_m1_4, concatenate0, reshape_flat in H. simpl in H.
    rewrite Nat.mul_1_r in H.
    destruct (decide (numel (shape (bboxes a)) mod 4 = 0)) as [Ha|];
      [|simpl in H; discriminate].
    destruct (decide (numel (shape (bbox q)) mod 4 = 0)) as [Hq|];
      [|simpl in H; discriminate].
    simpl in H. try rewrite decide_True in H by reflexivity. simpl in H.
    apply IH in H as (a' & -> & Hd & Hm & Hs). simpl in *.
    exists a'. split; [reflexivity|]. split; [rewrite Hd, <- app_assoc; reflexivity|].
    split; [exact Hm|].
    destruct r as [|q' r'].
    + subst a'. simpl. unfold rows_of. rewrite Nat.add_0_r. reflexivity.
    + rewrite Hs. f_equal.
      replace ((numel (shape (bboxes a)) / 4 + numel (shape (bbox q)) / 4) * (4 * 1))
        with ((numel (shape (bboxes a)) / 4 + numel (shape (bbox q)) / 4) * 4) by lia.
      rewrite Nat.div_mul by discriminate.
      change (sum_list (map rows_of (q :: q' :: r')))
        with (rows_of q + sum_list (map rows_of (q' :: r'))).
      unfold rows_of at 2. lia.
Qed.

(** X19. The annotation of a frame, label by label.  A label that does not
    occur has no entry.  A label that occurs once keeps its box flat, as
    it was read.  A label that occurs several times has one row of four
    numbers per box, in the order of the objects, and the stack of their
    masks. *)
Theorem frame_annotation_accumulates ps s img_ann s' :
  add_objects polygon_to_mask stack_mask h w name ouput_path [] ps s = Some (img_ann, s') ->
  forall label,
    match occurrences label ps with
    | [] => dict_get img_ann label = None
    | [p] => dict_get img_ann label = Some (MkAnn (reshape_flat (bbox p)) (mask_of p))
    | p :: rest =>
        exists a, dict_get img_ann label = Some a /\
          shape (bboxes a) = [sum_list (map rows_of (p :: rest)); 4] /\
          data (bboxes a) = flat_map (fun q => data (bbox q)) (p :: rest) /\
          mask a = fold_left (fun m q => stack_mask m (mask_of q)) rest (mask_of p)
    end.
Proof.
  intros H label. apply add_objects_Some in H as (Hf & _).
  specialize (Hf label). simpl in Hf.
  destruct (occurrences label ps) as [|p rest]; simpl in Hf.
  - injection Hf as <-. reflexivity.
  - apply entry_fold_some in Hf as (a' & Ha' & Hd & Hm & Hs). simpl in *.
    destruct rest as [|q r].
    + subst a'. exact Ha'.
    + exists a'. split; [exact Ha'|]. split; [|split; assumption].
      rewrite Hs, Nat.mul_1_r. reflexivity.
Qed.

End GroundTruthFacts.

(** ** eval_gt_lerfdata: the files *)

Section GroundTruthRun.

Variable polygon_to_mask : nat * nat -> list (list Q) -> tensor bool.
Variable stack_mask : tensor bool -> tensor bool -> tensor bool.
Variable ouput_path : string.

(** [r] is the annotation that the objects of file [f] build. *)
Let annotates (f : gt_data) (r : list (string * ann)) : Prop :=
  exists s1 s2,
    add_objects polygon_to_mask stack_mask (info_height f) (info_width f) (info_name f)
                ouput_path [] (objects f) s1 = Some (r, s2).

Lemma gt_loop_Some files : forall gt_ann hw s gt_ann' hw' s',
  gt_loop polygon_to_mask stack_mask ouput_path files gt_ann hw s
    = Some ((gt_ann', hw'), s') ->
  hw' = match last files with
        | Some f => Some (info_height f, info_width f)
        | None => hw
        end /\
  heap s' = heap s /\
  (NoDup (dict_keys gt_ann) -> NoDup (dict_keys gt_ann')) /\
  (forall key, key ∈ dict_keys gt_ann' <->
     key ∈ dict_keys gt_ann \/
     exists f, f ∈ files /\ frame_key (info_name f) = Some key) /\
  (forall key r, dict_get gt_ann' key = Some r ->
     (dict_get gt_ann key = Some r /\
      forall f, f ∈ files -> frame_key (info_name f) <> Some key) \/
     (exists pre f post,
        files = pre ++ f :: post /\ frame_key (info_name f) = Some key /\
        (forall g, g ∈ post -> frame_key (info_name g) <> Some key) /\
        annotates f r)).
Proof.
  induction files as [|gt r IH]; intros gt_ann hw s gt_ann' hw' s' H; simpl in H.
  - apply ret_Some in H as [[= -> ->] ->].
    split; [reflexivity|]. split; [reflexivity|]. split; [auto|]. split.
    + intros key. split; [auto|]. intros [H|(f & Hf & _)]; [exact H|inversion Hf].
    + intros key v Hv. left. split; [exact Hv|]. intros f Hf. inversion Hf.
  - apply bind_Some in H as (key & s0 & Hkey & H). apply lift_Some in Hkey as [Hkey ->].
    apply bind_Some in H as (img_ann & s1 & Hobj & H).
    pose proof Hobj as Hobj'. apply add_objects_Some in Hobj' as (_ & Hh1 & _).
    apply IH in H as (Hhw & Hh & Hnd & Hkeys & Hvals).
    split; [|split; [congruence|split; [|split]]].
    + rewrite last_cons. destruct (last r); exact Hhw.
    + intros Hd. apply Hnd, dict_keys_NoDup_set, Hd.
    + intros k. rewrite Hkeys, dict_keys_set. split.
      * intros [[->|Hk]|(f & Hf & Hfk)].
        -- right. exists gt. split; [left|exact Hkey].
        -- left. exact Hk.
        -- right. exists f. split; [right; exact Hf|exact Hfk].
      * intros [Hk|(f & Hf & Hfk)]; [left; right; exact Hk|].
        apply elem_of_cons in Hf as [->|Hf].
        -- left. left. congruence.
        -- right. exists f. auto.
    + intros k v Hv. apply Hvals in Hv as [[Hv Hno]|(pre & f & post & -> & Hfk & Hpost & Han)].
      * rewrite dict_get_set in Hv. destruct (String.eqb key k) eqn:E.
        -- apply String.eqb_eq in E as ->. injection Hv as <-.
           right. exists [], gt, r. split; [reflexivity|]. split; [exact Hkey|].
           split; [exact Hno|]. exists s, s1. exact Hobj.
        -- apply String.eqb_neq in E. left. split; [exact Hv|].
           intros f Hf. apply elem_of_cons in Hf as [->|Hf]; [congruence|auto].
      * right. exists (gt :: pre), f, post. auto.
Qed.

(** [eval_gt_lerfdata] raises when the folder has no annotation file:
    the height and width that it returns were never assigned. *)
Theorem eval_gt_lerfdata_no_files img_paths s :
  eval_gt_lerfdata polygon_to_mask stack_mask [] img_paths ouput_path s = None.
Proof. reflexivity. Qed.

(** X18. What [eval_gt_lerfdata] returns.  The size is that of the last file
    and the image paths are passed on.  The keys are the frame keys of
    the files, without repetition; under a key is the annotation of the
    last file that has this key, so an earlier file with the same frame
    name is dropped.  The heap is untouched. *)
Theorem eval_gt_lerfdata_result gt_json img_paths s gt_ann hw paths s' :
  eval_gt_lerfdata polygon_to_mask stack_mask gt_json img_paths ouput_path s
    = Some ((gt_ann, hw, paths), s') ->
  (exists f, last gt_json = Some f /\ hw = (info_height f, info_width f)) /\
  paths = img_paths /\ heap s' = heap s /\
  NoDup (dict_keys gt_ann) /\
  (forall key, key ∈ dict_keys gt_ann <->
     exists f, f ∈ gt_json /\ frame_key (info_name f) = Some key) /\
  (forall key r, dict_get gt_ann key = Some r ->
     exists pre f post,
       gt_json = pre ++ f :: post /\ frame_key (info_name f) = Some key /\
       (forall g, g ∈ post -> frame_key (info_name g) <> Some key) /\
       annotates f r).
Proof.
  unfold eval_gt_lerfdata. intros H.
  apply bind_Some in H as ([ga hw0] & s0 & Hloop & H).
  apply bind_Some in H as (hw1 & s1 & Hhw & H). apply lift_Some in Hhw as [-> ->].
  apply ret_Some in H as [[= <- <- <-] ->].
  apply gt_loop_Some in Hloop as (Hl & Hh & Hnd & Hkeys & Hvals).
  split; [|split; [reflexivity|split; [exact Hh|split; [|split]]]].
  - destruct (last gt_json) as [f|]; [|discriminate].
    injection Hl as ->. eauto.
  - apply Hnd. constructor.
  - intros key. rewrite Hkeys. split; [|auto].
    intros [Hk|Hf]; [inversion Hk|exact Hf].
  - intros key r Hr. apply Hvals in Hr as [[Hr _]|Hr]; [discriminate|exact Hr].
Qed.

(** The files are read to the end, and the function returns, as soon as
    there is a file, every frame name ends in a number and every box has
    a multiple of four numbers. *)
Lemma entry_step_total h w e p :
  (forall a, e = Some a -> numel (shape (bboxes a)) mod 4 = 0) ->
  numel (shape (bbox p)) mod 4 = 0 ->
  exists entry, entry_step polygon_to_mask stack_mask h w e p = Some entry /\
                numel (shape (bboxes entry)) mod 4 = 0.
Proof.
  intros He Hp. unfold entry_step, reshape_m1_4, concatenate0, reshape_flat.
  destruct e as [a|]; simpl.
  - rewrite Nat.mul_1_r.
    destruct (decide (numel (shape (bboxes a)) mod 4 = 0)) as [Ha|Hn];
      [|exfalso; apply Hn, He; reflexivity].
    destruct (decide (numel (shape (bbox p)) mod 4 = 0)) as [Hq|Hn];
      [|contradiction].
    simpl. try rewrite decide_True by reflexivity. simpl.
    eexists. split; [reflexivity|]. simpl.
    replace (4 * 1) with 4 by reflexivity. apply Nat.Div0.mod_mul.
  - eexists. split; [reflexivity|]. simpl. rewrite Nat.mul_1_r. exact Hp.
Qed.

Lemma add_objects_total h w name ps : forall d s,
  (forall label a, dict_get d label = Some a -> numel (shape (bboxes a)) mod 4 = 0) ->
  Forall (fun p => numel (shape (bbox p)) mod 4 = 0) ps ->
  exists d' s',
    add_objects polygon_to_mask stack_mask h w name ouput_path d ps s = Some (d', s').
Proof.
  induction ps as [|p r IH]; intros d s Hd Hps; simpl.
  - eexists _, _. reflexivity.
  - apply Forall_cons_1 in Hps as [Hp Hr].
    destruct (entry_step_total h w (dict_get d (category p)) p) as (entry & He & Hm);
      [intros a Ha; eapply Hd; exact Ha|exact Hp|].
    destruct (IH (dict_set d (category p) entry)
                 (MkState (heap s)
                    ({[ path_join_list ouput_path ["gt"; before_first ".jpg" name] ]}
                     ∪ dirs s)
                    (log s ++ [VisMaskSave (mask entry)
                       (path_join (path_join_list ouput_path
                                     ["gt"; before_first ".jpg" name])
                                  (category p ++ ".jpg")%string)])))
      as (d' & s' & Hrun); [|exact Hr|].
    + intros label a. rewrite dict_get_set.
      destruct (String.eqb (category p) label); [intros [= <-]; exact Hm|apply Hd].
    + exists d', s'. apply bind_Some. eexists _, _. split; [|exact Hrun].
      apply add_object_Some. exists entry. auto.
Qed.

(** X16. [eval_gt_lerfdata] returns on a folder with at least one file when
    every frame name has a key (its number is one that [int] reads) and
    every box has a multiple of four numbers; the image paths are passed
    on as they are. *)
Theorem eval_gt_lerfdata_returns gt_json img_paths s :
  gt_json <> [] ->
  Forall (fun f => is_Some (frame_key (info_name f)) /\
                   Forall (fun p => numel (shape (bbox p)) mod 4 = 0) (objects f))
         gt_json ->
  exists gt_ann hw s',
    eval_gt_lerfdata polygon_to_mask stack_mask gt_json img_paths ouput_path s
      = Some ((gt_ann, hw, img_paths), s').
Proof.
  intros Hne Hall.
  assert (Hloop : forall files gt_ann hw s0,
    Forall (fun f => is_Some (frame_key (info_name f)) /\
                     Forall (fun p => numel (shape (bbox p)) mod 4 = 0) (objects f))
           files ->
    exists gt_ann' s1,
      gt_loop polygon_to_mask stack_mask ouput_path files gt_ann hw s0
      = Some ((gt_ann',
               match last files with
               | Some f => Some (info_height f, info_width f)
               | None => hw
               end), s1)).
  { induction files as [|f r IH]; intros gt_ann hw s0 HF; simpl.
    - eexists _, _. reflexivity.
    - apply Forall_cons_1 in HF as [[[key Hkey] Hobj] Hr].
      destruct (add_objects_total (info_height f) (info_width f) (info_name f)
                  (objects f) [] s0) as (img_ann & s1 & Hrun);
        [intros label a Ha; discriminate|exact Hobj|].
      destruct (IH (dict_set gt_ann key img_ann)
                   (Some (info_height f, info_width f)) s1 Hr) as (ga & s2 & Hl).
      exists ga, s2. unfold bind, lift. rewrite Hkey, Hrun, Hl.
      rewrite last_cons. destruct (last r); reflexivity. }
  destruct (Hloop gt_json [] None s Hall) as (ga & s1 & Hl).
  destruct (last gt_json) as [f|] eqn:El.
  - exists ga, (info_height f, info_width f), s1.
    unfold eval_gt_lerfdata, bind. rewrite Hl. reflexivity.
  - apply last_None in El. contradiction.
Qed.

End GroundTruthRun.

Lemma frame_annotation_accumulates_witness :
  add_objects sample_polygon_to_mask sample_stack_mask 2 3 "frame_00042.jpg" "out" []
              (objects sample_gt) sample_state
  = Some (result_of (add_objects sample_polygon_to_mask sample_stack_mask 2 3
                       "frame_00042.jpg" "out" [] (objects sample_gt))
                    sample_state []) /\
  exists a,
    dict_get (result_of (add_objects sample_polygon_to_mask sample_stack_mask 2 3
                           "frame_00042.jpg" "out" [] (objects sample_gt))
                        sample_state []).1 "mug" = Some a /\
    shape (bboxes a) = [2; 4] /\
    data (bboxes a) = [0; 0; 1; 1; 2; 0; 2; 1]%Q.
Proof.
  set (run := add_objects sample_polygon_to_mask sample_stack_mask 2 3
                "frame_00042.jpg" "out" [] (objects sample_gt)).
  set (r := result_of run sample_state []).
  assert (E : run sample_state = Some (r.1, r.2)) by (vm_compute; reflexivity).
  split; [vm_compute; reflexivity|].
  pose proof (frame_annotation_accumulates sample_polygon_to_mask sample_stack_mask
                2 3 "frame_00042.jpg" "out" (objects sample_gt) sample_state
                r.1 r.2 E "mug") as H.
  change (occurrences "mug" (objects sample_gt))
    with [MkPromptData "mug" (Tensor [4] [0; 0; 1; 1]%Q) [[0; 1]%Q];
          MkPromptData "mug" (Tensor [4] [2; 0; 2; 1]%Q) [[2]%Q]] in H.
  destruct H as (a & Ha & Hs & Hd & _).
  exists a. split; [exact Ha|]. split; [exact Hs|exact Hd].
Defined.

Lemma eval_gt_lerfdata_result_witness :
  eval_gt_lerfdata sample_polygon_to_mask sample_stack_mask
                   [sample_gt] ["gt/frame_00042.jpg"] "out" sample_state
  = Some (result_of (eval_gt_lerfdata sample_polygon_to_mask sample_stack_mask
                       [sample_gt] ["gt/frame_00042.jpg"] "out")
                    sample_state ([], (0, 0), [])) /\
  exists f, last [sample_gt] = Some f /\
    (result_of (eval_gt_lerfdata sample_polygon_to_mask sample_stack_mask
                  [sample_gt] ["gt/frame_00042.jpg"] "out")
               sample_state ([], (0, 0), [])).1.1.2
    = (info_height f, info_width f).
Proof.
  set (run := eval_gt_lerfdata sample_polygon_to_mask sample_stack_mask
                [sample_gt] ["gt/frame_00042.jpg"] "out").
  set (r := result_of run sample_state ([], (0, 0), [])).
  assert (E : run sample_state = Some ((r.1.1.1, r.1.1.2, r.1.2), r.2))
    by (vm_compute; reflexivity).
  split; [vm_compute; reflexivity|].
  exact (proj1 (eval_gt_lerfdata_result sample_polygon_to_mask sample_stack_mask "out"
                  [sample_gt] ["gt/frame_00042.jpg"] sample_state
                  r.1.1.1 r.1.1.2 r.1.2 r.2 E)).
Defined.

Lemma eval_gt_lerfdata_returns_witness :
  exists gt_ann hw s',
    eval_gt_lerfdata sample_polygon_to_mask sample_stack_mask
                     [sample_gt] ["gt/frame_00042.jpg"] "out" sample_state
    = Some ((gt_ann, hw, ["gt/frame_00042.jpg"]), s').
Proof.
  apply (eval_gt_lerfdata_returns sample_polygon_to_mask sample_stack_mask "out"
           [sample_gt] ["gt/frame_00042.jpg"] sample_state).
  - discriminate.
  - repeat constructor. exists "41". reflexivity.
Defined.
(** ** Frame names *)

Local Arguments String.append !_ _ / : simpl nomatch.

Lemma rev_app_involutive (s1 s2 s3 : string) :
  String.rev_app (String.rev_app s1 s2) s3 = String.rev_app s2 (s1 ++ s3)%string.
Proof.
  revert s2 s3. induction s1 as [|a s1 IH]; intros s2 s3; simpl; [reflexivity|].
  rewrite IH. reflexivity.
Qed.

Lemma string_app_empty_r (s : string) : (s ++ "")%string = s.
Proof.
  induction s as [|a s IH]; simpl; [reflexivity|]. f_equal. exact IH.
Qed.

Lemma string_rev_involutive (s : string) : String.rev (String.rev s) = s.
Proof.
  unfold String.rev. rewrite rev_app_involutive. simpl. apply string_app_empty_r.
Qed.

Lemma all_chars_rev_app (test : ascii -> bool) (s1 s2 : string) :
  all_chars test s1 = true -> all_chars test s2 = true ->
  all_chars test (String.rev_app s1 s2) = true.
Proof.
  revert s2. induction s1 as [|a s1 IH]; intros s2 H1 H2; simpl in *; [exact H2|].
  apply andb_true_iff in H1 as [Ha H1]. apply IH; [exact H1|].
  simpl. rewrite Ha, H2. reflexivity.
Qed.

Lemma lstrip_no_space (s : string) :
  all_chars (fun a => negb (is_space a)) s = true -> lstrip s = s.
Proof.
  destruct s as [|a r]; simpl; [reflexivity|].
  intros H. apply andb_true_iff in H as [Ha _].
  apply negb_true_iff in Ha. rewrite Ha. reflexivity.
Qed.

(** Stripping leaves a text without white space as it is. *)
Lemma strip_no_space (s : string) :
  all_chars (fun a => negb (is_space a)) s = true -> strip s = s.
Proof.
  intros H. unfold strip. rewrite (lstrip_no_space s H).
  rewrite lstrip_no_space; [apply string_rev_involutive|].
  apply all_chars_rev_app; [exact H|reflexivity].
Qed.

Lemma all_chars_impl (t1 t2 : ascii -> bool) (s : string) :
  (forall a, t1 a = true -> t2 a = true) ->
  all_chars t1 s = true -> all_chars t2 s = true.
Proof.
  intros Himp. induction s as [|a r IH]; simpl; [auto|].
  intros H. apply andb_true_iff in H as [Ha Hr].
  rewrite (Himp a Ha), (IH Hr). reflexivity.
Qed.

Lemma all_chars_app (test : ascii -> bool) (s1 s2 : string) :
  all_chars test (s1 ++ s2)%string = (all_chars test s1 && all_chars test s2)%bool.
Proof.
  induction s1 as [|a r IH]; simpl; [reflexivity|].
  rewrite IH, andb_assoc. reflexivity.
Qed.

Lemma digit_of_range (a : ascii) (d : Z) :
  digit_of a = Some d -> 48 <= nat_of_ascii a <= 57 /\ d = Z.of_nat (nat_of_ascii a - 48).
Proof.
  unfold digit_of.
  destruct (Nat.leb 48 (nat_of_ascii a)) eqn:E1; simpl; [|discriminate].
  destruct (Nat.leb (nat_of_ascii a) 57) eqn:E2; simpl; [|discriminate].
  intros [= <-]. apply Nat.leb_le in E1, E2. auto.
Qed.

Lemma is_digit_not_space (a : ascii) : is_digit a = true -> negb (is_space a) = true.
Proof.
  unfold is_digit. destruct (digit_of a) as [d|] eqn:E; [|discriminate]. intros _.
  apply digit_of_range in E as [[H1 H2] _].
  unfold is_space. apply negb_true_iff.
  destruct (Nat.leb_spec 9 (nat_of_ascii a)), (Nat.leb_spec (nat_of_ascii a) 13),
           (Nat.eqb_spec (nat_of_ascii a) 32);
    simpl; try reflexivity; lia.
Qed.

(** A digit is an ASCII character: bringing a text of digits to ASCII
    leaves it as it is. *)
Lemma is_digit_ascii (a : ascii) :
  is_digit a = true ->
  (N_of_ascii a <? 128)%N = true /\ ascii_of_char (N_of_ascii a) = Some a.
Proof.
  intros Hd.
  destruct a as [[] [] [] [] [] [] [] []]; try discriminate Hd; split; reflexivity.
Qed.

Lemma to_ascii_digits (s : string) :
  all_chars is_digit s = true -> to_ascii s = Some s.
Proof.
  intros H. unfold to_ascii.
  assert (Hdec : utf8_decode s = Some (map N_of_ascii (list_ascii_of_string s))).
  { induction s as [|a r IH]; [reflexivity|].
    cbn [all_chars] in H. apply andb_true_iff in H as [Ha Hr].
    destruct (is_digit_ascii a Ha) as [Hlt _].
    cbn [utf8_decode]. cbv zeta. rewrite Hlt, (IH Hr). reflexivity. }
  rewrite Hdec. cbn [mbind option_bind].
  assert (Hmap : mapM ascii_of_char (map N_of_ascii (list_ascii_of_string s))
                 = Some (list_ascii_of_string s)).
  { clear Hdec. apply mapM_Some. induction s as [|a r IH]; [constructor|].
    cbn [all_chars] in H. apply andb_true_iff in H as [Ha Hr].
    destruct (is_digit_ascii a Ha) as [_ Hc].
    cbn [list_ascii_of_string map]. constructor; [exact Hc|exact (IH Hr)]. }
  rewrite Hmap. cbn [mbind option_bind].
  rewrite string_of_list_ascii_of_string. reflexivity.
Qed.

(** The decimal text of a number parses back to the number, from any
    accumulator. *)
Lemma parse_digits_of_uint (d : Decimal.uint) (acc : nat) :
  parse_digits (NilEmpty.string_of_uint d) (Z.of_nat acc)
  = Some (Z.of_nat (Nat.of_uint_acc d acc)).
Proof.
  revert acc. induction d as [|d IH|d IH|d IH|d IH|d IH|d IH|d IH|d IH|d IH|d IH];
    intros acc; simpl; [reflexivity|..];
    rewrite Nat.tail_mul_spec;
    match goal with
    | |- parse_digits _ ?z = Some (Z.of_nat (Nat.of_uint_acc _ ?n)) =>
        replace z with (Z.of_nat n) by lia
    end; apply IH.
Qed.

Lemma all_digits_of_uint (d : Decimal.uint) :
  all_chars is_digit (NilEmpty.string_of_uint d) = true.
Proof.
  induction d; simpl; try reflexivity; exact IHd.
Qed.

Lemma str_nat_digits (n : nat) :
  all_chars is_digit (str_nat n) = true /\ str_nat n <> EmptyString /\
  parse_digits (str_nat n) 0 = Some (Z.of_nat n).
Proof.
  unfold str_nat, NilZero.string_of_uint.
  pose proof (DecimalNat.Unsigned.of_to n) as Hn. unfold Nat.of_uint in Hn.
  pose proof (parse_digits_of_uint (Nat.to_uint n) 0) as Hp. rewrite Hn in Hp.
  pose proof (all_digits_of_uint (Nat.to_uint n)) as Ha.
  destruct (Nat.to_uint n) as [|d|d|d|d|d|d|d|d|d|d].
  1: { simpl in Hn. subst n. repeat split; discriminate || reflexivity. }
  all: split; [exact Ha|split; [discriminate|exact Hp]].
Qed.

Lemma parse_digits_zero_pad (pad s : string) :
  all_chars (Ascii.eqb "0") pad = true ->
  parse_digits (pad ++ s)%string 0 = parse_digits s 0.
Proof.
  induction pad as [|a r IH]; cbn [all_chars String.append]; [reflexivity|].
  intros H. apply andb_true_iff in H as [Ha Hr].
  apply Ascii.eqb_eq in Ha. subst a. simpl. apply IH. exact Hr.
Qed.

Lemma py_int_sign_free (a : ascii) (r : string) :
  all_chars is_digit (String a r) = true ->
  py_int (String a r) = parse_digits (String a r) 0.
Proof.
  intros Hd. unfold py_int. rewrite (to_ascii_digits _ Hd). cbn [mbind option_bind].
  rewrite strip_no_space
    by (eapply all_chars_impl; [apply is_digit_not_space|exact Hd]).
  cbn [all_chars] in Hd. apply andb_true_iff in Hd as [Ha _].
  destruct a as [[] [] [] [] [] [] [] []]; try discriminate Ha; reflexivity.
Qed.

(** [int] reads a zero-padded decimal number back. *)
Lemma py_int_zero_padded (pad : string) (n : nat) :
  all_chars (Ascii.eqb "0") pad = true ->
  py_int (pad ++ str_nat n)%string = Some (Z.of_nat n).
Proof.
  intros Hpad.
  destruct (str_nat_digits n) as (Hdig & Hne & Hparse).
  assert (Hpd : all_chars is_digit pad = true).
  { eapply all_chars_impl; [|exact Hpad].
    intros a Ha. apply Ascii.eqb_eq in Ha. subst a. reflexivity. }
  assert (Hall : all_chars is_digit (pad ++ str_nat n)%string = true)
    by (rewrite all_chars_app, Hpd, Hdig; reflexivity).
  destruct (pad ++ str_nat n)%string as [|a r] eqn:E.
  - destruct pad; [|discriminate]. simpl in E. contradiction.
  - rewrite py_int_sign_free by exact Hall.
    rewrite <- E, parse_digits_zero_pad by exact Hpad. exact Hparse.
Qed.

Lemma last_app_nonempty {A} (l st : list A) (d : A) :
  st <> [] -> List.last (l ++ st) d = List.last st d.
Proof.
  intros Hst. induction l as [|x l IH]; [reflexivity|].
  simpl. destruct (l ++ st) eqn:E; [|exact IH].
  destruct l; [simpl in E; contradiction|discriminate].
Qed.

Lemma split_char_nonempty (c : ascii) (s : string) : split_char c s <> [].
Proof.
  destruct s as [|a r]; simpl; [discriminate|].
  destruct (Ascii.eqb a c); [discriminate|]. destruct (split_char c r); discriminate.
Qed.

Lemma split_char_no_sep (c : ascii) (t : string) :
  all_chars (fun a => negb (Ascii.eqb a c)) t = true -> split_char c t = [t].
Proof.
  induction t as [|a r IH]; simpl; [reflexivity|].
  intros H. apply andb_true_iff in H as [Ha Hr]. apply negb_true_iff in Ha.
  rewrite Ha, (IH Hr). reflexivity.
Qed.

Lemma split_char_app_sep (c : ascii) (p t : string) :
  exists x l, split_char c (p ++ String c t)%string = x :: l ++ split_char c t.
Proof.
  induction p as [|a r (x & l & IH)]; cbn [String.append split_char].
  - rewrite Ascii.eqb_refl. exists EmptyString, []. reflexivity.
  - rewrite IH. destruct (Ascii.eqb a c).
    + exists EmptyString, (x :: l). reflexivity.
    + exists (String a x), l. reflexivity.
Qed.

(** The text after the last separator. *)
Lemma last_segment_after_sep (c : ascii) (p t : string) :
  all_chars (fun a => negb (Ascii.eqb a c)) t = true ->
  last_segment c (p ++ String c t)%string = t.
Proof.
  intros Ht. unfold last_segment.
  destruct (split_char_app_sep c p t) as (x & l & ->).
  rewrite (split_char_no_sep c t Ht).
  change (x :: l ++ [t]) with ((x :: l) ++ [t]).
  apply last_last.
Qed.

(** The text before the extension. *)
Lemma before_first_prefix (ds tail : string) :
  String.prefix ".jpg" tail = true ->
  all_chars (fun a => negb (Ascii.eqb a ".")) ds = true ->
  before_first ".jpg" (ds ++ tail)%string = ds.
Proof.
  intros Ht. induction ds as [|a r IH]; cbn [all_chars String.append].
  - intros _. destruct tail as [|b tl]; [reflexivity|].
    cbn [before_first]. rewrite Ht. reflexivity.
  - intros H. apply andb_true_iff in H as [Ha Hr]. apply negb_true_iff in Ha.
    cbn [before_first]. rewrite (IH Hr).
    assert (Hp : String.prefix ".jpg" (String a (r ++ tail)%string) = false).
    { cbn [String.prefix]. destruct (ascii_dec "." a) as [<-|_]; [|reflexivity].
      rewrite Ascii.eqb_refl in Ha. discriminate. }
    rewrite Hp. reflexivity.
Qed.

Lemma is_digit_chars (c : ascii) (s : string) :
  is_digit c = false -> all_chars is_digit s = true ->
  all_chars (fun a => negb (Ascii.eqb a c)) s = true.
Proof.
  intros Hc. apply all_chars_impl. intros a Ha. apply negb_true_iff.
  destruct (Ascii.eqb a c) eqn:E; [|reflexivity].
  apply Ascii.eqb_eq in E. subst a. congruence.
Qed.

(** X20. The key of a frame named [<prefix>_<number>.jpg], the number padded
    with zeros: the decimal text of the number minus one, so that frame
    number zero has the key ["-1"]. *)
Theorem frame_key_zero_padded (prefix pad : string) (n : nat) :
  all_chars (Ascii.eqb "0") pad = true ->
  frame_key (prefix ++ "_" ++ (pad ++ str_nat n) ++ ".jpg")%string
  = Some (str_Z (Z.of_nat n - 1)).
Proof.
  intros Hpad.
  destruct (str_nat_digits n) as (Hdig & _ & _).
  assert (Hall : all_chars is_digit (pad ++ str_nat n)%string = true).
  { rewrite all_chars_app, Hdig, andb_true_r.
    eapply all_chars_impl; [|exact Hpad].
    intros a Ha. apply Ascii.eqb_eq in Ha. subst a. reflexivity. }
  unfold frame_key.
  change (prefix ++ "_" ++ (pad ++ str_nat n) ++ ".jpg")%string
    with (prefix ++ String "_" ((pad ++ str_nat n) ++ ".jpg"))%string.
  rewrite last_segment_after_sep.
  - rewrite before_first_prefix;
      [|reflexivity|apply is_digit_chars; [reflexivity|exact Hall]].
    rewrite (py_int_zero_padded pad n Hpad). reflexivity.
  - rewrite all_chars_app. rewrite (is_digit_chars "_" _ eq_refl Hall). reflexivity.
Qed.

Lemma frame_key_zero_padded_witness :
  all_chars (Ascii.eqb "0") "000" = true /\
  frame_key ("frame" ++ "_" ++ ("000" ++ str_nat 42) ++ ".jpg")%string = Some "41".
Proof.
  split; [reflexivity|].
  exact (frame_key_zero_padded "frame" "000" 42 eq_refl).
Defined.

(** [int] reads the decimal digits of every script and strips the
    white space that Python strips, no more: the name [frame_NN.jpg] with
    [NN] the Arabic-Indic digits four and two (bytes 217 164, 217 162) has
    the key 41, and with the control character 28 before [42] the name has
    no key. *)
Lemma frame_key_beyond_ascii :
  frame_key (text_of_bytes [102; 114; 97; 109; 101; 95; 217; 164; 217; 162;
                            46; 106; 112; 103]) = Some "41" /\
  frame_key (text_of_bytes [102; 114; 97; 109; 101; 95; 28; 52; 50;
                            46; 106; 112; 103]) = None.
Proof. split; vm_compute; reflexivity. Qed.

(** ** eval_gt_lerfdata: what makes it raise *)

Section GroundTruthErrors.

Variable polygon_to_mask : nat * nat -> list (list Q) -> tensor bool.
Variable stack_mask : tensor bool -> tensor bool -> tensor bool.
Variable ouput_path : string.

Lemma entry_step_divisible h w a q a1 :
  entry_step polygon_to_mask stack_mask h w (Some a) q = Some a1 ->
  numel (shape (bboxes a)) mod 4 = 0 /\ numel (shape (bbox q)) mod 4 = 0.
Proof.
  unfold entry_step, reshape_m1_4, reshape_flat. simpl. rewrite Nat.mul_1_r.
  destruct (decide (numel (shape (bboxes a)) mod 4 = 0)) as [Ha|];
    [|simpl; discriminate].
  destruct (decide (numel (shape (bbox q)) mod 4 = 0)) as [Hq|];
    [|simpl; discriminate].
  auto.
Qed.

Lemma entry_fold_divisible h w rest : forall a e',
  entry_fold polygon_to_mask stack_mask h w (Some a) rest = Some e' ->
  rest <> [] ->
  numel (shape (bboxes a)) mod 4 = 0 /\
  Forall (fun q => numel (shape (bbox q)) mod 4 = 0) rest.
Proof.
  induction rest as [|q r IH]; intros a e' H Hne; [contradiction|].
  cbn [entry_fold] in H.
  destruct (entry_step polygon_to_mask stack_mask h w (Some a) q) as [a1|] eqn:Es;
    [|discriminate].
  cbn [mbind option_bind] in H.
  destruct (entry_step_divisible _ _ _ _ _ Es) as [Ha Hq].
  split; [exact Ha|]. constructor; [exact Hq|].
  destruct r as [|q' r']; [constructor|].
  apply IH in H as [_ H]; [exact H|discriminate].
Qed.

Lemma gt_loop_files files : forall gt_ann hw s res s',
  gt_loop polygon_to_mask stack_mask ouput_path files gt_ann hw s = Some (res, s') ->
  Forall (fun f => is_Some (frame_key (info_name f)) /\
            exists s1 r s2,
              add_objects polygon_to_mask stack_mask (info_height f) (info_width f)
                (info_name f) ouput_path [] (objects f) s1 = Some (r, s2)) files.
Proof.
  induction files as [|f r IH]; intros gt_ann hw s res s' H; [constructor|].
  simpl in H.
  apply bind_Some in H as (key & s0 & Hkey & H). apply lift_Some in Hkey as [Hkey ->].
  apply bind_Some in H as (img_ann & s1 & Hobj & H).
  constructor; [|eapply IH; exact H].
  split; [eauto|]. exists s, img_ann, s1. exact Hobj.
Qed.

(** X17. [eval_gt_lerfdata] raises as soon as one file has a frame name
    without a key (the text between its last underscore and [.jpg] is not
    a number for [int]), or a label that occurs more than once with a box
    that is not a multiple of four numbers. *)
Theorem eval_gt_lerfdata_raises gt_json img_paths s f :
  f ∈ gt_json ->
  frame_key (info_name f) = None \/
  (exists label p q rest,
     occurrences label (objects f) = p :: q :: rest /\
     ~ Forall (fun x => numel (shape (bbox x)) mod 4 = 0) (p :: q :: rest)) ->
  eval_gt_lerfdata polygon_to_mask stack_mask gt_json img_paths ouput_path s = None.
Proof.
  intros Hf Hbad.
  destruct (eval_gt_lerfdata polygon_to_mask stack_mask gt_json img_paths ouput_path s)
    as [[res s']|] eqn:E; [|reflexivity].
  exfalso. unfold eval_gt_lerfdata in E.
  apply bind_Some in E as ([ga hw0] & s0 & Hloop & _).
  apply gt_loop_files in Hloop.
  rewrite Forall_forall in Hloop. destruct (Hloop f Hf) as [[key Hkey] (s1 & r & s2 & Hobj)].
  destruct Hbad as [Hnone|(label & p & q & rest & Hocc & Hnot)]; [congruence|].
  apply add_objects_Some in Hobj as (Hfold & _).
  specialize (Hfold label). rewrite Hocc in Hfold.
  change (dict_get [] label) with (@None ann) in Hfold.
  change (entry_fold polygon_to_mask stack_mask (info_height f) (info_width f)
            None (p :: q :: rest))
    with (entry_fold polygon_to_mask stack_mask (info_height f) (info_width f)
            (Some (MkAnn (reshape_flat (bbox p))
                         (polygon_to_mask (info_height f, info_width f) (segmentation p))))
            (q :: rest)) in Hfold.
  apply entry_fold_divisible in Hfold as [Hp Hrest]; [|discriminate].
  simpl in Hp. rewrite Nat.mul_1_r in Hp.
  apply Hnot. constructor; assumption.
Qed.

End GroundTruthErrors.

Lemma eval_gt_lerfdata_raises_witness :
  MkGtData 2 3 "frame.jpg" [] ∈ [sample_gt; MkGtData 2 3 "frame.jpg" []] /\
  frame_key "frame.jpg" = None /\
  eval_gt_lerfdata sample_polygon_to_mask sample_stack_mask
                   [sample_gt; MkGtData 2 3 "frame.jpg" []] [] "out" sample_state = None.
Proof.
  assert (Hin : MkGtData 2 3 "frame.jpg" [] ∈ [sample_gt; MkGtData 2 3 "frame.jpg" []])
    by (right; left).
  split; [exact Hin|]. split; [reflexivity|].
  apply (eval_gt_lerfdata_raises sample_polygon_to_mask sample_stack_mask "out"
           [sample_gt; MkGtData 2 3 "frame.jpg" []] [] sample_state
           (MkGtData 2 3 "frame.jpg" []) Hin).
  left. reflexivity.
Defined.

(** ** Masks that keep everything or nothing *)

Lemma select_chunks_all_true {A} (c : nat) (m : list bool) (d : list A) :
  Forall (fun b => b = true) m -> length d = length m * c ->
  select_chunks c m d = d.
Proof.
  intros Hm. revert d. induction Hm as [|b m -> _ IH]; intros d Hd; simpl in *.
  - destruct d; [reflexivity|discriminate].
  - rewrite IH by (rewrite length_drop; lia). apply take_drop.
Qed.

Lemma select_chunks_all_false {A} (c : nat) (m : list bool) (d : list A) :
  Forall (fun b => b = false) m -> select_chunks c m d = [].
Proof.
  intros Hm. revert d. induction Hm as [|b m -> _ IH]; intros d; simpl; auto.
Qed.

Lemma count_true_all_true (m : list bool) :
  Forall (fun b => b = true) m -> count_true m = length m.
Proof.
  induction 1 as [|b m -> _ IH]; [reflexivity|].
  rewrite count_true_cons, IH. reflexivity.
Qed.

Lemma count_true_all_false (m : list bool) :
  Forall (fun b => b = false) m -> count_true m = 0.
Proof.
  induction 1 as [|b m -> _ IH]; [reflexivity|].
  rewrite count_true_cons, IH. reflexivity.
Qed.

(** Indexing by a one-dimensional mask of [h] set bits returns the
    tensor itself. *)
Lemma index_mask_all_true {A} (t : tensor A) (m : tensor bool) (h : nat) :
  wf_tensor t -> dim0 t = Some h ->
  shape m = [h] -> length (data m) = h -> Forall (fun b => b = true) (data m) ->
  index_mask t m = Some t.
Proof.
  intros Hwf Hd Hs Hl Hall. unfold index_mask. rewrite Hs. simpl.
  destruct t as [sh d]. unfold dim0, wf_tensor in *. simpl in *.
  destruct sh as [|n r]; [discriminate|]. injection Hd as ->. simpl in *.
  rewrite take_0, decide_True by reflexivity. simpl. rewrite drop_0.
  rewrite count_true_all_true, Hl by exact Hall.
  rewrite select_chunks_all_true; [reflexivity|exact Hall|]. rewrite Hl. exact Hwf.
Qed.

(** Indexing by a mask without a set bit returns no row. *)
Lemma index_mask_all_false {A} (t : tensor A) (m : tensor bool) (h : nat) :
  dim0 t = Some h -> shape m = [h] -> Forall (fun b => b = false) (data m) ->
  index_mask t m = Some (Tensor (0 :: tail (shape t)) []).
Proof.
  intros Hd Hs Hall. unfold index_mask. rewrite Hs. simpl.
  unfold dim0 in Hd. destruct (shape t) as [|n r]; [discriminate|].
  injection Hd as ->. simpl.
  rewrite take_0, decide_True by reflexivity. simpl. rewrite drop_0.
  rewrite count_true_all_false, select_chunks_all_false by exact Hall. reflexivity.
Qed.

(** X1. A query that every Gaussian answers above the threshold excludes
    nothing: the masked model is the model itself.  A query that none
    answers above the threshold leaves a model without Gaussians. *)
Theorem exclusion_keeps_all_or_nothing (rel : tensor Q) (g : GaussianModel) (h : nat) :
  shape rel = [h; 1] -> h <> 1 -> length (data rel) = h ->
  Forall (fun t => wf_tensor t /\ dim0 t = Some h) (attributes g) ->
  (Forall (fun x => (65 # 100 < x)%Q) (data rel) ->
   masked_model g (exclusion_mask rel) = Some g) /\
  (Forall (fun x => (x <= 65 # 100)%Q) (data rel) ->
   exists g', masked_model g (exclusion_mask rel) = Some g' /\
     Forall (fun t => dim0 t = Some 0 /\ data t = []) (attributes g')).
Proof.
  intros Hs Hh Hl Hattr.
  pose proof (exclusion_mask_shape rel h Hs Hh) as Hms.
  assert (Hml : length (data (exclusion_mask rel)) = h)
    by (simpl; rewrite length_map; exact Hl).
  split; intros Hall.
  - assert (Htrue : Forall (fun b => b = true) (data (exclusion_mask rel))).
    { simpl. apply Forall_fmap. eapply Forall_impl; [exact Hall|].
      intros x Hx. apply Qgtb_spec. exact Hx. }
    apply masked_model_attributes.
    destruct g as [a1 a2 a3 a4 a5 a6 a7 a8]. unfold attributes in *. simpl in *.
    repeat match goal with
    | H : Forall _ (_ :: _) |- _ => apply Forall_cons_1 in H; destruct H as [[? ?] H]
    end.
    repeat constructor; apply (index_mask_all_true _ _ h); assumption.
  - assert (Hfalse : Forall (fun b => b = false) (data (exclusion_mask rel))).
    { simpl. apply Forall_fmap. eapply Forall_impl; [exact Hall|].
      intros x Hx. apply Qgtb_false. exact Hx. }
    destruct g as [a1 a2 a3 a4 a5 a6 a7 a8]. unfold attributes in *. simpl in *.
    repeat match goal with
    | H : Forall _ (_ :: _) |- _ => apply Forall_cons_1 in H; destruct H as [[? ?] H]
    end.
    eexists. split.
    + unfold masked_model. simpl.
      repeat (erewrite index_mask_all_false by eassumption; simpl). reflexivity.
    + simpl. repeat constructor.
Qed.

Lemma exclusion_keeps_all_or_nothing_witness :
  masked_model sample_gaussians (exclusion_mask (Tensor [3; 1] [7 # 10; 8 # 10; 9 # 10]%Q))
  = Some sample_gaussians.
Proof.
  apply (exclusion_keeps_all_or_nothing (Tensor [3; 1] [7 # 10; 8 # 10; 9 # 10]%Q)
           sample_gaussians 3).
  - reflexivity.
  - discriminate.
  - reflexivity.
  - repeat constructor.
  - repeat constructor.
Defined.

(** ** Indexing by a mask, row by row *)

Lemma select_chunks_rows {A} (c : nat) (m : list bool) : forall rows : list (list A),
  Forall (fun r => length r = c) rows -> length m = length rows ->
  select_chunks c m (concat rows) = concat (keep_rows m rows).
Proof.
  induction m as [|b m IH]; intros rows Hr Hl; [reflexivity|].
  destruct rows as [|r rows]; [discriminate|].
  apply Forall_cons_1 in Hr as [Hc Hr]. simpl in *.
  rewrite drop_app_length' by (symmetry; exact Hc).
  rewrite IH by (try assumption; lia).
  destruct b; simpl; [|reflexivity].
  rewrite take_app_length' by (symmetry; exact Hc). reflexivity.
Qed.

(** X2. A tensor seen as a list of rows: indexing by a one-dimensional mask
    keeps exactly the rows whose bit is set, in their order, and the
    first dimension of the result is the number of set bits. *)
Theorem index_mask_keeps_marked_rows {A} (rows : list (list A)) (m : list bool)
    (s : list nat) :
  Forall (fun r => length r = numel s) rows -> length m = length rows ->
  index_mask (Tensor (length rows :: s) (concat rows)) (Tensor [length rows] m)
  = Some (Tensor (count_true m :: s) (concat (keep_rows m rows))) /\
  length (keep_rows m rows) = count_true m.
Proof.
  intros Hr Hl. split.
  - unfold index_mask. simpl. rewrite take_0, decide_True by reflexivity.
    simpl. rewrite drop_0, select_chunks_rows by assumption. reflexivity.
  - clear Hr. revert rows Hl. induction m as [|b m IH]; intros rows Hl; [reflexivity|].
    destruct rows as [|r rows]; [discriminate|]. simpl in Hl.
    rewrite count_true_cons. destruct b; simpl; rewrite IH by lia; reflexivity.
Qed.

Lemma index_mask_keeps_marked_rows_witness :
  index_mask (Tensor [3; 2] [1; 2; 3; 4; 5; 6]) (Tensor [3] [true; false; true])
  = Some (Tensor [2; 2] [1; 2; 5; 6]).
Proof.
  exact (proj1 (index_mask_keeps_marked_rows [[1; 2]; [3; 4]; [5; 6]] [true; false; true]
                  [2] ltac:(repeat constructor) eq_refl)).
Defined.

Lemma index_mask_wf_witness :
  wf_tensor (Tensor [3; 2] [1; 2; 3; 4; 5; 6]) /\
  wf_tensor (Tensor [3] [true; false; true]) /\
  wf_tensor (Tensor [2; 2] [1; 2; 5; 6]).
Proof.
  assert (H1 : wf_tensor (Tensor [3; 2] [1; 2; 3; 4; 5; 6])) by reflexivity.
  assert (H2 : wf_tensor (Tensor [3] [true; false; true])) by reflexivity.
  split; [exact H1|]. split; [exact H2|].
  exact (index_mask_wf _ _ _ H1 H2 eq_refl).
Defined.

Lemma restore_feat_empty_witness :
  shape (Tensor [3; 0; 1; 3] (@nil Q)) = [3; 0; 1; 3] /\ 3 * 0 * 1 = 0 /\
  restore_feat sample_decode (Tensor [3; 0; 1; 3] []) = None.
Proof.
  split; [reflexivity|]. split; [reflexivity|].
  exact (restore_feat_empty sample_decode (Tensor [3; 0; 1; 3] []) 3 0 1 3 eq_refl eq_refl).
Defined.

(** ** When a run of activate_stream returns *)

Section ReturnConditions.

Variable colormap_saving : tensor Q -> option ColormapOptions -> tensor Q.
Variable get_max_across : ClipModel -> tensor Q -> tensor Q.

Variables (sem_map : tensor Q) (clip_model : ClipModel) (point_xyz : tensor Q).
Variables (output_path : string) (index : nat) (thresh : Q).
Variable colormap_options : option ColormapOptions.

Let valid_map := get_max_across clip_model sem_map.

(** X4. In mask mode the run returns exactly when the relevance map has four
    dimensions and, unless there is no head, every prompt of the map has
    a name in [clip_model.positives]. *)
Theorem mask_mode_returns_iff s :
  (exists s',
     activate_stream colormap_saving get_max_across sem_map clip_model point_xyz
       output_path true index None thresh colormap_options s = Some (tt, s')) <->
  exists n_head n_prompt h w,
    shape valid_map = [n_head; n_prompt; h; w] /\
    (n_head = 0 \/ n_prompt <= length (positives clip_model)).
Proof.
  split.
  - intros [s' Hrun].
    destruct (activate_stream_shape _ _ _ _ _ _ _ _ _ _ _ _ _ Hrun)
      as (n_head & n_prompt & h & w & Hshape).
    exists n_head, n_prompt, h, w. split; [exact Hshape|].
    destruct n_head as [|n]; [left; reflexivity|right].
    destruct (activate_stream_branch_events _ _ _ _ _ _ _ _ _ _ _ _ _ _ _ _ _
                Hshape Hrun) as (_ & _ & new & _ & Hall & _).
    destruct (le_lt_dec n_prompt (length (positives clip_model))) as [Hle|Hlt];
      [exact Hle|exfalso].
    destruct (Hall (length (positives clip_model)) 0 Hlt (Nat.lt_0_succ n))
      as (es & (rel & pos & _ & Hp & _) & _).
    apply lookup_lt_Some in Hp. lia.
  - intros (n_head & n_prompt & h & w & Hshape & Hcond).
    apply (activate_stream_total _ _ _ _ _ _ _ _ _ _ _ (fun _ => True)
             n_head n_prompt h w); [exact Hshape|auto| |exact Logic.I].
    intros k i s1 Hk Hi _.
    destruct Hcond as [->|Hpos]; [lia|].
    destruct (relevance_Some _ _ _ _ _ _ _ Hshape Hi Hk) as (rel & Hrel & _).
    destruct (lookup_lt_is_Some_2 (positives clip_model) k) as [pos Hp]; [lia|].
    eexists. split; [|exact Logic.I].
    unfold stream_body. fold valid_map. unfold bind, lift. rewrite Hrel, Hp. reflexivity.
Qed.

(** X5. Without a list of Gaussians and without [generate_mask] the colours
    are reshaped to one row per first index, so the run only returns on a
    relevance map of one column (or without rows, heads or prompts): on
    a rendered image of several columns it raises. *)
Theorem full_cloud_returns_iff n_head n_prompt h w s :
  (forall t o sh, shape t = sh ++ [1] -> shape (colormap_saving t o) = sh ++ [3]) ->
  shape valid_map = [n_head; n_prompt; h; w] ->
  (exists s',
     activate_stream colormap_saving get_max_across sem_map clip_model point_xyz
       output_path false index None thresh colormap_options s = Some (tt, s')) <->
  (n_head = 0 \/ n_prompt = 0 \/
   ((h = 0 \/ w = 1) /\ n_prompt <= length (positives clip_model))).
Proof.
  intros Hcm Hshape.
  assert (Hrows : forall rel, shape rel = [h; w] ->
            (is_Some (reshape_rows3 (colormap_saving (unsqueeze_last rel) colormap_options))
             <-> h = 0 \/ w = 1)).
  { intros rel Hrs.
    assert (Hs : shape (colormap_saving (unsqueeze_last rel) colormap_options) = [h; w; 3]).
    { apply (Hcm _ _ [h; w]). simpl. rewrite Hrs. reflexivity. }
    unfold reshape_rows3. rewrite Hs. simpl.
    destruct (decide (h * (w * 3) = h * 3)) as [E|E].
    - split; [intros _; nia|eauto].
    - split; [intros [? ?]; discriminate|]. intros [->| ->]; exfalso; apply E; lia. }
  split.
  - intros [s' Hrun].
    destruct n_head as [|nh]; [left; reflexivity|right].
    destruct n_prompt as [|np]; [left; reflexivity|right].
    destruct (activate_stream_branch_events _ _ _ _ _ _ _ _ _ _ _ _ _ _ _ _ _
                Hshape Hrun) as (_ & _ & new & _ & Hall & _).
    split.
    + destruct (Hall 0 0 (Nat.lt_0_succ np) (Nat.lt_0_succ nh))
        as (es & (rel & pos & Hrel & _ & cols & Hcols & _) & _).
      destruct (relevance_Some _ _ _ _ _ 0 0 Hshape (Nat.lt_0_succ nh) (Nat.lt_0_succ np))
        as (rel' & Hrel' & Hrs).
      fold valid_map in Hrel, Hrel'. rewrite Hrel in Hrel'. injection Hrel' as <-.
      apply (Hrows rel Hrs). eauto.
    + destruct (le_lt_dec (S np) (length (positives clip_model))) as [Hle|Hlt];
        [exact Hle|exfalso].
      destruct (Hall (length (positives clip_model)) 0 Hlt (Nat.lt_0_succ nh))
        as (es & (rel & pos & _ & Hp & _) & _).
      apply lookup_lt_Some in Hp. lia.
  - intros Hcond.
    apply (activate_stream_total _ _ _ _ _ _ _ _ _ _ _ (fun _ => True)
             n_head n_prompt h w); [exact Hshape|auto| |exact Logic.I].
    intros k i s1 Hk Hi _.
    destruct Hcond as [->|[->|[Hhw Hpos]]]; [lia|lia|].
    destruct (relevance_Some _ _ _ _ _ _ _ Hshape Hi Hk) as (rel & Hrel & Hrs).
    destruct (lookup_lt_is_Some_2 (positives clip_model) k) as [pos Hp]; [lia|].
    destruct (proj2 (Hrows rel Hrs) Hhw) as [cols Hcols].
    eexists. split; [|exact Logic.I].
    unfold stream_body. fold valid_map. unfold bind, lift.
    rewrite Hrel, Hcols, Hp. reflexivity.
Qed.

End ReturnConditions.

Lemma full_cloud_returns_iff_witness :
  exists s',
    activate_stream sample_colormap sample_relevance_given sample_valid_map sample_clip
      sample_point_xyz "out/scene" false 0 None (1 # 2) None sample_state = Some (tt, s').
Proof.
  apply (proj2 (full_cloud_returns_iff sample_colormap sample_relevance_given
                  sample_valid_map sample_clip sample_point_xyz "out/scene" 0 (1 # 2) None
                  1 1 3 1 sample_state sample_colormap_shape eq_refl)).
  right. right. split; [right; reflexivity|simpl; lia].
Defined.


(** ** The order of the corners *)

Lemma Qle_bool_py_min (a b v : Q) : Qle_bool (py_min a b) v = Qle_bool (py_min b a) v.
Proof.
  apply eq_true_iff_eq. rewrite !Qle_bool_iff, !py_min_le, !Q.min_le_iff. tauto.
Qed.

Lemma Qle_bool_py_max (a b v : Q) : Qle_bool v (py_max a b) = Qle_bool v (py_max b a).
Proof.
  apply eq_true_iff_eq. rewrite !Qle_bool_iff, !py_max_ge, !Q.max_le_iff. tauto.
Qed.

Lemma in_box_corner_order x1 y1 x2 y2 cord :
  in_box (py_min x2 x1) (py_max x2 x1) (py_min y2 y1) (py_max y2 y1) cord
  = in_box (py_min x1 x2) (py_max x1 x2) (py_min y1 y2) (py_max y1 y2) cord.
Proof.
  unfold in_box. destruct (cord !! 0) as [c0|]; [|reflexivity]. simpl.
  rewrite (Qle_bool_py_min x2 x1), (Qle_bool_py_max x2 x1).
  destruct (_ && _)%bool; [|reflexivity].
  destruct (cord !! 1) as [c1|]; [|reflexivity]. simpl.
  rewrite (Qle_bool_py_min y2 y1), (Qle_bool_py_max y2 y1). reflexivity.
Qed.

Lemma scan_coords_corner_order x1 y1 x2 y2 coord_final acc_num :
  scan_coords (py_min x2 x1) (py_max x2 x1) (py_min y2 y1) (py_max y2 y1)
              coord_final acc_num
  = scan_coords (py_min x1 x2) (py_max x1 x2) (py_min y1 y2) (py_max y1 y2)
                coord_final acc_num.
Proof.
  induction coord_final as [|cord r IH]; simpl; [reflexivity|].
  rewrite in_box_corner_order, IH. reflexivity.
Qed.

(** X12. The score does not depend on which pair of opposite corners an
    annotation gives for a box. *)
Theorem scan_boxes_corner_order boxes coord_final acc_num :
  scan_boxes (map swap_corners boxes) coord_final acc_num
  = scan_boxes boxes coord_final acc_num.
Proof.
  revert acc_num. induction boxes as [|[[[x1 y1] x2] y2] r IH]; intros acc_num;
    [reflexivity|].
  cbn [map swap_corners scan_boxes].
  rewrite scan_coords_corner_order.
  destruct (scan_coords _ _ _ _ coord_final acc_num) as [[a [|]]|]; [reflexivity| |reflexivity].
  apply IH.
Qed.

(** ** evaluate: the heap and the directories *)

Section EvaluateEffects.

Variable colormap_saving : tensor Q -> option ColormapOptions -> tensor Q.
Variable get_max_across : ClipModel -> tensor Q -> tensor Q.
Variable decode : string -> list nat -> list nat -> tensor Q -> option (tensor Q).
Variable load_features : list string -> option (list Q).

(** X7. [evaluate] never changes or removes a model that was in the heap
    before the call; without a list of Gaussians it allocates nothing. *)
Theorem evaluate_preserves_heap feat_dir output_path ae_ckpt_path generate_mask
    mask_thresh encoder_hidden_dims decoder_hidden_dims compressed_sem_feats
    point_xyz gaussians_list s s' :
  evaluate colormap_saving get_max_across decode load_features feat_dir output_path
    ae_ckpt_path generate_mask mask_thresh encoder_hidden_dims decoder_hidden_dims
    compressed_sem_feats point_xyz gaussians_list s = Some (tt, s') ->
  (forall l g, heap s !! l = Some g -> heap s' !! l = Some g) /\
  (gaussians_list = None -> heap s' = heap s).
Proof.
  intros Hrun. unfold evaluate in Hrun.
  apply bind_Some in Hrun as (feats & s0 & Hfeats & Hrun).
  assert (Hs0 : s0 = s).
  { destruct gaussians_list; [|destruct generate_mask]; inv_run; reflexivity. }
  subst s0. clear Hfeats.
  apply bind_Some in Hrun as (n_frames & s0 & Hn & Hrun).
  apply lift_Some in Hn as [_ ->].
  eapply (for_each_run
            (fun s1 => heap s ⊆ heap s1 /\ (gaussians_list = None -> heap s1 = heap s))
            (fun _ _ => True)) in Hrun as ([Hsub Hsame] & _);
    [| |split; [reflexivity|auto]].
  - split; [|exact Hsame]. intros l g Hl. eapply lookup_weaken; eassumption.
  - intros j s1 s2 _ [Hsub Hsame] Hb.
    apply bind_Some in Hb as (sem_feat & t1 & Hsel & Hb).
    apply lift_Some in Hsel as [_ ->].
    apply bind_Some in Hb as (restored & t1 & Hres & Hb).
    apply lift_Some in Hres as [_ ->].
    apply bind_Some in Hb as ([] & t1 & Hdirs & Hb).
    assert (Ht1 : heap t1 = heap s1).
    { destruct generate_mask.
      - apply makedirs_loop_log in Hdirs as [_ H]. exact H.
      - apply ret_Some in Hdirs as [_ ->]. reflexivity. }
    pose proof Hb as Hshape. apply activate_stream_shape in Hshape
      as (n_head & n_prompt & h & w & Hshape).
    destruct (activate_stream_branch_events _ _ _ _ _ _ _ _ _ _ _ _ _ _ _ _ _
                Hshape Hb) as (Hkeep & Hnone & new & Hlog & _).
    split; [split|].
    + rewrite <- Ht1 in Hsub. etrans; [exact Hsub|].
      apply map_subseteq_spec. exact Hkeep.
    + intros Hg. rewrite (Hnone Hg), Ht1. auto.
    + assert (Hl1 : log t1 = log s1).
      { destruct generate_mask.
        - apply makedirs_loop_log in Hdirs as [H _]. exact H.
        - apply ret_Some in Hdirs as [_ ->]. reflexivity. }
      exists new. rewrite Hlog, Hl1. auto.
Qed.

End EvaluateEffects.

Lemma evaluate_preserves_heap_witness :
  sample_evaluate (4 # 10) sample_state
    = Some (tt, final_state (sample_evaluate (4 # 10)) sample_state) /\
  heap sample_state !! 0 = Some sample_gaussians /\
  heap (final_state (sample_evaluate (4 # 10)) sample_state) !! 0 = Some sample_gaussians.
Proof.
  assert (Hrun : sample_evaluate (4 # 10) sample_state
                 = Some (tt, final_state (sample_evaluate (4 # 10)) sample_state))
    by (vm_compute; reflexivity).
  split; [exact Hrun|]. split; [reflexivity|].
  apply (proj1 (evaluate_preserves_heap
              sample_colormap sample_get_max_across sample_autoencoder (fun _ => None)
              ["feat/scene_1"] "out/scene" "ckpt/best_ckpt.pth" true (4 # 10)
              [256; 128; 64; 32; 3] [16; 32; 64; 128; 256; 256; 512]
              sample_compressed sample_point_xyz (Some [0]) sample_state
              (final_state (sample_evaluate (4 # 10)) sample_state) Hrun)).
  reflexivity.
Defined.

(** ** evaluate: the directories of the masks *)

(** After a loop over a non-empty list, what every pass establishes
    holds. *)
Lemma for_each_post {A} (Q : state -> Prop) (body : A -> M unit) (l : list A) s s' :
  l <> [] ->
  (forall x s1 s2, x ∈ l -> body x s1 = Some (tt, s2) -> Q s2) ->
  for_each l body s = Some (tt, s') -> Q s'.
Proof.
  revert s. induction l as [|x r IH]; intros s Hne Hbody Hrun; [contradiction|].
  simpl in Hrun. apply bind_Some in Hrun as ([] & s1 & Hx & Hr).
  destruct r as [|y r'].
  - simpl in Hr. apply ret_Some in Hr as [_ ->]. eapply Hbody; [left|exact Hx].
  - eapply IH; [discriminate| |exact Hr].
    intros z t1 t2 Hz. apply Hbody. right. exact Hz.
Qed.

Lemma makedirs_inner_dirs {B} (l2 : list B) (g : B -> string) s s' :
  for_each l2 (fun i => makedirs_exist_ok (g i)) s = Some (tt, s') ->
  dirs s ⊆ dirs s' /\ forall i, i ∈ l2 -> g i ∈ dirs s'.
Proof.
  revert s. induction l2 as [|i r IH]; intros s H; simpl in H.
  - apply ret_Some in H as [_ ->]. split; [reflexivity|]. intros i Hi. inversion Hi.
  - apply bind_Some in H as ([] & s1 & Hm & Hr).
    unfold makedirs_exist_ok in Hm. injection Hm as <-.
    apply IH in Hr as [Hsub Hall]. simpl in Hsub. split.
    + intros x Hx. apply Hsub, elem_of_union. right. exact Hx.
    + intros j Hj. apply elem_of_cons in Hj as [->|Hj]; [|auto].
      apply Hsub, elem_of_union. left. apply elem_of_singleton. reflexivity.
Qed.

Lemma makedirs_loop_dirs {A B} (l : list A) (l2 : list B) (f : A -> B -> string) s s' :
  for_each l (fun x => for_each l2 (fun i => makedirs_exist_ok (f x i))) s = Some (tt, s') ->
  dirs s ⊆ dirs s' /\ forall x i, x ∈ l -> i ∈ l2 -> f x i ∈ dirs s'.
Proof.
  revert s. induction l as [|x r IH]; intros s H; simpl in H.
  - apply ret_Some in H as [_ ->]. split; [reflexivity|]. intros x i Hx. inversion Hx.
  - apply bind_Some in H as ([] & s1 & Hx & Hr).
    apply makedirs_inner_dirs in Hx as [Hs1 Hx]. apply IH in Hr as [Hsub Hall].
    split; [intros z Hz; apply Hsub, Hs1, Hz|].
    intros y i Hy Hi. apply elem_of_cons in Hy as [->|Hy]; [|auto].
    apply Hsub, Hx. exact Hi.
Qed.

Section MaskDirectories.

Variable colormap_saving : tensor Q -> option ColormapOptions -> tensor Q.
Variable get_max_across : ClipModel -> tensor Q -> tensor Q.
Variable decode : string -> list nat -> list nat -> tensor Q -> option (tensor Q).
Variable load_features : list string -> option (list Q).

(** A run of [activate_stream] removes no directory. *)
Lemma activate_stream_dirs sem_map clip_model point_xyz output_path generate_mask
    index gaussians_list thresh colormap_options s s' :
  activate_stream colormap_saving get_max_across sem_map clip_model point_xyz
    output_path generate_mask index gaussians_list thresh colormap_options s
    = Some (tt, s') ->
  dirs s ⊆ dirs s'.
Proof.
  unfold activate_stream. intros H.
  apply bind_Some in H as ([[[n_head n_prompt] h] w] & s0 & Hd & H).
  apply lift_Some in Hd as [_ ->].
  eapply (for_each_run (fun s1 => dirs s ⊆ dirs s1) (fun _ _ => True)) in H
    as (Hsub & _); [exact Hsub| |reflexivity].
  intros k s1 s2 _ Hs1 Hb.
  apply bind_Some in Hb as ([] & t1 & Hdir & Hb).
  assert (Ht1 : dirs s ⊆ dirs t1 /\ log t1 = log s1).
  { unfold ensure_dir in Hdir. destruct (decide _); injection Hdir as <-; simpl.
    - auto.
    - split; [set_solver|reflexivity]. }
  destruct Ht1 as [Ht1 Hl1].
  eapply (for_each_run (fun t => dirs s ⊆ dirs t) (fun _ _ => True)) in Hb
    as (Hsub & ess & Hlog & _); [| |exact Ht1].
  - split; [exact Hsub|]. exists (concat ess). rewrite Hlog, Hl1. auto.
  - intros i u1 u2 _ Hu1 Hbody.
    destruct gaussians_list as [gl|]; [|destruct generate_mask].
    + apply stream_body_exclusion in Hbody
        as (? & ? & ? & ? & ? & ? & ? & ? & _ & _ & _ & _ & _ & _ & _ & _ & ->).
      simpl. split; [exact Hu1|]. eexists. auto.
    + apply stream_body_mask in Hbody as (? & ? & _ & _ & ->).
      simpl. split; [exact Hu1|]. eexists. auto.
    + apply stream_body_full in Hbody as (? & ? & ? & _ & _ & _ & ->).
      simpl. split; [exact Hu1|]. eexists. auto.
Qed.

(** X8. A run of [evaluate] with [generate_mask] set that returns after at
    least one frame has made the mask directory of every fixed prompt and
    every level of [feat_dir]; without a list of models, every file it has
    written is a mask image named after its frame, inside the directory of
    one of the fixed prompts. *)
Theorem evaluate_mask_directories feat_dir output_path ae_ckpt_path mask_thresh
    encoder_hidden_dims decoder_hidden_dims compressed_sem_feats point_xyz
    gaussians_list s s' :
  evaluate colormap_saving get_max_across decode load_features feat_dir output_path
    ae_ckpt_path true mask_thresh encoder_hidden_dims decoder_hidden_dims
    compressed_sem_feats point_xyz gaussians_list s = Some (tt, s') ->
  (gaussians_list = None \/ exists n, shape compressed_sem_feats !! 1 = Some (S n)) ->
  (forall prompt i, prompt ∈ img_ann_prompts -> i < length feat_dir ->
     mask_dir output_path prompt i ∈ dirs s') /\
  (gaussians_list = None ->
   exists new, log s' = log s ++ new /\
     forall e, e ∈ new ->
       exists prompt i j img,
         e = SaveImage (path_join (mask_dir output_path prompt i) (str_nat j ++ ".png")%string)
                       img /\
         prompt ∈ img_ann_prompts /\ j < 177).
Proof.
  intros Hrun Hframes. unfold evaluate in Hrun.
  apply bind_Some in Hrun as (feats & s0 & Hfeats & Hrun).
  apply bind_Some in Hrun as (n_frames & s1 & Hn & Hrun).
  apply lift_Some in Hn as [Hn ->].
  assert (Hs0 : s0 = s /\ n_frames <> 0 /\ (gaussians_list = None -> n_frames = 177)).
  { destruct gaussians_list as [gl|].
    - apply ret_Some in Hfeats as [-> ->].
      destruct Hframes as [?|[n Hn']]; [discriminate|].
      rewrite Hn' in Hn. injection Hn as <-. repeat split; [lia|discriminate].
    - apply bind_Some in Hfeats as (d & t & Hload & Hfeats).
      apply lift_Some in Hload as [_ ->]. apply ret_Some in Hfeats as [-> ->].
      injection Hn as <-. repeat split; lia. }
  destruct Hs0 as (-> & Hne & H177). clear Hfeats Hn Hframes.
  match type of Hrun with for_each _ ?b _ = _ => set (body := b) in * end.
  assert (Hbody : forall j s1 s2, body j s1 = Some (tt, s2) ->
    (forall prompt i, prompt ∈ img_ann_prompts -> i < length feat_dir ->
       mask_dir output_path prompt i ∈ dirs s2) /\
    (gaussians_list = None ->
     exists es, log s2 = log s1 ++ es /\
       forall e, e ∈ es ->
         exists prompt i img,
           e = SaveImage (path_join (mask_dir output_path prompt i)
                                    (str_nat j ++ ".png")%string) img /\
           prompt ∈ img_ann_prompts)).
  { intros j s1 s2 Hb. unfold body in Hb.
    apply bind_Some in Hb as (sem_feat & t1 & Hsel & Hb).
    apply lift_Some in Hsel as [_ ->].
    apply bind_Some in Hb as (restored & t1 & Hres & Hb).
    apply lift_Some in Hres as [_ ->].
    apply bind_Some in Hb as ([] & t1 & Hdirs & Hb).
    pose proof Hdirs as Hlog1. apply makedirs_loop_log in Hlog1 as [Hlog1 _].
    apply makedirs_loop_dirs in Hdirs as [_ Hmade].
    pose proof Hb as Hsub. apply activate_stream_dirs in Hsub.
    split.
    - intros prompt i Hp Hi. apply Hsub. apply (Hmade prompt i Hp).
      apply elem_of_seq. lia.
    - intros Hnone.
      pose proof Hb as Hshape. apply activate_stream_shape in Hshape
        as (n_head & n_prompt & h & w & Hshape).
      destruct (activate_stream_branch_events _ _ _ _ _ _ _ _ _ _ _ _ _ _ _ _ _
                  Hshape Hb) as (_ & _ & new & Hlog & Hbranch).
      destruct gaussians_list as [gl|]; [discriminate|].
      destruct Hbranch as [_ Honly].
      exists new. rewrite Hlog, Hlog1. split; [reflexivity|].
      intros e He.
      destruct (Honly e He) as (k & i & es & _ & _ & (rel & pos & _ & Hpos & ->) & Hin).
      apply list_elem_of_singleton in Hin as ->.
      exists pos, i, (tensor_float (pixel_mask rel)). split; [reflexivity|].
      simpl in Hpos. eapply list_elem_of_lookup_2. exact Hpos. }
  split.
  - apply (for_each_post
             (fun t => forall prompt i, prompt ∈ img_ann_prompts -> i < length feat_dir ->
                         mask_dir output_path prompt i ∈ dirs t)
             body (seq 0 n_frames) s s'); [|intros j s1 s2 _ Hb; apply (Hbody j s1 s2 Hb)|exact Hrun].
    destruct n_frames; [contradiction|discriminate].
  - intros Hnone. specialize (H177 Hnone). subst n_frames.
    eapply (for_each_run (fun _ => True)
              (fun j es => forall e, e ∈ es ->
                 exists prompt i img,
                   e = SaveImage (path_join (mask_dir output_path prompt i)
                                            (str_nat j ++ ".png")%string) img /\
                   prompt ∈ img_ann_prompts)) in Hrun
      as (_ & ess & Hlog & HF); [| |exact Logic.I].
    + exists (concat ess). split; [exact Hlog|].
      intros e He. apply list_elem_of_In, in_concat in He as (es & Hes & He).
      apply list_elem_of_In, list_elem_of_lookup in Hes as (j & Hj).
      destruct (Forall2_lookup_r _ _ _ _ _ HF Hj) as (j' & Hj' & HP).
      apply lookup_seq in Hj' as [-> Hlt]. simpl in Hlt.
      destruct (HP e) as (prompt & i & img & -> & Hp); [apply list_elem_of_In; exact He|].
      exists prompt, i, j, img. auto.
    + intros j s1 s2 Hj _ Hb. split; [exact Logic.I|].
      apply (proj2 (Hbody j s1 s2 Hb) Hnone).
Qed.

End MaskDirectories.

Lemma evaluate_mask_directories_witness :
  evaluate sample_colormap sample_get_max_across sample_autoencoder (fun _ => None)
    ["feat/scene_1"] "out/scene" "ckpt/best_ckpt.pth" true (65 # 100)
    [256; 128; 64; 32; 3] [16; 32; 64; 128; 256; 256; 512]
    sample_compressed sample_point_xyz (Some [0]) sample_state
  = Some (tt, final_state (sample_evaluate (65 # 100)) sample_state) /\
  mask_dir "out/scene" "apple" 0
    ∈ dirs (final_state (sample_evaluate (65 # 100)) sample_state).
Proof.
  set (s' := final_state (sample_evaluate (65 # 100)) sample_state).
  assert (E : evaluate sample_colormap sample_get_max_across sample_autoencoder (fun _ => None)
           ["feat/scene_1"] "out/scene" "ckpt/best_ckpt.pth" true (65 # 100)
           [256; 128; 64; 32; 3] [16; 32; 64; 128; 256; 256; 512]
           sample_compressed sample_point_xyz (Some [0]) sample_state = Some (tt, s'))
    by (vm_compute; reflexivity).
  split; [exact E|].
  apply (proj1 (evaluate_mask_directories sample_colormap sample_get_max_across
           sample_autoencoder (fun _ => None)
           ["feat/scene_1"] "out/scene" "ckpt/best_ckpt.pth" (65 # 100)
           [256; 128; 64; 32; 3] [16; 32; 64; 128; 256; 256; 512]
           sample_compressed sample_point_xyz (Some [0]) sample_state s' E
           (or_intror (ex_intro _ 0 eq_refl)))).
  - apply (list_elem_of_lookup_2 img_ann_prompts 4). reflexivity.
  - simpl. lia.
Defined.

(** ** eval_gt_lerfdata: when it returns *)

Section GroundTruthReturns.

Variable polygon_to_mask : nat * nat -> list (list Q) -> tensor bool.
Variable stack_mask : tensor bool -> tensor bool -> tensor bool.
Variable ouput_path : string.

(** The objects of a file are read to the end when the boxes of every
    label that occurs again, or is in the dictionary already, have a
    multiple of four numbers. *)
Lemma add_objects_total_repeated h w name ps : forall d s,
  (forall label,
     match dict_get d label with
     | Some a =>
         occurrences label ps <> [] ->
         numel (shape (bboxes a)) mod 4 = 0 /\
         Forall (fun p => numel (shape (bbox p)) mod 4 = 0) (occurrences label ps)
     | None =>
         forall p q rest, occurrences label ps = p :: q :: rest ->
           Forall (fun p => numel (shape (bbox p)) mod 4 = 0) (p :: q :: rest)
     end) ->
  exists d' s',
    add_objects polygon_to_mask stack_mask h w name ouput_path d ps s = Some (d', s').
Proof.
  induction ps as [|p r IH]; intros d s Hd; simpl.
  - eexists _, _. reflexivity.
  - assert (Hocc : forall label,
              occurrences label (p :: r)
              = if String.eqb (category p) label then p :: occurrences label r
                else occurrences label r).
    { intros label. unfold occurrences. rewrite filter_cons.
      destruct (String.eqb (category p) label) eqn:E.
      - apply String.eqb_eq in E. rewrite decide_True by exact E. reflexivity.
      - apply String.eqb_neq in E. rewrite decide_False by exact E. reflexivity. }
    assert (Hstep : exists entry,
              entry_step polygon_to_mask stack_mask h w (dict_get d (category p)) p
              = Some entry /\
              (occurrences (category p) r <> [] ->
               numel (shape (bboxes entry)) mod 4 = 0 /\
               Forall (fun q => numel (shape (bbox q)) mod 4 = 0)
                      (occurrences (category p) r))).
    { pose proof (Hd (category p)) as Hc. rewrite Hocc, String.eqb_refl in Hc.
      destruct (dict_get d (category p)) as [a|] eqn:Eg.
      - destruct Hc as [Ha Hall]; [discriminate|].
        apply Forall_cons_1 in Hall as [Hp Hall].
        destruct (entry_step_total polygon_to_mask stack_mask h w (Some a) p)
          as (entry & He & Hm); [intros a0 [= <-]; exact Ha|exact Hp|].
        exists entry. split; [exact He|]. intros _. split; [exact Hm|exact Hall].
      - eexists. split; [reflexivity|]. intros Hne. simpl.
        destruct (occurrences (category p) r) as [|q rest] eqn:Er; [contradiction|].
        specialize (Hc p q rest eq_refl).
        apply Forall_cons_1 in Hc as [Hp Hall].
        unfold reshape_flat. simpl. rewrite Nat.mul_1_r. split; [exact Hp|exact Hall]. }
    destruct Hstep as (entry & He & Hentry).
    destruct (IH (dict_set d (category p) entry)
                 (MkState (heap s)
                    ({[ path_join_list ouput_path ["gt"; before_first ".jpg" name] ]}
                     ∪ dirs s)
                    (log s ++ [VisMaskSave (mask entry)
                       (path_join (path_join_list ouput_path
                                     ["gt"; before_first ".jpg" name])
                                  (category p ++ ".jpg")%string)])))
      as (d' & s' & Hrun).
    + intros label. rewrite dict_get_set. specialize (Hd label). rewrite Hocc in Hd.
      destruct (String.eqb (category p) label) eqn:E.
      * apply String.eqb_eq in E. subst label. exact Hentry.
      * exact Hd.
    + exists d', s'. apply bind_Some. eexists _, _. split; [|exact Hrun].
      apply add_object_Some. exists entry. auto.
Qed.

(** X15. Exactly when [eval_gt_lerfdata] returns: there is at least one
    annotation file, every frame name has a key (the text between its
    last underscore and [.jpg] is a number as [int] reads it, Unicode
    digits and white space included), and in every file the boxes of a
    label that occurs more than once all have a multiple of four numbers.
    In every other case it raises. *)
Theorem eval_gt_lerfdata_returns_iff gt_json img_paths s :
  (exists res s',
     eval_gt_lerfdata polygon_to_mask stack_mask gt_json img_paths ouput_path s
     = Some (res, s')) <->
  gt_json <> [] /\
  Forall (fun f =>
            is_Some (frame_key (info_name f)) /\
            forall label p q rest,
              occurrences label (objects f) = p :: q :: rest ->
              Forall (fun x => numel (shape (bbox x)) mod 4 = 0) (p :: q :: rest))
         gt_json.
Proof.
  split.
  - intros (res & s' & E). split.
    + intros ->. discriminate E.
    + unfold eval_gt_lerfdata in E.
      apply bind_Some in E as ([ga hw0] & s0 & Hloop & _).
      apply gt_loop_files in Hloop.
      eapply Forall_impl; [exact Hloop|]. clear Hloop.
      intros f [Hkey (s1 & r & s2 & Hobj)]. split; [exact Hkey|].
      intros label p q rest Hocc.
      apply add_objects_Some in Hobj as (Hfold & _).
      specialize (Hfold label). rewrite Hocc in Hfold.
      change (dict_get [] label) with (@None ann) in Hfold.
      change (entry_fold polygon_to_mask stack_mask (info_height f) (info_width f)
                None (p :: q :: rest))
        with (entry_fold polygon_to_mask stack_mask (info_height f) (info_width f)
                (Some (MkAnn (reshape_flat (bbox p))
                         (polygon_to_mask (info_height f, info_width f) (segmentation p))))
                (q :: rest)) in Hfold.
      apply entry_fold_divisible in Hfold as [Hp Hrest]; [|discriminate].
      simpl in Hp. rewrite Nat.mul_1_r in Hp. constructor; assumption.
  - intros [Hne Hall].
    assert (Hloop : forall files gt_ann hw s0,
      Forall (fun f =>
                is_Some (frame_key (info_name f)) /\
                forall label p q rest,
                  occurrences label (objects f) = p :: q :: rest ->
                  Forall (fun x => numel (shape (bbox x)) mod 4 = 0) (p :: q :: rest))
             files ->
      exists gt_ann' s1,
        gt_loop polygon_to_mask stack_mask ouput_path files gt_ann hw s0
        = Some ((gt_ann',
                 match last files with
                 | Some f => Some (info_height f, info_width f)
                 | None => hw
                 end), s1)).
    { induction files as [|f r IH]; intros gt_ann hw s0 HF; simpl.
      - eexists _, _. reflexivity.
      - apply Forall_cons_1 in HF as [[[key Hkey] Hobj] Hr].
        destruct (add_objects_total_repeated (info_height f) (info_width f) (info_name f)
                    (objects f) [] s0) as (img_ann & s1 & Hrun);
          [intros label; exact (Hobj label)|].
        destruct (IH (dict_set gt_ann key img_ann)
                     (Some (info_height f, info_width f)) s1 Hr) as (ga & s2 & Hl).
        exists ga, s2. unfold bind, lift. rewrite Hkey, Hrun, Hl.
        rewrite last_cons. destruct (last r); reflexivity. }
    destruct (Hloop gt_json [] None s Hall) as (ga & s1 & Hl).
    destruct (last gt_json) as [f|] eqn:El.
    + exists (ga, (info_height f, info_width f), img_paths), s1.
      unfold eval_gt_lerfdata, bind. rewrite Hl. reflexivity.
    + apply last_None in El. contradiction.
Qed.

End GroundTruthReturns.
